(** * cashflow: the local ledger core

    A shallow embedding of the ledger store (src/core/db.ts), the
    reconciliation engine (src/core/sync.ts), the classification engine
    (src/core/tags.ts), the budget engine (src/core/budgets.ts), the
    reports (src/core/reports.ts), the CSV export (src/core/export.ts),
    the search functions (src/core/search.ts), the database part of the
    unlink command (src/cli.ts) and the row types (src/types/index.ts).

    Conventions of the embedding.
    - A JavaScript [number] is a rational [Q]: IEEE rounding of the
      arithmetic is idealised away, the control flow is kept.
    - A JavaScript string is a [string]; its characters stand for the code
      units below 256.
    - [T | null] is [option T].
    - An SQL table is the list of its rows in insertion (rowid) order; the
      PRIMARY KEY and UNIQUE constraints are the invariant [Db_wf].
    - Code that reads or writes the database is a function of the database
      state that yields an outcome and the state it leaves behind; a thrown
      exception is the outcome [Thrown]. *)

From stdpp Require Import base option list sorting gmap strings.
From Stdlib Require Import Ascii QArith Qround Qminmax Qabs Lqa.

Local Open Scope string_scope.
Local Open Scope list_scope.

(** ** Errors and outcomes *)

(** The error classes of src/types/index.ts, bun:sqlite's SQLiteError, and
    [JsError] for whatever else is thrown (the Plaid client's request
    errors); each carries its [message]. *)
Inductive Error : Type :=
| ConfigError (message : string)
| PlaidApiError (message : string)
| SyncError (message : string)
| SQLiteError (message : string)
| JsError (message : string).

(** [err instanceof Error ? err.message : String(err)] *)
Definition error_message (e : Error) : string :=
  match e with
  | ConfigError m | PlaidApiError m | SyncError m | SQLiteError m | JsError m => m
  end.

Inductive outcome (A : Type) : Type :=
| Returned (a : A)
| Thrown (e : Error)
| Unfinished.
Arguments Returned {A} a.
Arguments Thrown {A} e.
Arguments Unfinished {A}.

(** ** JavaScript operators *)

(** [a || b] on [string | null] and [string]: the left operand when it is
    truthy, that is neither [null] nor the empty string. *)
Definition or_else (a : option string) (b : string) : string :=
  match a with
  | Some s => if String.eqb s "" then b else s
  | None => b
  end.

Definition Qltb (x y : Q) : bool := negb (Qle_bool y x).

(** ** Rows *)

Module AccountInput.
Record t : Type := mk {
  account_id : string;
  item_id : string;
  name : string;
  official_name : option string;
  type : string;
  subtype : option string;
  mask : option string;
  current_balance : option Q;
  available_balance : option Q;
  iso_currency_code : option string;
}.
End AccountInput.

Module Account.
Record t : Type := mk {
  account_id : string;
  item_id : string;
  name : string;
  official_name : option string;
  type : string;
  subtype : option string;
  mask : option string;
  current_balance : option Q;
  available_balance : option Q;
  iso_currency_code : option string;
  updated_at : string;
}.
End Account.

Module TransactionInput.
Record t : Type := mk {
  transaction_id : string;
  account_id : string;
  amount : Q;
  iso_currency_code : option string;
  date : string;
  name : string;
  merchant_name : option string;
  pending : Z;
  category : option string;
  subcategory : option string;
  payment_channel : option string;
  transaction_type : option string;
  authorized_date : option string;
}.
End TransactionInput.

Module Transaction.
Record t : Type := mk {
  transaction_id : string;
  account_id : string;
  amount : Q;
  iso_currency_code : option string;
  date : string;
  name : string;
  merchant_name : option string;
  pending : Z;
  category : option string;
  subcategory : option string;
  payment_channel : option string;
  transaction_type : option string;
  authorized_date : option string;
  tag : option string;
}.

(** [get isIncome() { return this.amount < 0; }] *)
Definition isIncome (this : t) : bool := Qltb (amount this) 0.

(** [get displayName() { return this.merchant_name || this.name; }] *)
Definition displayName (this : t) : string :=
  or_else (merchant_name this) (name this).

(** [get isPending() { return this.pending === 1; }] *)
Definition isPending (this : t) : bool := Z.eqb (pending this) 1.
End Transaction.

Module SyncState.
Record t : Type := mk {
  item_id : string;
  cursor : string;
  last_synced_at : string;
}.
End SyncState.

Module TagRule.
Record t : Type := mk {
  id : Z;
  pattern : string;
  tag : string;
  priority : Z;
  created_at : string;
}.
End TagRule.

Module Budget.
Record t : Type := mk {
  id : Z;
  tag : string;
  monthly_limit : Q;
  alert_threshold : Q;
  created_at : string;
}.
End Budget.

(** ** The database *)

(** The tables of SCHEMA.  [tag_rules_seq] and [budgets_seq] are the
    AUTOINCREMENT counters (the largest rowid handed out so far). *)
Record Db : Type := mkDb {
  accounts : list Account.t;
  transactions : list Transaction.t;
  sync_state : list SyncState.t;
  tag_rules : list TagRule.t;
  tag_rules_seq : Z;
  budgets : list Budget.t;
  budgets_seq : Z;
}.

Definition empty_db : Db := mkDb [] [] [] [] 0 [] 0.

Definition set_accounts (rows : list Account.t) (d : Db) : Db :=
  mkDb rows (transactions d) (sync_state d) (tag_rules d) (tag_rules_seq d)
       (budgets d) (budgets_seq d).

Definition set_transactions (rows : list Transaction.t) (d : Db) : Db :=
  mkDb (accounts d) rows (sync_state d) (tag_rules d) (tag_rules_seq d)
       (budgets d) (budgets_seq d).

Definition set_sync_state (rows : list SyncState.t) (d : Db) : Db :=
  mkDb (accounts d) (transactions d) rows (tag_rules d) (tag_rules_seq d)
       (budgets d) (budgets_seq d).

Definition set_tag_rules (rows : list TagRule.t) (seq : Z) (d : Db) : Db :=
  mkDb (accounts d) (transactions d) (sync_state d) rows seq
       (budgets d) (budgets_seq d).

Definition set_budgets (rows : list Budget.t) (seq : Z) (d : Db) : Db :=
  mkDb (accounts d) (transactions d) (sync_state d) (tag_rules d)
       (tag_rules_seq d) rows seq.

(** ** Database code: state passing with exceptions *)

Definition DbM (A : Type) : Type := Db -> outcome A * Db.

Definition ret {A} (a : A) : DbM A := fun d => (Returned a, d).

Definition throw {A} (e : Error) : DbM A := fun d => (Thrown e, d).

Definition bind {A B} (m : DbM A) (k : A -> DbM B) : DbM B :=
  fun d =>
    match m d with
    | (Returned a, d') => k a d'
    | (Thrown e, d') => (Thrown e, d')
    | (Unfinished, d') => (Unfinished, d')
    end.

Declare Scope dbm_scope.
Delimit Scope dbm_scope with dbm.
Notation "'let*' x ':=' m 'in' k" := (bind m (fun x => k))
  (at level 10, x name, m at level 200, k at level 200, only parsing) : dbm_scope.
Notation "m ';>' k" := (bind m (fun _ => k))
  (at level 100, k at level 200, right associativity, only parsing) : dbm_scope.

(** [try { body } catch (err) { handler(err) }] *)
Definition try_catch {A} (body : DbM A) (handler : Error -> DbM A) : DbM A :=
  fun d =>
    match body d with
    | (Thrown e, d') => handler e d'
    | r => r
    end.

(** [db.transaction(body)()]: BEGIN, run the body, COMMIT; when the body
    throws, ROLLBACK to the state at BEGIN and rethrow.  Inside another
    transaction bun:sqlite uses a savepoint, with the same effect. *)
Definition db_transaction {A} (body : DbM A) : DbM A :=
  fun d =>
    match body d with
    | (Thrown e, _) => (Thrown e, d)
    | r => r
    end.

(** [for (const x of xs) { f(x) }] *)
Fixpoint for_of {A} (xs : list A) (f : A -> DbM unit) : DbM unit :=
  match xs with
  | [] => ret tt
  | x :: xs' => bind (f x) (fun _ => for_of xs' f)
  end.

Definition modify (f : Db -> Db) : DbM unit := fun d => (Returned tt, f d).

Definition gets {A} (f : Db -> A) : DbM A := fun d => (Returned (f d), d).

(** ** SQL statements on one table *)

Section Table.
Context {R : Type} (key : R -> string).

(** [SELECT * FROM t WHERE key = k] (first row) *)
Fixpoint tbl_find (k : string) (rows : list R) : option R :=
  match rows with
  | [] => None
  | r :: rows' => if String.eqb (key r) k then Some r else tbl_find k rows'
  end.

(** [INSERT INTO t VALUES ins ON CONFLICT(key) DO UPDATE SET ...]: the row
    holding the key is rewritten in place by [upd]; without one, [ins] is
    appended. *)
Fixpoint tbl_upsert (k : string) (ins : R) (upd : R -> R) (rows : list R) : list R :=
  match rows with
  | [] => [ins]
  | r :: rows' =>
      if String.eqb (key r) k then upd r :: rows'
      else r :: tbl_upsert k ins upd rows'
  end.

(** [UPDATE t SET ... WHERE key = k] *)
Definition tbl_update (k : string) (upd : R -> R) (rows : list R) : list R :=
  map (fun r => if String.eqb (key r) k then upd r else r) rows.

(** [DELETE FROM t WHERE key = k] *)
Definition tbl_delete (k : string) (rows : list R) : list R :=
  List.filter (fun r => negb (String.eqb (key r) k)) rows.

(** Number of rows holding the key. *)
Definition tbl_count (k : string) (rows : list R) : nat :=
  length (List.filter (fun r => String.eqb (key r) k) rows).

(** The PRIMARY KEY (or UNIQUE) constraint. *)
Definition tbl_unique (rows : list R) : Prop := NoDup (map key rows).

End Table.

Local Open Scope dbm_scope.

(** ** Accounts (db.ts) *)

(** The row written by the INSERT of [upsertAccounts]. *)
Definition account_inserted (now : string) (a : AccountInput.t) : Account.t :=
  Account.mk (AccountInput.account_id a) (AccountInput.item_id a)
    (AccountInput.name a) (AccountInput.official_name a) (AccountInput.type a)
    (AccountInput.subtype a) (AccountInput.mask a)
    (AccountInput.current_balance a) (AccountInput.available_balance a)
    (AccountInput.iso_currency_code a) now.

(** The DO UPDATE SET clause of [upsertAccounts]: every column but
    [account_id] and [item_id]. *)
Definition account_updated (now : string) (a : AccountInput.t) (old : Account.t) : Account.t :=
  Account.mk (Account.account_id old) (Account.item_id old)
    (AccountInput.name a) (AccountInput.official_name a) (AccountInput.type a)
    (AccountInput.subtype a) (AccountInput.mask a)
    (AccountInput.current_balance a) (AccountInput.available_balance a)
    (AccountInput.iso_currency_code a) now.

Definition upsert_account_stmt (now : string) (a : AccountInput.t) : DbM unit :=
  modify (fun d =>
    set_accounts
      (tbl_upsert Account.account_id (AccountInput.account_id a)
         (account_inserted now a) (account_updated now a) (accounts d)) d).

(** [upsertAccounts]; [now] is the value of [datetime('now')]. *)
Definition upsertAccounts (now : string) (accs : list AccountInput.t) : DbM unit :=
  db_transaction (for_of accs (upsert_account_stmt now)).

(** [SELECT * FROM accounts ORDER BY name] *)
Definition string_le (a b : string) : Prop := String.leb a b = true.

#[local] Instance string_le_dec (a b : string) : Decision (string_le a b).
Proof. unfold string_le. apply _. Defined.

Definition getAccounts (d : Db) : list Account.t :=
  merge_sort (fun a b => string_le (Account.name a) (Account.name b)) (accounts d).

(** ** Transactions (db.ts) *)

(** The row written by the INSERT of [upsertTransactions]; the [tag]
    column is not listed and takes its default, NULL. *)
Definition transaction_inserted (t : TransactionInput.t) : Transaction.t :=
  Transaction.mk (TransactionInput.transaction_id t)
    (TransactionInput.account_id t) (TransactionInput.amount t)
    (TransactionInput.iso_currency_code t) (TransactionInput.date t)
    (TransactionInput.name t) (TransactionInput.merchant_name t)
    (TransactionInput.pending t) (TransactionInput.category t)
    (TransactionInput.subcategory t) (TransactionInput.payment_channel t)
    (TransactionInput.transaction_type t) (TransactionInput.authorized_date t)
    None.

(** The DO UPDATE SET clause of [upsertTransactions]: the twelve columns
    it lists; [tag] is not among them. *)
Definition transaction_updated (t : TransactionInput.t) (old : Transaction.t) : Transaction.t :=
  Transaction.mk (Transaction.transaction_id old)
    (TransactionInput.account_id t) (TransactionInput.amount t)
    (TransactionInput.iso_currency_code t) (TransactionInput.date t)
    (TransactionInput.name t) (TransactionInput.merchant_name t)
    (TransactionInput.pending t) (TransactionInput.category t)
    (TransactionInput.subcategory t) (TransactionInput.payment_channel t)
    (TransactionInput.transaction_type t) (TransactionInput.authorized_date t)
    (Transaction.tag old).

Definition account_exists (k : string) (d : Db) : bool :=
  match tbl_find Account.account_id k (accounts d) with
  | Some _ => true
  | None => false
  end.

Definition foreign_key_failed : Error := SQLiteError "FOREIGN KEY constraint failed".

(** One [stmt.run(...)] of [upsertTransactions].  The column [account_id]
    REFERENCES accounts(account_id) and foreign keys are enforced, so the
    statement fails when the account is missing. *)
Definition upsert_transaction_stmt (t : TransactionInput.t) : DbM unit :=
  fun d =>
    if account_exists (TransactionInput.account_id t) d then
      (Returned tt,
       set_transactions
         (tbl_upsert Transaction.transaction_id (TransactionInput.transaction_id t)
            (transaction_inserted t) (transaction_updated t) (transactions d)) d)
    else (Thrown foreign_key_failed, d).

Definition upsertTransactions (txns : list TransactionInput.t) : DbM unit :=
  db_transaction (for_of txns upsert_transaction_stmt).

Definition delete_transaction_stmt (id : string) : DbM unit :=
  modify (fun d =>
    set_transactions (tbl_delete Transaction.transaction_id id (transactions d)) d).

Definition removeTransactions (transactionIds : list string) : DbM unit :=
  match transactionIds with
  | [] => ret tt
  | _ => db_transaction (for_of transactionIds delete_transaction_stmt)
  end.

(** [UPDATE transactions SET tag = ? WHERE transaction_id = ?]; the result
    is [result.changes > 0]. *)
Definition set_tag (tag : option string) (r : Transaction.t) : Transaction.t :=
  Transaction.mk (Transaction.transaction_id r) (Transaction.account_id r)
    (Transaction.amount r) (Transaction.iso_currency_code r) (Transaction.date r)
    (Transaction.name r) (Transaction.merchant_name r) (Transaction.pending r)
    (Transaction.category r) (Transaction.subcategory r)
    (Transaction.payment_channel r) (Transaction.transaction_type r)
    (Transaction.authorized_date r) tag.

Definition updateTransactionTag (transactionId : string) (tag : option string) : DbM bool :=
  fun d =>
    (Returned (Nat.ltb 0 (tbl_count Transaction.transaction_id transactionId (transactions d))),
     set_transactions
       (tbl_update Transaction.transaction_id transactionId (set_tag tag) (transactions d)) d).

Definition is_untagged (r : Transaction.t) : bool :=
  match Transaction.tag r with
  | None => true
  | Some _ => false
  end.

(** [ORDER BY date DESC] *)
Definition date_desc (a b : Transaction.t) : Prop :=
  string_le (Transaction.date b) (Transaction.date a).

#[local] Instance date_desc_dec (a b : Transaction.t) : Decision (date_desc a b).
Proof. unfold date_desc. apply _. Defined.

(** [SELECT * FROM transactions WHERE tag IS NULL ORDER BY date DESC] *)
Definition getUntaggedTransactions (d : Db) : list Transaction.t :=
  merge_sort date_desc (List.filter is_untagged (transactions d)).

(** ** Sync state (db.ts) *)

Definition getSyncState (itemId : string) (d : Db) : option SyncState.t :=
  tbl_find SyncState.item_id itemId (sync_state d).

Definition setSyncState (now : string) (itemId cursor : string) : DbM unit :=
  modify (fun d =>
    set_sync_state
      (tbl_upsert SyncState.item_id itemId
         (SyncState.mk itemId cursor now)
         (fun old => SyncState.mk (SyncState.item_id old) cursor now)
         (sync_state d)) d).

(** ** Tag rules (db.ts) *)

(** [INSERT INTO tag_rules (pattern, tag, priority)]; returns
    [lastInsertRowid]. *)
Definition insertTagRule (now : string) (pattern tag : string) (priority : Z) : DbM Z :=
  fun d =>
    let id := (tag_rules_seq d + 1)%Z in
    (Returned id,
     set_tag_rules (tag_rules d ++ [TagRule.mk id pattern tag priority now]) id d).

(** [ORDER BY priority DESC, id ASC] *)
Definition rule_order (a b : TagRule.t) : Prop :=
  (TagRule.priority b < TagRule.priority a)%Z
  \/ (TagRule.priority a = TagRule.priority b /\ (TagRule.id a <= TagRule.id b)%Z).

#[local] Instance rule_order_dec (a b : TagRule.t) : Decision (rule_order a b).
Proof. unfold rule_order. apply _. Defined.

Definition getTagRules (d : Db) : list TagRule.t :=
  merge_sort rule_order (tag_rules d).

(** ** Budgets (db.ts) *)

Definition upsertBudget (now : string) (tag : string) (monthlyLimit alertThreshold : Q) : DbM unit :=
  fun d =>
    match tbl_find Budget.tag tag (budgets d) with
    | Some _ =>
        (Returned tt,
         set_budgets
           (tbl_update Budget.tag tag
              (fun old => Budget.mk (Budget.id old) (Budget.tag old) monthlyLimit
                            alertThreshold (Budget.created_at old))
              (budgets d))
           (budgets_seq d) d)
    | None =>
        let id := (budgets_seq d + 1)%Z in
        (Returned tt,
         set_budgets (budgets d ++ [Budget.mk id tag monthlyLimit alertThreshold now]) id d)
    end.

(** [SELECT id, tag, monthly_limit, alert_threshold FROM budgets ORDER BY tag] *)
Definition getBudgets (d : Db) : list Budget.t :=
  merge_sort (fun a b => string_le (Budget.tag a) (Budget.tag b)) (budgets d).

(** ** The upstream feed (the Plaid client's types) *)

Module PersonalFinanceCategory.
Record t : Type := mk {
  primary : option string;
  detailed : option string;
}.
End PersonalFinanceCategory.

Module PlaidTransaction.
Record t : Type := mk {
  transaction_id : string;
  account_id : string;
  amount : Q;
  iso_currency_code : option string;
  date : string;
  authorized_date : option string;
  name : string;
  merchant_name : option string;
  pending : bool;
  personal_finance_category : option PersonalFinanceCategory.t;
  category : option (list string);
  payment_channel : string;
  transaction_type : option string;
}.
End PlaidTransaction.

Module RemovedTransaction.
Record t : Type := mk {
  transaction_id : option string;
}.
End RemovedTransaction.

Module AccountBalance.
Record t : Type := mk {
  current : option Q;
  available : option Q;
  iso_currency_code : option string;
}.
End AccountBalance.

Module PlaidAccount.
Record t : Type := mk {
  account_id : string;
  name : string;
  official_name : option string;
  type : string;
  subtype : option string;
  mask : option string;
  balances : AccountBalance.t;
}.
End PlaidAccount.

Module TransactionsSyncResponse.
Record t : Type := mk {
  added : list PlaidTransaction.t;
  modified : list PlaidTransaction.t;
  removed : list RemovedTransaction.t;
  accounts : list PlaidAccount.t;
  has_more : bool;
  next_cursor : string;
}.
End TransactionsSyncResponse.

(** [plaid.transactionsSync({ access_token, cursor })]: the answer to one
    page request, [inl] for a rejected request. *)
Definition PlaidApi : Type :=
  string -> option string -> Error + TransactionsSyncResponse.t.

Module SyncResponse.
Record t : Type := mk {
  added : nat;
  modified : nat;
  removed : nat;
  cursor : string;
  has_more : bool;
}.
End SyncResponse.

(** ** Reconciliation (sync.ts) *)

(** [xs?.[i] || null] *)
Definition legacy_category (xs : option (list string)) (i : nat) : option string :=
  match xs with
  | Some l =>
      match nth_error l i with
      | Some s => if String.eqb s "" then None else Some s
      | None => None
      end
  | None => None
  end.

(** [a ?? b] *)
Definition nullish {A} (a b : option A) : option A :=
  match a with
  | Some x => Some x
  | None => b
  end.

Definition mapPlaidTransaction (t : PlaidTransaction.t) : TransactionInput.t :=
  let pfc := PlaidTransaction.personal_finance_category t in
  TransactionInput.mk
    (PlaidTransaction.transaction_id t)
    (PlaidTransaction.account_id t)
    (PlaidTransaction.amount t)
    (PlaidTransaction.iso_currency_code t)
    (PlaidTransaction.date t)
    (or_else (PlaidTransaction.merchant_name t) (PlaidTransaction.name t))
    (PlaidTransaction.merchant_name t)
    (if PlaidTransaction.pending t then 1%Z else 0%Z)
    (nullish (pfc ≫= PersonalFinanceCategory.primary)
       (legacy_category (PlaidTransaction.category t) 0))
    (nullish (pfc ≫= PersonalFinanceCategory.detailed)
       (legacy_category (PlaidTransaction.category t) 1))
    (Some (PlaidTransaction.payment_channel t))
    (PlaidTransaction.transaction_type t)
    (PlaidTransaction.authorized_date t).

Definition mapPlaidAccount (itemId : string) (a : PlaidAccount.t) : AccountInput.t :=
  AccountInput.mk
    (PlaidAccount.account_id a)
    itemId
    (PlaidAccount.name a)
    (PlaidAccount.official_name a)
    (PlaidAccount.type a)
    (PlaidAccount.subtype a)
    (PlaidAccount.mask a)
    (AccountBalance.current (PlaidAccount.balances a))
    (AccountBalance.available (PlaidAccount.balances a))
    (AccountBalance.iso_currency_code (PlaidAccount.balances a)).

(** [.map((r) => r.transaction_id).filter((id) => id != null)] *)
Definition removed_ids (rs : list RemovedTransaction.t) : list string :=
  omap RemovedTransaction.transaction_id rs.

(** [cursor || undefined] *)
Definition request_cursor (cursor : string) : option string :=
  if String.eqb cursor "" then None else Some cursor.

(** What one pass has accumulated when its page loop ends. *)
Record Pass : Type := mkPass {
  allAdded : list PlaidTransaction.t;
  allModified : list PlaidTransaction.t;
  allRemoved : list string;
  cursor : string;
}.

(** The pushes and assignments of one round of the page loop. *)
Definition add_page (acc : Pass) (data : TransactionsSyncResponse.t) : Pass :=
  mkPass (allAdded acc ++ TransactionsSyncResponse.added data)
         (allModified acc ++ TransactionsSyncResponse.modified data)
         (allRemoved acc ++ removed_ids (TransactionsSyncResponse.removed data))
         (TransactionsSyncResponse.next_cursor data).

Definition lift {A} (r : Error + A) : DbM A :=
  match r with
  | inl e => throw e
  | inr a => ret a
  end.

Section Sync.

(** The outcome of [await getPlaidClient()], the outcome of
    [await getDecryptedAccessTokens()] and the reading of [datetime('now')]
    during the call. *)
Variable getPlaidClient : Error + PlaidApi.
Variable getDecryptedAccessTokens : Error + list (string * string).
Variable now : string.

(** The [while (hasMore)] loop of [syncItem].  The loop ends when the feed
    says so; [fuel] bounds the number of page requests, and a run that
    needs more is [Unfinished]. *)
Fixpoint sync_pages (fuel : nat) (plaid : PlaidApi) (accessToken itemId : string)
    (acc : Pass) : DbM Pass :=
  match fuel with
  | O => fun d => (Unfinished, d)
  | S fuel' =>
      let* data := lift (plaid accessToken (request_cursor (cursor acc))) in
      let acc' := add_page acc data in
      (match TransactionsSyncResponse.accounts data with
       | [] => ret tt
       | accs => upsertAccounts now (map (mapPlaidAccount itemId) accs)
       end) ;>
      if TransactionsSyncResponse.has_more data
      then sync_pages fuel' plaid accessToken itemId acc'
      else ret acc'
  end.

(** [state?.cursor || ''] *)
Definition start_cursor (itemId : string) (d : Db) : string :=
  match getSyncState itemId d with
  | Some s => SyncState.cursor s
  | None => ""
  end.

(** The body of the final [db.transaction(() => { ... })]. *)
Definition commit_pass (itemId : string) (p : Pass) : DbM unit :=
  (match allAdded p with
   | [] => ret tt
   | l => upsertTransactions (map mapPlaidTransaction l)
   end) ;>
  (match allModified p with
   | [] => ret tt
   | l => upsertTransactions (map mapPlaidTransaction l)
   end) ;>
  (match allRemoved p with
   | [] => ret tt
   | l => removeTransactions l
   end) ;>
  setSyncState now itemId (cursor p).

(** The object returned by [syncItem]. *)
Definition sync_response (p : Pass) : SyncResponse.t :=
  SyncResponse.mk (length (allAdded p)) (length (allModified p))
    (length (allRemoved p)) (cursor p) false.

Definition sync_failed (itemId : string) (err : Error) : Error :=
  SyncError ("Sync failed for item " ++ itemId ++ ": " ++ error_message err).

Definition syncItem (fuel : nat) (accessToken itemId : string) : DbM SyncResponse.t :=
  let* plaid := lift getPlaidClient in
  let* start := gets (start_cursor itemId) in
  let* p := try_catch
            (sync_pages fuel plaid accessToken itemId (mkPass [] [] [] start))
            (fun err => throw (sync_failed itemId err)) in
  db_transaction (commit_pass itemId p) ;>
  ret (sync_response p).

(** The [for (const item of items)] loop of [syncAll], with its running
    totals. *)
Fixpoint sync_items (fuel : nat) (items : list (string * string))
    (total : SyncResponse.t) : DbM SyncResponse.t :=
  match items with
  | [] => ret total
  | (accessToken, itemId) :: items' =>
      let* result := syncItem fuel accessToken itemId in
      sync_items fuel items'
        (SyncResponse.mk
           (SyncResponse.added total + SyncResponse.added result)
           (SyncResponse.modified total + SyncResponse.modified result)
           (SyncResponse.removed total + SyncResponse.removed result)
           (SyncResponse.cursor result) false)
  end.

Definition no_linked_accounts : Error :=
  SyncError "No linked accounts. Run `cashflow link` first.".

Definition syncAll (fuel : nat) : DbM SyncResponse.t :=
  let* items := lift getDecryptedAccessTokens in
  match items with
  | [] => throw no_linked_accounts
  | _ => sync_items fuel items (SyncResponse.mk 0 0 0 "" false)
  end.

End Sync.

(** ** The rows left by the store operations *)

(** The rows left by the statements of [upsertAccounts], in order. *)
Definition upsert_account_rows (now : string) (accs : list AccountInput.t)
    (rows : list Account.t) : list Account.t :=
  fold_left
    (fun rows a =>
       tbl_upsert Account.account_id (AccountInput.account_id a)
         (account_inserted now a) (account_updated now a) rows)
    accs rows.

(** The rows left by the statements of [upsertTransactions], in order. *)
Definition upsert_transaction_rows (txns : list TransactionInput.t)
    (rows : list Transaction.t) : list Transaction.t :=
  fold_left
    (fun rows t =>
       tbl_upsert Transaction.transaction_id (TransactionInput.transaction_id t)
         (transaction_inserted t) (transaction_updated t) rows)
    txns rows.

(** The rows left by the statements of [removeTransactions], in order. *)
Definition delete_transaction_rows (ids : list string)
    (rows : list Transaction.t) : list Transaction.t :=
  fold_left (fun rows id => tbl_delete Transaction.transaction_id id rows) ids rows.

(** The columns of a stored row that [upsertTransactions] is given. *)
Definition transaction_columns (r : Transaction.t) : TransactionInput.t :=
  TransactionInput.mk (Transaction.transaction_id r) (Transaction.account_id r)
    (Transaction.amount r) (Transaction.iso_currency_code r) (Transaction.date r)
    (Transaction.name r) (Transaction.merchant_name r) (Transaction.pending r)
    (Transaction.category r) (Transaction.subcategory r)
    (Transaction.payment_channel r) (Transaction.transaction_type r)
    (Transaction.authorized_date r).

(** The columns of a stored row that [upsertAccounts] is given. *)
Definition account_columns (r : Account.t) : AccountInput.t :=
  AccountInput.mk (Account.account_id r) (Account.item_id r) (Account.name r)
    (Account.official_name r) (Account.type r) (Account.subtype r) (Account.mask r)
    (Account.current_balance r) (Account.available_balance r)
    (Account.iso_currency_code r).

Definition with_item_id (itemId : string) (a : AccountInput.t) : AccountInput.t :=
  AccountInput.mk (AccountInput.account_id a) itemId (AccountInput.name a)
    (AccountInput.official_name a) (AccountInput.type a) (AccountInput.subtype a)
    (AccountInput.mask a) (AccountInput.current_balance a)
    (AccountInput.available_balance a) (AccountInput.iso_currency_code a).

(** Every row of the batch refers to a stored account. *)
Definition accounts_exist (txns : list TransactionInput.t) (d : Db) : bool :=
  forallb (fun t => account_exists (TransactionInput.account_id t) d) txns.

(** The key constraints of the schema. *)
Definition Db_wf (d : Db) : Prop :=
  tbl_unique Account.account_id (accounts d)
  /\ tbl_unique Transaction.transaction_id (transactions d)
  /\ tbl_unique SyncState.item_id (sync_state d).

(** ** JavaScript strings and arrays *)

Definition dquote : ascii := "034"%char.
Definition comma : ascii := ","%char.
Definition LF : ascii := "010"%char.
Definition CR : ascii := "013"%char.

(** [str.includes(c)] for a one-character [c] *)
Fixpoint includes (c : ascii) (str : string) : bool :=
  match str with
  | EmptyString => false
  | String x rest => if Ascii.eqb x c then true else includes c rest
  end.

(** [str.replace(/dq/g, dq dq)], where dq is the double quote: every
    double quote is doubled. *)
Fixpoint double_quotes (str : string) : string :=
  match str with
  | EmptyString => EmptyString
  | String x rest =>
      if Ascii.eqb x dquote then String dquote (String dquote (double_quotes rest))
      else String x (double_quotes rest)
  end.

(** The template literal that puts its argument between two double
    quotes. *)
Definition in_quotes (str : string) : string :=
  String dquote (str ++ String dquote EmptyString).

(** [xs.join(sep)] *)
Definition join (sep : string) (xs : list string) : string := String.concat sep xs.

(** [xs.filter(Boolean)] on an array of [string | null] *)
Definition filter_Boolean (xs : list (option string)) : list string :=
  omap (fun x =>
          match x with
          | Some s => if String.eqb s "" then None else Some s
          | None => None
          end) xs.

(** The white space of [\s] and of [trim] among the code units below 256:
    TAB, LF, VT, FF, CR, SPACE and NBSP. *)
Definition is_white_space (c : ascii) : bool :=
  let n := nat_of_ascii c in
  ((9 <=? n)%nat && (n <=? 13)%nat) || (n =? 32)%nat || (n =? 160)%nat.

Fixpoint trimStart (s : string) : string :=
  match s with
  | EmptyString => EmptyString
  | String c rest => if is_white_space c then trimStart rest else s
  end.

Fixpoint trimEnd (s : string) : string :=
  match s with
  | EmptyString => EmptyString
  | String c rest =>
      match trimEnd rest with
      | EmptyString => if is_white_space c then EmptyString else String c EmptyString
      | t => String c t
      end
  end.

Definition trim (s : string) : string := trimEnd (trimStart s).

(** [s.split(/\s+/)]: [cur] is the piece being read, [in_space] tells that
    the previous character belonged to a separator. *)
Fixpoint split_spaces_from (s cur : string) (in_space : bool) : list string :=
  match s with
  | EmptyString => [cur]
  | String c rest =>
      if is_white_space c then
        if in_space then split_spaces_from rest cur true
        else cur :: split_spaces_from rest EmptyString true
      else split_spaces_from rest (cur ++ String c EmptyString) false
  end.

Definition split_spaces (s : string) : list string :=
  split_spaces_from s EmptyString false.

(** ** Classification (tags.ts) *)

Definition CompiledRule : Type := (string -> bool) * string.

Section Tags.

(** [new RegExp(pattern, 'i')]: the error it throws on a pattern that does
    not compile, or the [test] function of the expression (without the
    [g] and [y] flags [test] keeps no state). *)
Variable RegExp_i : string -> Error + (string -> bool).

Definition invalid_pattern (pattern : string) : Error :=
  ConfigError ("Invalid regex pattern: " ++ in_quotes pattern).

Definition addTagRule (now : string) (pattern tag : string) (priority : Z) : DbM Z :=
  match RegExp_i pattern with
  | inl _ => throw (invalid_pattern pattern)
  | inr _ => insertTagRule now pattern tag priority
  end.

(** [rules.map((r) => ({ regex: new RegExp(r.pattern, 'i'), tag: r.tag }))] *)
Fixpoint compile_rules (rules : list TagRule.t) : Error + list CompiledRule :=
  match rules with
  | [] => inr []
  | r :: rules' =>
      match RegExp_i (TagRule.pattern r) with
      | inl e => inl e
      | inr regex =>
          match compile_rules rules' with
          | inl e => inl e
          | inr rest => inr ((regex, TagRule.tag r) :: rest)
          end
      end
  end.

(** [[txn.merchant_name, txn.name].filter(Boolean).join(' ')] *)
Definition haystack (txn : Transaction.t) : string :=
  join " " (filter_Boolean [Transaction.merchant_name txn; Some (Transaction.name txn)]).

(** The inner [for (const rule of compiled)] with its [break]. *)
Fixpoint apply_first_match (compiled : list CompiledRule) (txn : Transaction.t)
    (tagged : nat) : DbM nat :=
  match compiled with
  | [] => ret tagged
  | (regex, tag) :: rest =>
      if regex (haystack txn) then
        let* _ := updateTransactionTag (Transaction.transaction_id txn) (Some tag) in
        ret (S tagged)
      else apply_first_match rest txn tagged
  end.

(** The outer [for (const txn of untagged)]. *)
Fixpoint tag_untagged (compiled : list CompiledRule) (untagged : list Transaction.t)
    (tagged : nat) : DbM nat :=
  match untagged with
  | [] => ret tagged
  | txn :: rest =>
      let* tagged' := apply_first_match compiled txn tagged in
      tag_untagged compiled rest tagged'
  end.

Definition applyTagRules : DbM nat :=
  let* rules := gets getTagRules in
  match rules with
  | [] => ret 0%nat
  | _ =>
      let* untagged := gets getUntaggedTransactions in
      match untagged with
      | [] => ret 0%nat
      | _ =>
          let* compiled := lift (compile_rules rules) in
          db_transaction (tag_untagged compiled untagged 0)
      end
  end.

End Tags.

(** ** Aggregation (db.ts) *)

(** [SELECT k, SUM(v) ... GROUP BY k]: one bucket per key, in the order in
    which the keys are first met. *)
Section GroupBy.
Context {R K : Type} `{EqDecision K} (key : R -> K) (val : R -> Q).

Fixpoint bucket_add (k : K) (v : Q) (acc : list (K * Q)) : list (K * Q) :=
  match acc with
  | [] => [(k, v)]
  | (k', s) :: rest =>
      if decide (k' = k) then (k', s + v) :: rest
      else (k', s) :: bucket_add k v rest
  end.

Definition group_sum (rows : list R) : list (K * Q) :=
  fold_left (fun acc r => bucket_add (key r) (val r) acc) rows [].

End GroupBy.

(** [COALESCE(tag, category, 'uncategorized')] *)
Definition resolved_tag (r : Transaction.t) : string :=
  match Transaction.tag r with
  | Some t => t
  | None =>
      match Transaction.category r with
      | Some c => c
      | None => "uncategorized"
      end
  end.

(** [ORDER BY month ASC]; NULL sorts first. *)
Definition month_asc (a b : option string * Q) : Prop :=
  match fst a, fst b with
  | None, _ => True
  | Some _, None => False
  | Some x, Some y => string_le x y
  end.

#[local] Instance month_asc_dec (a b : option string * Q) : Decision (month_asc a b).
Proof. unfold month_asc. destruct (fst a), (fst b); apply _. Defined.

Section Dates.

(** SQLite's date functions: [strftime('%Y-%m', date)], NULL on a text that
    is not a date, and [date('now', '-' || months || ' months')]. *)
Variable strftime_Y_m : string -> option string.
Variable date_now_minus_months : Z -> option string.

(** [WHERE amount > 0 AND strftime('%Y-%m', date) = ?] *)
Definition spent_in_month (month : string) (r : Transaction.t) : bool :=
  Qltb 0 (Transaction.amount r)
  && match strftime_Y_m (Transaction.date r) with
     | Some m => String.eqb m month
     | None => false
     end.

Definition getSpendingByTagForMonth (month : string) (d : Db) : list (string * Q) :=
  group_sum resolved_tag Transaction.amount
    (List.filter (spent_in_month month) (transactions d)).

(** [WHERE amount > 0 AND date >= date('now', ...)] *)
Definition spent_since (cutoff : string) (r : Transaction.t) : bool :=
  Qltb 0 (Transaction.amount r) && String.leb cutoff (Transaction.date r).

Definition getMonthlySpending (months : Z) (d : Db) : list (option string * Q) :=
  match date_now_minus_months months with
  | None => []
  | Some cutoff =>
      merge_sort month_asc
        (group_sum (fun r => strftime_Y_m (Transaction.date r)) Transaction.amount
           (List.filter (spent_since cutoff) (transactions d)))
  end.

End Dates.

(** ** JavaScript numbers *)

(** [Math.round]: the nearest integer, halves upwards. *)
Definition Math_round (x : Q) : Q := inject_Z (Qfloor (x + (1 # 2))).

Definition Math_max (a b : Q) : Q := if Qle_bool a b then b else a.

(** [Math.round(x * 100) / 100] and [Math.round(x * 1000) / 1000] *)
Definition round_cents (x : Q) : Q := Math_round (x * 100) / 100.
Definition round_thousandths (x : Q) : Q := Math_round (x * 1000) / 1000.

(** [x || 0] on [number | undefined] *)
Definition or_zero (x : option Q) : Q :=
  match x with
  | Some v => if Qeq_bool v 0 then 0 else v
  | None => 0
  end.

(** [new Map(pairs)]: a later pair replaces an earlier one with its key. *)
Definition new_Map (pairs : list (string * Q)) : gmap string Q :=
  fold_left (fun m p => <[fst p := snd p]> m) pairs ∅.

(** ** Budgets (budgets.ts) *)

Module BudgetStatus.
Record t : Type := mk {
  tag : string;
  monthly_limit : Q;
  alert_threshold : Q;
  spent : Q;
  remaining : Q;
  percent_used : Q;
  over_budget : bool;
}.
End BudgetStatus.

Section Budgets.

Variable strftime_Y_m : string -> option string.
(** The value of [getCurrentMonth()] at the call. *)
Variable getCurrentMonth : string.

Definition budget_status (spendingMap : gmap string Q) (b : Budget.t) : BudgetStatus.t :=
  let spent := or_zero (spendingMap !! Budget.tag b) in
  let remaining := Math_max 0 (Budget.monthly_limit b - spent) in
  let percentUsed :=
    if Qltb 0 (Budget.monthly_limit b) then spent / Budget.monthly_limit b else 0 in
  BudgetStatus.mk (Budget.tag b) (Budget.monthly_limit b) (Budget.alert_threshold b)
    (round_cents spent) (round_cents remaining) (round_thousandths percentUsed)
    (Qltb (Budget.monthly_limit b) spent).

Definition getBudgetStatuses (month : option string) (d : Db) : list BudgetStatus.t :=
  let m := or_else month getCurrentMonth in
  match getBudgets d with
  | [] => []
  | budgets =>
      let spending := getSpendingByTagForMonth strftime_Y_m m d in
      let spendingMap := new_Map spending in
      map (budget_status spendingMap) budgets
  end.

Definition checkAlerts (month : option string) (d : Db) : list BudgetStatus.t :=
  List.filter
    (fun s => Qle_bool (BudgetStatus.alert_threshold s) (BudgetStatus.percent_used s))
    (getBudgetStatuses month d).

End Budgets.

(** ** Reports (reports.ts) *)

Module MonthlyBurn.
Record t : Type := mk {
  month : option string;
  total : Q;
}.
End MonthlyBurn.

Inductive Trend : Type := increasing | decreasing | stable.

Module BurnReport.
Record t : Type := mk {
  months : list MonthlyBurn.t;
  trend : Trend;
}.
End BurnReport.

(** [xs.slice(-n)] *)
Definition slice_last {A} (n : nat) (xs : list A) : list A :=
  skipn (length xs - n) xs.

(** The loop [for (let i = 1; i < recent.length; i++)] that pushes
    [recent[i].total - recent[i - 1].total]. *)
Fixpoint month_diffs (recent : list MonthlyBurn.t) : list Q :=
  match recent with
  | a :: (b :: _) as rest => (MonthlyBurn.total b - MonthlyBurn.total a) :: month_diffs rest
  | _ => []
  end.

Definition number_of_nat (n : nat) : Q := inject_Z (Z.of_nat n).

Definition computeTrend (months : list MonthlyBurn.t) : Trend :=
  if (length months <? 3)%nat then stable
  else
    let recent := slice_last 3 months in
    let diffs := month_diffs recent in
    let avgDiff := fold_left (fun a b => a + b) diffs 0 / number_of_nat (length diffs) in
    let avgSpend :=
      fold_left (fun a b => a + MonthlyBurn.total b) recent 0
      / number_of_nat (length recent) in
    let threshold := avgSpend * (5 # 100) in
    if Qltb threshold avgDiff then increasing
    else if Qltb avgDiff (- threshold) then decreasing
    else stable.

Section Reports.

Variable strftime_Y_m : string -> option string.
Variable date_now_minus_months : Z -> option string.

Definition getBurnReport (months : Z) (d : Db) : BurnReport.t :=
  let rows := getMonthlySpending strftime_Y_m date_now_minus_months months d in
  let monthlyBurn :=
    map (fun r => MonthlyBurn.mk (fst r) (round_cents (snd r))) rows in
  BurnReport.mk monthlyBurn (computeTrend monthlyBurn).

End Reports.

(** ** Export (export.ts) *)

Module TransactionResponse.
Record t : Type := mk {
  transaction_id : string;
  account_id : string;
  amount : Q;
  date : string;
  name : string;
  merchant_name : option string;
  pending : bool;
  category : option string;
  subcategory : option string;
  payment_channel : option string;
  tag : option string;
}.
End TransactionResponse.

(** [string | null | boolean | number] *)
Inductive CsvValue : Type :=
| CsvNull
| CsvString (s : string)
| CsvBoolean (b : bool)
| CsvNumber (x : Q).

Definition csv_string (v : option string) : CsvValue :=
  match v with
  | Some s => CsvString s
  | None => CsvNull
  end.

Definition CSV_HEADERS : list string :=
  [ "transaction_id"; "account_id"; "date"; "name"; "merchant_name"; "amount";
    "category"; "subcategory"; "tag"; "pending"; "payment_channel" ].

Definition newline : string := String LF EmptyString.

Section CsvExport.

(** [String(x)] on a number. *)
Variable Number_toString : Q -> string.

(** [String(value)] on a value that is not [null]. *)
Definition String_of (value : CsvValue) : string :=
  match value with
  | CsvNull => "null"
  | CsvString s => s
  | CsvBoolean b => if b then "true" else "false"
  | CsvNumber x => Number_toString x
  end.

Definition needs_quoting (str : string) : bool :=
  includes comma str || includes dquote str || includes LF str || includes CR str.

Definition escapeCsv (value : CsvValue) : string :=
  match value with
  | CsvNull => ""
  | _ =>
      let str := String_of value in
      if needs_quoting str then in_quotes (double_quotes str) else str
  end.

Definition csv_row (t : TransactionResponse.t) : list CsvValue :=
  [ CsvString (TransactionResponse.transaction_id t);
    CsvString (TransactionResponse.account_id t);
    CsvString (TransactionResponse.date t);
    CsvString (TransactionResponse.name t);
    csv_string (TransactionResponse.merchant_name t);
    CsvNumber (TransactionResponse.amount t);
    csv_string (TransactionResponse.category t);
    csv_string (TransactionResponse.subcategory t);
    csv_string (TransactionResponse.tag t);
    CsvBoolean (TransactionResponse.pending t);
    csv_string (TransactionResponse.payment_channel t) ].

Definition exportCsv (transactions : list TransactionResponse.t) : string :=
  let lines :=
    join "," CSV_HEADERS
    :: map (fun t => join "," (map escapeCsv (csv_row t))) transactions in
  join newline lines ++ newline.

End CsvExport.

(** ** Full-text search (db.ts) *)

(** [query.trim().split(/\s+/).filter(Boolean)] *)
Definition fts_terms (query : string) : list string :=
  filter_Boolean (map Some (split_spaces (trim query))).

(** The argument bound to MATCH. *)
Definition fts_query_of (terms : list string) : string :=
  join " OR " (map (fun t => in_quotes (double_quotes t)) terms).

Section Search.

(** The engine's answer to the SELECT with [transactions_fts MATCH ?]
    ordered by [bm25] and cut at LIMIT: the rows, or the error of a query
    it does not accept. *)
Variable fts5_select : string -> Z -> Db -> Error + list Transaction.t.

Definition searchFts (query : string) (limit : Z) (d : Db) : Error + list Transaction.t :=
  match fts_terms query with
  | [] => inr []
  | terms => fts5_select (fts_query_of terms) limit d
  end.

End Search.

(** ** Runs of the page loop *)

(** [page_run plaid accessToken cursor pages final]: asked from [cursor]
    on, the feed answers with [pages], each announcing more, and then with
    [final], a last page or a rejection. *)
Inductive page_run (plaid : PlaidApi) (accessToken : string) :
    string -> list TransactionsSyncResponse.t ->
    Error + TransactionsSyncResponse.t -> Prop :=
| run_rejected (cursor : string) (e : Error) :
    plaid accessToken (request_cursor cursor) = inl e ->
    page_run plaid accessToken cursor [] (inl e)
| run_last (cursor : string) (data : TransactionsSyncResponse.t) :
    plaid accessToken (request_cursor cursor) = inr data ->
    TransactionsSyncResponse.has_more data = false ->
    page_run plaid accessToken cursor [] (inr data)
| run_more (cursor : string) (data : TransactionsSyncResponse.t)
    (pages : list TransactionsSyncResponse.t)
    (final : Error + TransactionsSyncResponse.t) :
    plaid accessToken (request_cursor cursor) = inr data ->
    TransactionsSyncResponse.has_more data = true ->
    page_run plaid accessToken (TransactionsSyncResponse.next_cursor data) pages final ->
    page_run plaid accessToken cursor (data :: pages) final.

(** What a pass that starts at [cursor] has accumulated after [pages]. *)
Definition accumulate (cursor : string) (pages : list TransactionsSyncResponse.t) : Pass :=
  fold_left add_page pages (mkPass [] [] [] cursor).


(** The transaction rows after the final write of a pass: added upserted,
    then modified upserted, then removed deleted. *)
Definition commit_rows (p : Pass) (rows : list Transaction.t) : list Transaction.t :=
  delete_transaction_rows (allRemoved p)
    (upsert_transaction_rows (map mapPlaidTransaction (allModified p))
       (upsert_transaction_rows (map mapPlaidTransaction (allAdded p)) rows)).

(** The sync-state rows after [setSyncState]. *)
Definition cursor_rows (now itemId cursor : string) (rows : list SyncState.t) : list SyncState.t :=
  tbl_upsert SyncState.item_id itemId
    (SyncState.mk itemId cursor now)
    (fun old => SyncState.mk (SyncState.item_id old) cursor now)
    rows.

(** ** What one classification pass does to a row *)

(** The tag of the first rule, in order, whose expression matches. *)
Fixpoint first_match (compiled : list CompiledRule) (text : string) : option string :=
  match compiled with
  | [] => None
  | (regex, tag) :: rest => if regex text then Some tag else first_match rest text
  end.

Definition matched (compiled : list CompiledRule) (txn : Transaction.t) : bool :=
  match first_match compiled (haystack txn) with
  | Some _ => true
  | None => false
  end.

(** A row after a pass with the rules [compiled]: an untagged row that
    matches takes the tag of its first match, every other row stays. *)
Definition classify (compiled : list CompiledRule) (r : Transaction.t) : Transaction.t :=
  if is_untagged r then
    match first_match compiled (haystack r) with
    | Some tag => set_tag (Some tag) r
    | None => r
    end
  else r.

(** The rows after the writes of the pass for the snapshot [untagged]. *)
Definition tag_step (compiled : list CompiledRule) (rows : list Transaction.t)
    (txn : Transaction.t) : list Transaction.t :=
  match first_match compiled (haystack txn) with
  | Some tag =>
      tbl_update Transaction.transaction_id (Transaction.transaction_id txn)
        (set_tag (Some tag)) rows
  | None => rows
  end.

(** The row [r] after the writes for the snapshot [l]: the snapshot row
    with the key of [r] decides. *)
Definition retag (compiled : list CompiledRule) (l : list Transaction.t)
    (r : Transaction.t) : Transaction.t :=
  match tbl_find Transaction.transaction_id (Transaction.transaction_id r) l with
  | Some u =>
      match first_match compiled (haystack u) with
      | Some tag => set_tag (Some tag) r
      | None => r
      end
  | None => r
  end.

(** The untagged rows that some rule matches. *)
Definition newly_tagged (compiled : list CompiledRule) (rows : list Transaction.t) : nat :=
  length (List.filter (matched compiled) (List.filter is_untagged rows)).

(** ** Totals *)

(** The value paired with a key in a list of pairs. *)
Fixpoint assoc {K V : Type} `{EqDecision K} (k : K) (l : list (K * V)) : option V :=
  match l with
  | [] => None
  | (k', v) :: rest => if decide (k' = k) then Some v else assoc k rest
  end.

(** SQL's SUM over a group, in row order; NULL for the empty group. *)
Definition sum_from (start : option Q) (vals : list Q) : option Q :=
  fold_left (fun o v => Some (match o with Some s => s + v | None => v end)) vals start.

Definition sum_amounts (rows : list Transaction.t) : Q :=
  fold_left (fun a r => a + Transaction.amount r) rows 0.


(** [strftime('%Y-%m', date)] on dates written YYYY-MM-DD: the first seven
    characters. *)
Definition sample_strftime_Y_m (date : string) : option string :=
  Some (String.substring 0 7 date).

(** ** A matcher for literal patterns *)

Definition to_lower (c : ascii) : ascii :=
  let n := nat_of_ascii c in
  if ((65 <=? n)%nat && (n <=? 90)%nat)%bool then ascii_of_nat (n + 32) else c.

Fixpoint starts_with_ci (pattern text : string) : bool :=
  match pattern, text with
  | EmptyString, _ => true
  | String _ _, EmptyString => false
  | String p pattern', String c text' =>
      Ascii.eqb (to_lower p) (to_lower c) && starts_with_ci pattern' text'
  end.

Fixpoint contains_ci (pattern text : string) : bool :=
  starts_with_ci pattern text
  || match text with
     | EmptyString => false
     | String _ text' => contains_ci pattern text'
     end.

(** [new RegExp(pattern, 'i')] on patterns of letters, digits and spaces,
    which have no special character: [test] is then the search for the
    pattern as a substring, letter case ignored. *)
Definition literal_RegExp_i (pattern : string) : Error + (string -> bool) :=
  inr (contains_ci pattern).

(** ** Readers of quoted text *)



(** The part of the FTS5 query syntax that [searchFts] writes: strings in
    double quotes, a double quote inside a string written twice, joined by
    the keyword OR between single spaces.  The reader goes through the
    text once. *)
Inductive Fts5State : Type :=
| AtString
| InString (text : string)
| AfterQuote (text : string)
| AfterSpace
| AfterO
| AfterR.

Definition space : ascii := " "%char.

(** The strings of a query of that form, in order; [None] for any other
    text. *)
Fixpoint fts5_read (st : Fts5State) (s : string) : option (list string) :=
  match s with
  | EmptyString =>
      match st with
      | AfterQuote text => Some [text]
      | _ => None
      end
  | String c rest =>
      match st with
      | AtString => if Ascii.eqb c dquote then fts5_read (InString EmptyString) rest else None
      | InString text =>
          if Ascii.eqb c dquote then fts5_read (AfterQuote text) rest
          else fts5_read (InString (text ++ String c EmptyString)) rest
      | AfterQuote text =>
          if Ascii.eqb c dquote
          then fts5_read (InString (text ++ String dquote EmptyString)) rest
          else if Ascii.eqb c space
          then option_map (cons text) (fts5_read AfterSpace rest)
          else None
      | AfterSpace => if Ascii.eqb c "O"%char then fts5_read AfterO rest else None
      | AfterO => if Ascii.eqb c "R"%char then fts5_read AfterR rest else None
      | AfterR => if Ascii.eqb c space then fts5_read AtString rest else None
      end
  end.

Definition fts5_strings (query : string) : option (list string) :=
  fts5_read AtString query.


(** ** Sample ledgers and feeds *)

Definition tx_empty_merchant : Transaction.t :=
  Transaction.mk "txn_2" "acc_1" (-1500) (Some "USD") "2024-06-01" "Direct Deposit"
    (Some "") 0 (Some "INCOME") (Some "PAYROLL") (Some "other") (Some "special")
    (Some "2024-06-01") None.

Definition acc_1 (itemId : string) (balance : Q) : AccountInput.t :=
  AccountInput.mk "acc_1" itemId "Checking" (Some "Premium Checking") "depository"
    (Some "checking") (Some "1234") (Some balance) (Some 900) (Some "USD").

Definition txn_1 (amount : Q) : TransactionInput.t :=
  TransactionInput.mk "txn_1" "acc_1" amount (Some "USD") "2024-06-15" "Coffee Shop"
    (Some "Starbucks") 0 (Some "FOOD_AND_DRINK") (Some "COFFEE") (Some "in store")
    (Some "place") (Some "2024-06-15").

Definition sample_now : string := "2024-06-15 12:00:00".

(** A ledger with the account acc_1 and no transaction. *)
Definition ledger_1 : Db :=
  snd (upsertAccounts sample_now [acc_1 "item_1" 1000] empty_db).

(** A ledger where the transaction txn_1 carries the tag coffee. *)
Definition ledger_tagged : Db :=
  snd (updateTransactionTag "txn_1" (Some "coffee")
         (snd (upsertTransactions [txn_1 (85 # 2)] ledger_1))).

Definition plaid_acc_1 : PlaidAccount.t :=
  PlaidAccount.mk "acc_1" "Checking" None "depository" (Some "checking") (Some "0000")
    (AccountBalance.mk (Some 500) (Some 500) (Some "USD")).

Definition plaid_txn (id : string) (amount : Q) : PlaidTransaction.t :=
  PlaidTransaction.mk id "acc_1" amount (Some "USD") "2024-06-01" (Some "2024-06-01")
    "Starbucks Coffee" (Some "Starbucks") false
    (Some (PersonalFinanceCategory.mk (Some "FOOD_AND_DRINK") (Some "COFFEE")))
    None "in store" (Some "place").

Definition page_1 : TransactionsSyncResponse.t :=
  TransactionsSyncResponse.mk [plaid_txn "txn_1" 25; plaid_txn "txn_0" 5] [] []
    [plaid_acc_1] true "cursor_1".

Definition page_2 : TransactionsSyncResponse.t :=
  TransactionsSyncResponse.mk [plaid_txn "txn_2" 10] [plaid_txn "txn_1" 30]
    [RemovedTransaction.mk (Some "txn_0"); RemovedTransaction.mk None]
    [] false "cursor_2".

Definition request_failed : Error := JsError "Request failed with status code 500".

(** A feed that rejects every request for tok_a, serves two pages for
    tok_b, and serves tok_c one page and then rejects. *)
Definition sample_feed : PlaidApi :=
  fun accessToken cursor =>
    if String.eqb accessToken "tok_b" then
      match cursor with
      | None => inr page_1
      | Some c => if String.eqb c "cursor_1" then inr page_2 else inl request_failed
      end
    else if String.eqb accessToken "tok_c" then
      match cursor with
      | None => inr page_1
      | Some _ => inl request_failed
      end
    else inl request_failed.

Definition sample_items : list (string * string) :=
  [("tok_a", "item_a"); ("tok_b", "item_b")].

Definition txn_uber : TransactionInput.t :=
  TransactionInput.mk "txn_9" "acc_1" 15 (Some "USD") "2024-06-14" "Uber Ride"
    (Some "Uber") 0 (Some "TRANSPORT") None (Some "online") (Some "place")
    (Some "2024-06-14").

(** A ledger with the untagged transactions txn_1 (Starbucks) and txn_9
    (Uber) and the one rule starbucks -> coffee. *)
Definition ledger_rules : Db :=
  snd (addTagRule literal_RegExp_i sample_now "starbucks" "coffee" 0
         (snd (upsertTransactions [txn_1 (85 # 2); txn_uber] ledger_1))).

Definition txn_food : TransactionInput.t :=
  TransactionInput.mk "txn_5" "acc_1" 50 (Some "USD") "2024-06-10" "Lunch"
    (Some "Restaurant") 0 (Some "food") None (Some "online") (Some "place") None.


(** The same ledger with the limit 500. *)
Definition ledger_budget : Db :=
  snd (upsertBudget sample_now "food" 500 (9 # 10)
         (snd (upsertTransactions [txn_food] ledger_1))).

(** [date('now', '-N months')] read on 2024-07-01 with N = 6. *)
Definition sample_date_now_minus_months (months : Z) : option string :=
  Some "2024-01-01".

Definition txn_month (id date : string) (amount : Q) : TransactionInput.t :=
  TransactionInput.mk id "acc_1" amount (Some "USD") date "A" None 0 None None
    (Some "online") (Some "place") None.

(** Monthly spending of 100, 200 and 400, and an income of 5000. *)
Definition ledger_burn : Db :=
  snd (upsertTransactions
         [ txn_month "b1" "2024-03-15" 100; txn_month "b2" "2024-04-15" 200;
           txn_month "b3" "2024-05-15" 150; txn_month "b4" "2024-05-20" 250;
           txn_month "b5" "2024-05-21" (-5000) ]
         ledger_1).

Definition response_salary : TransactionResponse.t :=
  TransactionResponse.mk "txn_2" "acc_1" (-5000) "2024-06-01"
    ("Salary " ++ in_quotes "Direct Deposit") None false (Some "INCOME") None
    (Some "online") None.

(** [String(x)] on the whole numbers of the samples. *)
Definition sample_Number_toString (x : Q) : string :=
  if Qeq_bool x (-5000) then "-5000" else "0".

(** A query with operator words and a stray double quote. *)
Definition sample_query : string :=
  ("  coffee AND NEAR  say" ++ String dquote "hi ")%string.

Definition sample_terms : list string :=
  ["coffee"; "AND"; "NEAR"; ("say" ++ String dquote "hi")%string].

(** * The rest of the ledger core *)

(** ** Queries and deletions (db.ts) *)

(** [if (s)] on [string | undefined]: the string when it is there and not
    empty. *)
Definition truthy_string (s : option string) : option string :=
  match s with
  | Some x => if String.eqb x "" then None else Some x
  | None => None
  end.

Module TransactionFilters.
Record t : Type := mk {
  from : option string;
  to : option string;
  min : option Q;
  max : option Q;
  account : option string;
  pending : option bool;
  tag : option string;
  limit : option Z;
}.
End TransactionFilters.




(** [WHERE account_id = ? OR mask = ?] *)
Definition id_or_mask (identifier : string) (a : Account.t) : bool :=
  String.eqb (Account.account_id a) identifier
  || match Account.mask a with
     | Some m => String.eqb m identifier
     | None => false
     end.

(** [SELECT * FROM accounts WHERE account_id = ? OR mask = ? LIMIT 1],
    the table read in rowid order. *)
Definition getAccountByIdOrMask (identifier : string) (d : Db) : option Account.t :=
  List.find (id_or_mask identifier) (accounts d).

Definition string_in (x : string) (xs : list string) : bool :=
  existsb (String.eqb x) xs.

(** [removeAccountsByItem]: the ids of the item's accounts; the DELETE runs
    when there is one, and fails as a whole when a transaction still
    refers to an account it would delete. *)
Definition removeAccountsByItem (itemId : string) : DbM (list string) :=
  fun d =>
    let ids :=
      map Account.account_id
        (List.filter (fun a => String.eqb (Account.item_id a) itemId) (accounts d)) in
    match ids with
    | [] => (Returned ids, d)
    | _ =>
        if existsb (fun t => string_in (Transaction.account_id t) ids) (transactions d)
        then (Thrown foreign_key_failed, d)
        else
          (Returned ids,
           set_accounts
             (List.filter (fun a => negb (String.eqb (Account.item_id a) itemId))
                (accounts d)) d)
    end.

(** [removeTransactionsByAccount]: counts first, deletes when the count is
    positive, returns the count.  The ids are bound one by one to an IN
    list; their number is taken to be within SQLite's bound on the
    parameters of a statement. *)
Definition removeTransactionsByAccount (accountIds : list string) : DbM nat :=
  fun d =>
    match accountIds with
    | [] => (Returned 0%nat, d)
    | _ =>
        let count :=
          length (List.filter (fun t => string_in (Transaction.account_id t) accountIds)
                    (transactions d)) in
        if (0 <? count)%nat then
          (Returned count,
           set_transactions
             (List.filter (fun t => negb (string_in (Transaction.account_id t) accountIds))
                (transactions d)) d)
        else (Returned count, d)
    end.

Definition removeSyncState (itemId : string) : DbM unit :=
  modify (fun d => set_sync_state (tbl_delete SyncState.item_id itemId (sync_state d)) d).

(** [DELETE FROM tag_rules WHERE id = ?]; the result is
    [result.changes > 0]. *)
Definition deleteTagRule (id : Z) : DbM bool :=
  fun d =>
    (Returned (existsb (fun r => Z.eqb (TagRule.id r) id) (tag_rules d)),
     set_tag_rules (List.filter (fun r => negb (Z.eqb (TagRule.id r) id)) (tag_rules d))
       (tag_rules_seq d) d).

(** [DELETE FROM budgets WHERE tag = ?]; the result is
    [result.changes > 0]. *)
Definition deleteBudget (tag : string) : DbM bool :=
  fun d =>
    (Returned (Nat.ltb 0 (tbl_count Budget.tag tag (budgets d))),
     set_budgets (tbl_delete Budget.tag tag (budgets d)) (budgets_seq d) d).

(** [setBudget] of budgets.ts, with its default threshold 0.9. *)
Definition setBudget (now : string) (tag : string) (limit : Q) (alertThreshold : option Q) : DbM unit :=
  upsertBudget now tag limit (default (9 # 10) alertThreshold).

(** [SELECT MAX(last_synced_at) FROM sync_state] *)
Definition getLastSyncTime (d : Db) : option string :=
  fold_left
    (fun best s =>
       match best with
       | None => Some (SyncState.last_synced_at s)
       | Some b =>
           if String.leb b (SyncState.last_synced_at s)
           then Some (SyncState.last_synced_at s) else Some b
       end)
    (sync_state d) None.

(** ** The unlink command (cli.ts) *)

Module UnlinkResponse.
Record t : Type := mk {
  item_id : string;
  accounts : nat;
  transactions : nat;
}.
End UnlinkResponse.

Definition account_not_found (identifier : string) : Error :=
  ConfigError ("Account not found: " ++ in_quotes identifier).

(** The action of [unlink <identifier>] on the database, from the lookup
    of the account to [removeSyncState]; the call of [removeItem] that
    follows edits the configuration file, which is no part of [Db]. *)
Definition unlink (identifier : string) : DbM UnlinkResponse.t :=
  let* account := gets (getAccountByIdOrMask identifier) in
  match account with
  | None => throw (account_not_found identifier)
  | Some account =>
      let itemId := Account.item_id account in
      let* allAccounts :=
        gets (fun d =>
                List.filter (fun a => String.eqb (Account.item_id a) itemId)
                  (getAccounts d)) in
      let accountIds := map Account.account_id allAccounts in
      let* txnCount := removeTransactionsByAccount accountIds in
      let* _ := removeAccountsByItem itemId in
      removeSyncState itemId ;>
      ret (UnlinkResponse.mk itemId (length accountIds) txnCount)
  end.

(** ** Search (search.ts) *)

Section SearchTransactions.

Variable fts5_select : string -> Z -> Db -> Error + list Transaction.t.
Variable RegExp_i : string -> Error + (string -> bool).

Definition searchTransactions (query : string) (limit : Z) (d : Db) :
    Error + list Transaction.t :=
  if String.eqb (trim query) "" then inr []
  else searchFts fts5_select query limit d.


End SearchTransactions.

(** ** Net report and snapshot (reports.ts) *)

Module MonthlyNet.
Record t : Type := mk {
  month : option string;
  income : Q;
  expenses : Q;
  net : Q;
}.
End MonthlyNet.

(** One more row in the group of its month: the sums of the two CASE
    expressions of [getMonthlyNet]. *)
Fixpoint net_add (k : option string) (amount : Q) (acc : list (option string * (Q * Q))) :
    list (option string * (Q * Q)) :=
  let negative := if Qltb amount 0 then amount else 0 in
  let positive := if Qltb 0 amount then amount else 0 in
  match acc with
  | [] => [(k, (negative, positive))]
  | (k', (n, p)) :: rest =>
      if decide (k' = k) then (k', (n + negative, p + positive)) :: rest
      else (k', (n, p)) :: net_add k amount rest
  end.

Definition net_month_asc (a b : option string * (Q * Q)) : Prop :=
  match fst a, fst b with
  | None, _ => True
  | Some _, None => False
  | Some x, Some y => string_le x y
  end.

#[local] Instance net_month_asc_dec (a b : option string * (Q * Q)) :
  Decision (net_month_asc a b).
Proof. unfold net_month_asc. destruct (fst a), (fst b); apply _. Defined.

Module AccountResponse.
Record t : Type := mk {
  account_id : string;
  name : string;
  official_name : option string;
  type : string;
  subtype : option string;
  mask : option string;
  current_balance : option Q;
  available_balance : option Q;
  iso_currency_code : option string;
}.
End AccountResponse.



Module SnapshotResponse.
Record t : Type := mk {
  accounts : list AccountResponse.t;
  total_balance : Q;
  recent_transactions : list TransactionResponse.t;
  budgets : list BudgetStatus.t;
  alerts : list BudgetStatus.t;
  burn : BurnReport.t;
  runway_months : option Q;
  synced_at : string;
}.
End SnapshotResponse.



Section Snapshot.

Variable strftime_Y_m : string -> option string.
Variable date_now_minus_months : Z -> option string.
Variable getCurrentMonth : string.
(** The value of [new Date().toISOString()] at the call. *)
Variable now_iso : string.

Definition getMonthlyNet (months : Z) (d : Db) : list (option string * (Q * Q)) :=
  match date_now_minus_months months with
  | None => []
  | Some cutoff =>
      merge_sort net_month_asc
        (map (fun g => (fst g, (Qabs (fst (snd g)), snd (snd g))))
           (fold_left
              (fun acc r =>
                 net_add (strftime_Y_m (Transaction.date r)) (Transaction.amount r) acc)
              (List.filter (fun r => String.leb cutoff (Transaction.date r))
                 (transactions d))
              []))
  end.

Definition getNetReport (months : Z) (d : Db) : list MonthlyNet.t :=
  map (fun r =>
         let income := fst (snd r) in
         let expenses := snd (snd r) in
         MonthlyNet.mk (fst r) (round_cents income) (round_cents expenses)
           (round_cents (income - expenses)))
    (getMonthlyNet months d).


End Snapshot.

(** ** The constraints of the schema *)

(** [account_id TEXT NOT NULL REFERENCES accounts(account_id)]: every
    stored transaction refers to a stored account. *)
Definition Db_refs (d : Db) : Prop :=
  Forall (fun r => account_exists (Transaction.account_id r) d = true) (transactions d).

(** The key constraints, the REFERENCES constraint, [tag TEXT NOT NULL
    UNIQUE] of budgets, and [id INTEGER PRIMARY KEY AUTOINCREMENT] of
    tag_rules: the ids differ and none exceeds the sequence. *)
Definition Db_schema (d : Db) : Prop :=
  Db_wf d
  /\ Db_refs d
  /\ tbl_unique Budget.tag (budgets d)
  /\ NoDup (map TagRule.id (tag_rules d))
  /\ Forall (fun r => (TagRule.id r <= tag_rules_seq d)%Z) (tag_rules d).

(** The writing functions that db.ts exports. *)
Inductive StoreCall : Type :=
  | call_upsertAccounts (now : string) (accs : list AccountInput.t)
  | call_upsertTransactions (txns : list TransactionInput.t)
  | call_removeTransactions (transactionIds : list string)
  | call_removeTransactionsByAccount (accountIds : list string)
  | call_removeAccountsByItem (itemId : string)
  | call_updateTransactionTag (transactionId : string) (tag : option string)
  | call_setSyncState (now itemId cursor : string)
  | call_removeSyncState (itemId : string)
  | call_insertTagRule (now pattern tag : string) (priority : Z)
  | call_deleteTagRule (id : Z)
  | call_upsertBudget (now tag : string) (monthlyLimit alertThreshold : Q)
  | call_deleteBudget (tag : string).

(** The database a call leaves behind, whether it returns or throws. *)
Definition run_call (c : StoreCall) (d : Db) : Db :=
  match c with
  | call_upsertAccounts now accs => snd (upsertAccounts now accs d)
  | call_upsertTransactions txns => snd (upsertTransactions txns d)
  | call_removeTransactions ids => snd (removeTransactions ids d)
  | call_removeTransactionsByAccount ids => snd (removeTransactionsByAccount ids d)
  | call_removeAccountsByItem itemId => snd (removeAccountsByItem itemId d)
  | call_updateTransactionTag id tag => snd (updateTransactionTag id tag d)
  | call_setSyncState now itemId cursor => snd (setSyncState now itemId cursor d)
  | call_removeSyncState itemId => snd (removeSyncState itemId d)
  | call_insertTagRule now pattern tag priority =>
      snd (insertTagRule now pattern tag priority d)
  | call_deleteTagRule id => snd (deleteTagRule id d)
  | call_upsertBudget now tag monthlyLimit alertThreshold =>
      snd (upsertBudget now tag monthlyLimit alertThreshold d)
  | call_deleteBudget tag => snd (deleteBudget tag d)
  end.

Definition run_calls (cs : list StoreCall) (d : Db) : Db :=
  fold_left (fun d c => run_call c d) cs d.

(** ** More sample values *)

(** A transaction of an account that no ledger here holds. *)
Definition txn_orphan : TransactionInput.t :=
  TransactionInput.mk "txn_7" "acc_9" 20 (Some "USD") "2024-06-10" "Book Store"
    None 0 None None None None None.


(** The ledger [ledger_rules] with a second rule, coffee -> drinks, of a
    lower priority than a third, shop -> shopping. *)
Definition ledger_three_rules : Db :=
  snd (addTagRule literal_RegExp_i sample_now "shop" "shopping" 5
         (snd (addTagRule literal_RegExp_i sample_now "coffee" "drinks" 0 ledger_rules))).

(** [new RegExp(pattern, 'i')] on the patterns of the samples: an opening
    parenthesis alone does not compile, the others are literal text. *)
Definition unterminated_group : Error :=
  JsError "Invalid regular expression: /(/i: Unterminated group".

Definition sample_RegExp_i (pattern : string) : Error + (string -> bool) :=
  if String.eqb pattern "(" then inl unterminated_group else literal_RegExp_i pattern.

(** The ledger of [ledger_budget] with the limit 40: 50 spent on food in
    June 2024 is over the budget. *)
Definition ledger_over_budget : Db :=
  snd (upsertBudget sample_now "food" 40 (9 # 10)
         (snd (upsertTransactions [txn_food] ledger_1))).

Definition status_over_budget : BudgetStatus.t :=
  budget_status
    (new_Map (getSpendingByTagForMonth sample_strftime_Y_m "2024-06" ledger_over_budget))
    (Budget.mk 1 "food" 40 (9 # 10) sample_now).

(** Every character of the string is white space. *)
Fixpoint all_white_space (s : string) : bool :=
  match s with
  | EmptyString => true
  | String c rest => is_white_space c && all_white_space rest
  end.

(** A full-text engine that finds nothing. *)
Definition fts5_nothing (query : string) (limit : Z) (d : Db) : Error + list Transaction.t :=
  inr [].

(** ** Months *)



(** The amount when it is negative, and when it is positive. *)
Definition negative_part (amount : Q) : Q := if Qltb amount 0 then amount else 0.
Definition positive_part (amount : Q) : Q := if Qltb 0 amount then amount else 0.

(** The groups of [getMonthlyNet] before ABS and ORDER BY: per month, the
    sum of the negative and the sum of the positive amounts. *)
Definition net_groups (strftime_Y_m : string -> option string)
    (rows : list Transaction.t) : list (option string * (Q * Q)) :=
  fold_left
    (fun acc r => net_add (strftime_Y_m (Transaction.date r)) (Transaction.amount r) acc)
    rows [].


(** ** Runs of the item loop *)

(** A run of the loop of [syncAll] in which the pass of every item
    returns: the results of the passes, in order, and the database after
    the last. *)
Inductive items_run (getPlaidClient : Error + PlaidApi) (now : string) (fuel : nat) :
    list (string * string) -> Db -> list SyncResponse.t -> Db -> Prop :=
  | items_done (d : Db) : items_run getPlaidClient now fuel [] d [] d
  | items_next (accessToken itemId : string) (items : list (string * string))
      (d d1 d' : Db) (r : SyncResponse.t) (rs : list SyncResponse.t) :
      syncItem getPlaidClient now fuel accessToken itemId d = (Returned r, d1) ->
      items_run getPlaidClient now fuel items d1 rs d' ->
      items_run getPlaidClient now fuel ((accessToken, itemId) :: items) d (r :: rs) d'.

(** The running totals of [syncAll] after one more result. *)
Definition add_result (total result : SyncResponse.t) : SyncResponse.t :=
  SyncResponse.mk
    (SyncResponse.added total + SyncResponse.added result)
    (SyncResponse.modified total + SyncResponse.modified result)
    (SyncResponse.removed total + SyncResponse.removed result)
    (SyncResponse.cursor result) false.

(** ** Spending by tag (db.ts, tags.ts) *)

Module TagSummary.
Record t : Type := mk {
  tag : string;
  count : nat;
  total : Q;
}.
End TagSummary.



(** [ORDER BY total DESC] *)
Definition total_desc (a b : string * (nat * Q)) : Prop :=
  snd (snd b) <= snd (snd a).

#[local] Instance total_desc_dec (a b : string * (nat * Q)) : Decision (total_desc a b).
Proof.
  unfold total_desc.
  destruct (Qlt_le_dec (snd (snd a)) (snd (snd b))) as [L|L].
  - right. intros H. apply (Qlt_not_le _ _ L H).
  - left. exact L.
Defined.





(** * Properties *)

(** ** Facts about tables *)

Section TableFacts.
Context {R : Type} (key : R -> string).

Lemma tbl_find_key (k : string) (rows : list R) (r : R) :
  tbl_find key k rows = Some r -> key r = k /\ In r rows.
Proof.
  induction rows as [|x rows IH]; simpl; [discriminate|].
  destruct (String.eqb_spec (key x) k) as [E|E]; intros H.
  - inversion H; subst. auto.
  - destruct (IH H) as [? ?]. auto.
Qed.

Lemma tbl_find_None (k : string) (rows : list R) :
  tbl_find key k rows = None <-> ~ In k (map key rows).
Proof.
  induction rows as [|x rows IH]; simpl; [tauto|].
  destruct (String.eqb_spec (key x) k) as [E|E].
  - split; [discriminate|]. intros H. exfalso. auto.
  - rewrite IH. tauto.
Qed.

Section Upsert.
Context (k : string) (ins : R) (upd : R -> R).
Hypothesis ins_key : key ins = k.
Hypothesis upd_key : forall r, key (upd r) = key r.

Lemma tbl_upsert_keys (rows : list R) :
  map key (tbl_upsert key k ins upd rows) =
  match tbl_find key k rows with
  | Some _ => map key rows
  | None => map key rows ++ [k]
  end.
Proof using ins_key upd_key.
  induction rows as [|x rows IH]; simpl.
  - now rewrite ins_key.
  - destruct (String.eqb_spec (key x) k) as [E|E]; simpl.
    + now rewrite upd_key.
    + rewrite IH. now destruct (tbl_find key k rows).
Qed.

Lemma tbl_upsert_length (rows : list R) :
  length (tbl_upsert key k ins upd rows) =
  match tbl_find key k rows with
  | Some _ => length rows
  | None => S (length rows)
  end.
Proof using ins_key upd_key.
  rewrite <- (length_map key), tbl_upsert_keys.
  destruct (tbl_find key k rows).
  - now rewrite length_map.
  - rewrite length_app, length_map. simpl. lia.
Qed.

Lemma tbl_find_upsert_eq (rows : list R) :
  tbl_find key k (tbl_upsert key k ins upd rows) =
  Some (match tbl_find key k rows with
        | Some old => upd old
        | None => ins
        end).
Proof using ins_key upd_key.
  induction rows as [|x rows IH]; simpl.
  - rewrite ins_key, String.eqb_refl. reflexivity.
  - destruct (String.eqb_spec (key x) k) as [E|E]; simpl.
    + now rewrite upd_key, E, String.eqb_refl.
    + apply String.eqb_neq in E. now rewrite E.
Qed.

Lemma tbl_find_upsert_ne (k' : string) (rows : list R) :
  k' <> k ->
  tbl_find key k' (tbl_upsert key k ins upd rows) = tbl_find key k' rows.
Proof using ins_key upd_key.
  intros N. induction rows as [|x rows IH]; simpl.
  - rewrite ins_key. destruct (String.eqb_spec k k'); congruence.
  - destruct (String.eqb_spec (key x) k) as [E|E]; simpl.
    + rewrite upd_key. destruct (String.eqb_spec (key x) k'); congruence.
    + now rewrite IH.
Qed.

Lemma tbl_unique_upsert (rows : list R) :
  tbl_unique key rows -> tbl_unique key (tbl_upsert key k ins upd rows).
Proof using ins_key upd_key.
  unfold tbl_unique. intros U. rewrite tbl_upsert_keys.
  destruct (tbl_find key k rows) eqn:E; [assumption|].
  apply tbl_find_None in E.
  apply NoDup_app. repeat split; auto.
  - intros x Hx Hk. apply list_elem_of_In in Hx.
    apply list_elem_of_In in Hk. simpl in Hk. destruct Hk as [<-|[]]. auto.
  - apply NoDup_singleton.
Qed.

End Upsert.

Lemma tbl_count_notin (k : string) (rows : list R) :
  ~ In k (map key rows) -> tbl_count key k rows = 0%nat.
Proof.
  unfold tbl_count. induction rows as [|x rows IH]; simpl; [reflexivity|].
  intros N. destruct (String.eqb_spec (key x) k) as [E|E]; [tauto|].
  apply IH. tauto.
Qed.

(** Under the key constraint a key that is found is held by one row. *)
Lemma tbl_count_unique (k : string) (rows : list R) :
  tbl_unique key rows ->
  tbl_count key k rows =
  match tbl_find key k rows with Some _ => 1%nat | None => 0%nat end.
Proof.
  unfold tbl_unique. induction rows as [|x rows IH]; simpl; [reflexivity|].
  intros U. apply NoDup_cons in U as [N U].
  unfold tbl_count in *. simpl.
  destruct (String.eqb_spec (key x) k) as [E|E]; simpl.
  - subst k. f_equal. apply tbl_count_notin.
    intros H. apply N. now apply list_elem_of_In.
  - auto.
Qed.

Lemma tbl_find_delete (k k' : string) (rows : list R) :
  tbl_find key k' (tbl_delete key k rows) =
  if String.eqb k' k then None else tbl_find key k' rows.
Proof.
  induction rows as [|x rows IH]; simpl.
  - now destruct (String.eqb k' k).
  - destruct (String.eqb_spec (key x) k) as [E|E]; simpl.
    + rewrite IH. destruct (String.eqb_spec k' k) as [E'|E']; [reflexivity|].
      destruct (String.eqb_spec (key x) k'); congruence.
    + destruct (String.eqb_spec (key x) k') as [E'|E'].
      * subst k'. apply String.eqb_neq in E. now rewrite E.
      * apply IH.
Qed.

Lemma tbl_unique_filter (P : R -> bool) (rows : list R) :
  tbl_unique key rows -> tbl_unique key (List.filter P rows).
Proof.
  unfold tbl_unique.
  induction rows as [|x rows IH]; simpl; [auto|].
  intros U. apply NoDup_cons in U as [N U].
  destruct (P x); simpl; auto.
  apply NoDup_cons. split; auto.
  intros H. apply N. apply list_elem_of_In in H. apply list_elem_of_In.
  apply in_map_iff in H as (r & Hr & Hin). apply in_map_iff.
  exists r. split; auto. apply filter_In in Hin. tauto.
Qed.

Lemma tbl_find_map (f : R -> R) (k : string) (rows : list R) :
  (forall r, key (f r) = key r) ->
  tbl_find key k (map f rows) = option_map f (tbl_find key k rows).
Proof.
  intros K. induction rows as [|x rows IH]; simpl; [reflexivity|].
  rewrite K. now destruct (String.eqb (key x) k).
Qed.

Lemma tbl_unique_delete (k : string) (rows : list R) :
  tbl_unique key rows -> tbl_unique key (tbl_delete key k rows).
Proof. apply tbl_unique_filter. Qed.

End TableFacts.

(** ** What the store operations compute *)

Lemma set_accounts_id (d : Db) : set_accounts (accounts d) d = d.
Proof. now destruct d. Qed.

Lemma set_transactions_id (d : Db) : set_transactions (transactions d) d = d.
Proof. now destruct d. Qed.

Lemma for_of_upsert_accounts (now : string) (accs : list AccountInput.t) (d : Db) :
  for_of accs (upsert_account_stmt now) d =
  (Returned tt, set_accounts (upsert_account_rows now accs (accounts d)) d).
Proof.
  revert d. induction accs as [|a accs IH]; intros d; simpl.
  - unfold ret. now rewrite set_accounts_id.
  - unfold bind, upsert_account_stmt, modify. rewrite IH. reflexivity.
Qed.

Lemma upsertAccounts_eq (now : string) (accs : list AccountInput.t) (d : Db) :
  upsertAccounts now accs d =
  (Returned tt, set_accounts (upsert_account_rows now accs (accounts d)) d).
Proof.
  unfold upsertAccounts, db_transaction. now rewrite for_of_upsert_accounts.
Qed.

Lemma for_of_upsert_transactions (txns : list TransactionInput.t) (d : Db) :
  if accounts_exist txns d
  then for_of txns upsert_transaction_stmt d =
       (Returned tt,
        set_transactions (upsert_transaction_rows txns (transactions d)) d)
  else fst (for_of txns upsert_transaction_stmt d) = Thrown foreign_key_failed.
Proof.
  revert d. induction txns as [|t txns IH]; intros d; simpl.
  - unfold ret. now rewrite set_transactions_id.
  - unfold bind, upsert_transaction_stmt at 1 3.
    destruct (account_exists (TransactionInput.account_id t) d) eqn:E; simpl;
      [|reflexivity].
    match goal with
    | |- context [for_of txns _ ?d1] => specialize (IH d1)
    end.
    unfold accounts_exist, account_exists in *. simpl in IH.
    destruct (forallb _ txns).
    + now rewrite IH.
    + destruct (for_of txns _ _) as [[| |] ?]; simpl in *; congruence.
Qed.

Lemma upsertTransactions_eq (txns : list TransactionInput.t) (d : Db) :
  upsertTransactions txns d =
  if accounts_exist txns d
  then (Returned tt,
        set_transactions (upsert_transaction_rows txns (transactions d)) d)
  else (Thrown foreign_key_failed, d).
Proof.
  unfold upsertTransactions, db_transaction.
  pose proof (for_of_upsert_transactions txns d) as H.
  destruct (accounts_exist txns d).
  - now rewrite H.
  - destruct (for_of txns _ d) as [[| |] ?]; simpl in *; congruence.
Qed.

Lemma for_of_delete_transactions (ids : list string) (d : Db) :
  for_of ids delete_transaction_stmt d =
  (Returned tt, set_transactions (delete_transaction_rows ids (transactions d)) d).
Proof.
  revert d. induction ids as [|i ids IH]; intros d; simpl.
  - unfold ret. now rewrite set_transactions_id.
  - unfold bind, delete_transaction_stmt, modify. rewrite IH. reflexivity.
Qed.

Lemma removeTransactions_eq (ids : list string) (d : Db) :
  removeTransactions ids d =
  (Returned tt, set_transactions (delete_transaction_rows ids (transactions d)) d).
Proof.
  destruct ids as [|i ids].
  - simpl. unfold ret. now rewrite set_transactions_id.
  - unfold removeTransactions, db_transaction.
    now rewrite for_of_delete_transactions.
Qed.

Lemma upsert_transaction_rows_unique (txns : list TransactionInput.t)
    (rows : list Transaction.t) :
  tbl_unique Transaction.transaction_id rows ->
  tbl_unique Transaction.transaction_id (upsert_transaction_rows txns rows).
Proof.
  revert rows. induction txns as [|t txns IH]; intros rows U; simpl; [assumption|].
  apply IH. now apply tbl_unique_upsert.
Qed.

Lemma upsert_account_rows_unique (now : string) (accs : list AccountInput.t)
    (rows : list Account.t) :
  tbl_unique Account.account_id rows ->
  tbl_unique Account.account_id (upsert_account_rows now accs rows).
Proof.
  revert rows. induction accs as [|a accs IH]; intros rows U; simpl; [assumption|].
  apply IH. now apply tbl_unique_upsert.
Qed.

(** ** Derived properties of a transaction row *)

(** C7, as stated, fails: a row whose [merchant_name] is the empty string
    has a non-null [merchant_name], and its [displayName] is its [name]
    and not its [merchant_name]. *)
Lemma displayName_empty_merchant_name :
  Transaction.merchant_name tx_empty_merchant = Some ""
  /\ Transaction.displayName tx_empty_merchant = "Direct Deposit"
  /\ ~ (forall t m, Transaction.merchant_name t = Some m -> Transaction.displayName t = m).
Proof.
  split; [reflexivity|]. split; [reflexivity|].
  intros H. specialize (H tx_empty_merchant "" eq_refl). discriminate H.
Qed.

(** C7, amended: [displayName] is [merchant_name] when that is neither
    null nor the empty string, and [name] otherwise. *)
Theorem displayName_fallback (t : Transaction.t) :
  (forall m, Transaction.merchant_name t = Some m -> m <> "" ->
             Transaction.displayName t = m)
  /\ (Transaction.merchant_name t = None \/ Transaction.merchant_name t = Some "" ->
      Transaction.displayName t = Transaction.name t).
Proof.
  unfold Transaction.displayName, or_else. split.
  - intros m -> N. apply String.eqb_neq in N. now rewrite N.
  - intros [-> | ->]; reflexivity.
Qed.

(** ** Upserts *)

Lemma transaction_inserted_key (t : TransactionInput.t) :
  Transaction.transaction_id (transaction_inserted t) = TransactionInput.transaction_id t.
Proof. reflexivity. Qed.

Lemma transaction_updated_key (t : TransactionInput.t) (r : Transaction.t) :
  Transaction.transaction_id (transaction_updated t r) = Transaction.transaction_id r.
Proof. reflexivity. Qed.

Lemma account_inserted_key (now : string) (a : AccountInput.t) :
  Account.account_id (account_inserted now a) = AccountInput.account_id a.
Proof. reflexivity. Qed.

Lemma account_updated_key (now : string) (a : AccountInput.t) (r : Account.t) :
  Account.account_id (account_updated now a r) = Account.account_id r.
Proof. reflexivity. Qed.

Create HintDb upsert.
#[local] Hint Resolve transaction_inserted_key transaction_updated_key
  account_inserted_key account_updated_key : upsert.

(** A stored row keeps its tag through a batch of transaction upserts. *)
Lemma upsert_transaction_rows_tag (txns : list TransactionInput.t)
    (rows : list Transaction.t) (id : string) (old : Transaction.t) :
  tbl_find Transaction.transaction_id id rows = Some old ->
  exists r, tbl_find Transaction.transaction_id id (upsert_transaction_rows txns rows) = Some r
            /\ Transaction.tag r = Transaction.tag old.
Proof.
  revert rows old. induction txns as [|t txns IH]; intros rows old F; simpl.
  - eauto.
  - destruct (String.eqb_spec id (TransactionInput.transaction_id t)) as [E|E].
    + subst id.
      destruct (IH (tbl_upsert Transaction.transaction_id
                      (TransactionInput.transaction_id t) (transaction_inserted t)
                      (transaction_updated t) rows)
                   (transaction_updated t old)) as (r & Fr & Tr).
      { rewrite tbl_find_upsert_eq by auto with upsert. rewrite F. reflexivity. }
      exists r. split; [exact Fr|]. rewrite Tr. reflexivity.
    + apply IH. rewrite tbl_find_upsert_ne by auto with upsert. exact F.
Qed.

(** A row found after a batch of upserts was there before with the same
    tag, or was created by the batch without a tag. *)
Lemma upsert_transaction_rows_tag_inv (txns : list TransactionInput.t)
    (rows : list Transaction.t) (id : string) (r : Transaction.t) :
  tbl_find Transaction.transaction_id id (upsert_transaction_rows txns rows) = Some r ->
  match tbl_find Transaction.transaction_id id rows with
  | Some old => Transaction.tag r = Transaction.tag old
  | None => Transaction.tag r = None
  end.
Proof.
  revert rows. induction txns as [|t txns IH]; intros rows F; simpl in F.
  - now rewrite F.
  - apply IH in F.
    destruct (String.eqb_spec id (TransactionInput.transaction_id t)) as [E|E].
    + subst id. rewrite tbl_find_upsert_eq in F by auto with upsert.
      destruct (tbl_find _ _ rows); exact F.
    + rewrite tbl_find_upsert_ne in F by auto with upsert. exact F.
Qed.

Lemma upsert_transaction_rows_present (txns : list TransactionInput.t)
    (rows : list Transaction.t) (t : TransactionInput.t) :
  In t txns ->
  exists r, tbl_find Transaction.transaction_id (TransactionInput.transaction_id t)
              (upsert_transaction_rows txns rows) = Some r.
Proof.
  revert rows. induction txns as [|x txns IH]; intros rows I; simpl; [destruct I|].
  destruct I as [E|I].
  - subst x.
    edestruct (upsert_transaction_rows_tag txns) as (r & Fr & _); [|eauto].
    apply tbl_find_upsert_eq; auto with upsert.
  - now apply IH.
Qed.

Lemma upsert_account_rows_kept (now : string) (accs : list AccountInput.t)
    (rows : list Account.t) (id : string) (old : Account.t) :
  tbl_find Account.account_id id rows = Some old ->
  exists r, tbl_find Account.account_id id (upsert_account_rows now accs rows) = Some r
            /\ Account.item_id r = Account.item_id old.
Proof.
  revert rows old. induction accs as [|a accs IH]; intros rows old F; simpl.
  - eauto.
  - destruct (String.eqb_spec id (AccountInput.account_id a)) as [E|E].
    + subst id.
      destruct (IH (tbl_upsert Account.account_id (AccountInput.account_id a)
                      (account_inserted now a) (account_updated now a) rows)
                   (account_updated now a old)) as (r & Fr & Tr).
      { rewrite tbl_find_upsert_eq by auto with upsert. rewrite F. reflexivity. }
      exists r. split; [exact Fr|]. rewrite Tr. reflexivity.
    + apply IH. rewrite tbl_find_upsert_ne by auto with upsert. exact F.
Qed.

Lemma upsert_account_rows_present (now : string) (accs : list AccountInput.t)
    (rows : list Account.t) (a : AccountInput.t) :
  In a accs ->
  exists r, tbl_find Account.account_id (AccountInput.account_id a)
              (upsert_account_rows now accs rows) = Some r.
Proof.
  revert rows. induction accs as [|x accs IH]; intros rows I; simpl; [destruct I|].
  destruct I as [E|I].
  - subst x.
    edestruct (upsert_account_rows_kept now accs) as (r & Fr & _); [|eauto].
    apply tbl_find_upsert_eq; auto with upsert.
  - now apply IH.
Qed.

Lemma upsertTransactions_returned (txns : list TransactionInput.t) (d d' : Db) :
  upsertTransactions txns d = (Returned tt, d') ->
  d' = set_transactions (upsert_transaction_rows txns (transactions d)) d.
Proof.
  rewrite upsertTransactions_eq. destruct (accounts_exist txns d); congruence.
Qed.

(** C4, as stated, fails on accounts: after two upserts of the key acc_1
    that differ in [item_id], the one row of the key holds the [item_id] of
    the first upsert, not the one supplied by the second. *)
Lemma upsertAccounts_keeps_first_item_id :
  let d1 := snd (upsertAccounts "2024-06-15 10:00:00" [acc_1 "item_1" 1000] empty_db) in
  let d2 := snd (upsertAccounts "2024-06-16 10:00:00" [acc_1 "item_2" 2000] d1) in
  map account_columns (accounts d2) = [acc_1 "item_1" 2000]
  /\ acc_1 "item_1" 2000 <> acc_1 "item_2" 2000.
Proof. split; [reflexivity|discriminate]. Qed.

(** C4, amended: after a key was upserted (in any batch), upserting it
    again leaves exactly one row for the key and does not change the row
    count.  For a transaction the row holds the values of the second
    upsert in every column the upsert is given; for an account it holds
    them in every such column but [item_id], which keeps its stored value,
    and [updated_at] is the time of the second upsert. *)
Theorem upsert_twice_one_row (d : Db) :
  Db_wf d ->
  (forall (batch : list TransactionInput.t) (t1 t2 : TransactionInput.t) (d1 d2 : Db),
      In t1 batch ->
      TransactionInput.transaction_id t1 = TransactionInput.transaction_id t2 ->
      upsertTransactions batch d = (Returned tt, d1) ->
      upsertTransactions [t2] d1 = (Returned tt, d2) ->
      tbl_count Transaction.transaction_id (TransactionInput.transaction_id t2)
        (transactions d2) = 1%nat
      /\ (exists r, tbl_find Transaction.transaction_id (TransactionInput.transaction_id t2)
                      (transactions d2) = Some r
                    /\ transaction_columns r = t2)
      /\ length (transactions d2) = length (transactions d1))
  /\ (forall (now1 now2 : string) (batch : list AccountInput.t) (a1 a2 : AccountInput.t)
        (d1 d2 : Db),
      In a1 batch ->
      AccountInput.account_id a1 = AccountInput.account_id a2 ->
      upsertAccounts now1 batch d = (Returned tt, d1) ->
      upsertAccounts now2 [a2] d1 = (Returned tt, d2) ->
      tbl_count Account.account_id (AccountInput.account_id a2) (accounts d2) = 1%nat
      /\ (exists old r,
             tbl_find Account.account_id (AccountInput.account_id a2) (accounts d1) = Some old
             /\ tbl_find Account.account_id (AccountInput.account_id a2) (accounts d2) = Some r
             /\ account_columns r = with_item_id (Account.item_id old) a2
             /\ Account.updated_at r = now2)
      /\ length (accounts d2) = length (accounts d1)).
Proof.
  intros (UA & UT & _). split.
  - intros batch t1 t2 d1 d2 I K H1 H2.
    apply upsertTransactions_returned in H1, H2. subst d1 d2. simpl.
    set (rows1 := upsert_transaction_rows batch (transactions d)).
    assert (U1 : tbl_unique Transaction.transaction_id rows1)
      by now apply upsert_transaction_rows_unique.
    destruct (upsert_transaction_rows_present batch (transactions d) t1 I) as (old & F).
    fold rows1 in F. rewrite K in F.
    repeat split.
    + rewrite tbl_count_unique by (apply tbl_unique_upsert; auto with upsert).
      now rewrite tbl_find_upsert_eq by auto with upsert.
    + eexists. split.
      * rewrite tbl_find_upsert_eq by auto with upsert. rewrite F. reflexivity.
      * pose proof (tbl_find_key _ _ _ _ F) as [Hk _].
        destruct t2. simpl in *. unfold transaction_columns. simpl. now rewrite Hk.
    + rewrite tbl_upsert_length by auto with upsert. now rewrite F.
  - intros now1 now2 batch a1 a2 d1 d2 I K H1 H2.
    rewrite upsertAccounts_eq in H1, H2.
    injection H1 as <-. injection H2 as <-. simpl.
    set (rows1 := upsert_account_rows now1 batch (accounts d)).
    assert (U1 : tbl_unique Account.account_id rows1)
      by now apply upsert_account_rows_unique.
    destruct (upsert_account_rows_present now1 batch (accounts d) a1 I) as (old & F).
    fold rows1 in F. rewrite K in F.
    repeat split.
    + rewrite tbl_count_unique by (apply tbl_unique_upsert; auto with upsert).
      now rewrite tbl_find_upsert_eq by auto with upsert.
    + exists old. eexists. split; [exact F|]. split.
      * rewrite tbl_find_upsert_eq by auto with upsert. rewrite F. reflexivity.
      * split; [|reflexivity].
        pose proof (tbl_find_key _ _ _ _ F) as [Hk _].
        destruct a2. simpl in *. unfold account_columns, with_item_id. simpl.
        now rewrite Hk.
    + rewrite tbl_upsert_length by auto with upsert. now rewrite F.
Qed.

(** ** Reconciliation *)

Section SyncFacts.
Variable now : string.

Lemma guarded_upsertTransactions (txns : list PlaidTransaction.t) (d : Db) :
  (match txns with
   | [] => ret tt
   | x :: l => upsertTransactions (map mapPlaidTransaction (x :: l))
   end) d = upsertTransactions (map mapPlaidTransaction txns) d.
Proof.
  destruct txns; [|reflexivity].
  rewrite upsertTransactions_eq. simpl. unfold ret. now rewrite set_transactions_id.
Qed.

Lemma guarded_removeTransactions (ids : list string) (d : Db) :
  (match ids with
   | [] => ret tt
   | x :: l => removeTransactions (x :: l)
   end) d = removeTransactions ids d.
Proof. now destruct ids. Qed.

(** One round of the page loop. *)
Lemma sync_pages_step (fuel : nat) (plaid : PlaidApi) (accessToken itemId : string)
    (acc : Pass) (d : Db) :
  sync_pages now (S fuel) plaid accessToken itemId acc d =
  match plaid accessToken (request_cursor (cursor acc)) with
  | inl e => (Thrown e, d)
  | inr data =>
      let d1 :=
        set_accounts
          (upsert_account_rows now
             (map (mapPlaidAccount itemId) (TransactionsSyncResponse.accounts data))
             (accounts d)) d in
      if TransactionsSyncResponse.has_more data
      then sync_pages now fuel plaid accessToken itemId (add_page acc data) d1
      else (Returned (add_page acc data), d1)
  end.
Proof.
  cbn [sync_pages]. unfold bind, lift.
  destruct (plaid accessToken (request_cursor (cursor acc))) as [e|data];
    [reflexivity|].
  unfold ret at 1.
  destruct (TransactionsSyncResponse.accounts data) as [|a l] eqn:EA.
  - unfold ret at 1. cbn [map upsert_account_rows fold_left].
    rewrite set_accounts_id.
    now destruct (TransactionsSyncResponse.has_more data).
  - rewrite upsertAccounts_eq.
    now destruct (TransactionsSyncResponse.has_more data).
Qed.

(** The page loop writes accounts only. *)
Lemma sync_pages_frame (fuel : nat) (plaid : PlaidApi) (accessToken itemId : string)
    (acc : Pass) (d d' : Db) (o : outcome Pass) :
  sync_pages now fuel plaid accessToken itemId acc d = (o, d') ->
  transactions d' = transactions d /\ sync_state d' = sync_state d.
Proof.
  revert acc d. induction fuel as [|fuel IH]; intros acc d H.
  - simpl in H. injection H as _ <-. auto.
  - rewrite sync_pages_step in H.
    destruct (plaid accessToken (request_cursor (cursor acc))) as [e|data].
    + injection H as _ <-. auto.
    + simpl in H. destruct (TransactionsSyncResponse.has_more data).
      * apply IH in H. simpl in H. exact H.
      * injection H as _ <-. auto.
Qed.

Lemma fold_add_page_cursor (pages : list TransactionsSyncResponse.t)
    (last : TransactionsSyncResponse.t) (acc : Pass) :
  cursor (fold_left add_page (pages ++ [last]) acc)
  = TransactionsSyncResponse.next_cursor last.
Proof. rewrite fold_left_app. reflexivity. Qed.


(** What the loop returns or throws comes from a run of the feed. *)
Lemma sync_pages_inv (fuel : nat) (plaid : PlaidApi) (accessToken itemId : string)
    (acc : Pass) (d d' : Db) (o : outcome Pass) :
  sync_pages now fuel plaid accessToken itemId acc d = (o, d') ->
  match o with
  | Returned p =>
      exists pages last,
        page_run plaid accessToken (cursor acc) pages (inr last)
        /\ p = fold_left add_page (pages ++ [last]) acc
  | Thrown e => exists pages, page_run plaid accessToken (cursor acc) pages (inl e)
  | Unfinished => True
  end.
Proof.
  revert acc d. induction fuel as [|fuel IH]; intros acc d H.
  - simpl in H. injection H as <- _. exact I.
  - rewrite sync_pages_step in H.
    destruct (plaid accessToken (request_cursor (cursor acc))) as [e|data] eqn:P.
    + injection H as <- _. exists []. now constructor.
    + simpl in H. destruct (TransactionsSyncResponse.has_more data) eqn:M.
      * apply IH in H. destruct o as [p|e|]; [| |exact I].
        -- destruct H as (pages & last & R & ->).
           exists (data :: pages), last. split; [|reflexivity].
           eapply run_more; eauto.
        -- destruct H as (pages & R). exists (data :: pages).
           eapply run_more; eauto.
      * injection H as <- _. exists [], data. split; [|reflexivity].
        now constructor.
Qed.

(** The final write of a pass is all or nothing. *)
Lemma commit_pass_eq (itemId : string) (p : Pass) (d : Db) :
  db_transaction (commit_pass now itemId p) d =
  if accounts_exist (map mapPlaidTransaction (allAdded p)) d
     && accounts_exist (map mapPlaidTransaction (allModified p)) d
  then (Returned tt,
        set_sync_state (cursor_rows now itemId (cursor p) (sync_state d))
          (set_transactions (commit_rows p (transactions d)) d))
  else (Thrown foreign_key_failed, d).
Proof.
  unfold db_transaction, commit_pass, bind.
  rewrite guarded_upsertTransactions, upsertTransactions_eq.
  destruct (accounts_exist (map mapPlaidTransaction (allAdded p)) d) eqn:EA; simpl;
    [|reflexivity].
  rewrite guarded_upsertTransactions, upsertTransactions_eq.
  change (accounts_exist (map mapPlaidTransaction (allModified p))
            (set_transactions
               (upsert_transaction_rows (map mapPlaidTransaction (allAdded p))
                  (transactions d)) d))
    with (accounts_exist (map mapPlaidTransaction (allModified p)) d).
  destruct (accounts_exist (map mapPlaidTransaction (allModified p)) d) eqn:EM; simpl;
    [|reflexivity].
  rewrite guarded_removeTransactions, removeTransactions_eq.
  reflexivity.
Qed.

Lemma syncItem_eq (plaid : PlaidApi) (fuel : nat) (accessToken itemId : string) (d : Db) :
  syncItem (inr plaid) now fuel accessToken itemId d =
  match sync_pages now fuel plaid accessToken itemId
          (mkPass [] [] [] (start_cursor itemId d)) d with
  | (Returned p, d1) =>
      if accounts_exist (map mapPlaidTransaction (allAdded p)) d1
         && accounts_exist (map mapPlaidTransaction (allModified p)) d1
      then (Returned (sync_response p),
            set_sync_state (cursor_rows now itemId (cursor p) (sync_state d1))
              (set_transactions (commit_rows p (transactions d1)) d1))
      else (Thrown foreign_key_failed, d1)
  | (Thrown e, d1) => (Thrown (sync_failed itemId e), d1)
  | (Unfinished, d1) => (Unfinished, d1)
  end.
Proof.
  unfold syncItem, bind, lift, gets, try_catch, ret, throw. simpl.
  destruct (sync_pages now fuel plaid accessToken itemId _ d) as [[p|e|] d1];
    try reflexivity.
  rewrite commit_pass_eq.
  now destruct (accounts_exist _ d1 && accounts_exist _ d1).
Qed.



End SyncFacts.

(** The two ways a call of [syncItem] can end: with the final write of
    the whole accumulated batch, or without any write to the transactions
    and the stored cursors. *)
Lemma syncItem_outcome (getPlaidClient : Error + PlaidApi) (now : string)
    (fuel : nat) (accessToken itemId : string) (d d' : Db)
    (out : outcome SyncResponse.t) :
  syncItem getPlaidClient now fuel accessToken itemId d = (out, d') ->
  match out with
  | Returned r =>
      exists plaid pages last,
        getPlaidClient = inr plaid
        /\ page_run plaid accessToken (start_cursor itemId d) pages (inr last)
        /\ let p := accumulate (start_cursor itemId d) (pages ++ [last]) in
           r = sync_response p
           /\ transactions d' = commit_rows p (transactions d)
           /\ sync_state d' =
              cursor_rows now itemId (TransactionsSyncResponse.next_cursor last)
                (sync_state d)
  | _ => transactions d' = transactions d /\ sync_state d' = sync_state d
  end.
Proof.
  intros H. destruct getPlaidClient as [e0|plaid].
  { unfold syncItem, bind, lift, throw in H. injection H as <- <-. auto. }
  rewrite syncItem_eq in H.
  destruct (sync_pages _ _ _ _ _ _ d) as [[p|e|] d1] eqn:L;
    pose proof (sync_pages_frame _ _ _ _ _ _ _ _ _ L) as [FT FS].
  - pose proof (sync_pages_inv _ _ _ _ _ _ _ _ _ L) as (pages & last & R & P).
    simpl in R. fold (accumulate (start_cursor itemId d) (pages ++ [last])) in P.
    destruct (accounts_exist _ d1 && accounts_exist _ d1).
    + injection H as <- <-. exists plaid, pages, last. simpl.
      assert (C : cursor p = TransactionsSyncResponse.next_cursor last).
      { rewrite P. apply fold_add_page_cursor. }
      rewrite FT, FS, C, <- P. auto.
    + injection H as <- <-. auto.
  - injection H as <- <-. auto.
  - injection H as <- <-. auto.
Qed.


Lemma sync_items_app (getPlaidClient : Error + PlaidApi) (now : string) (fuel : nat)
    (done rest : list (string * string)) (total : SyncResponse.t) (d : Db) :
  sync_items getPlaidClient now fuel (done ++ rest) total d =
  match sync_items getPlaidClient now fuel done total d with
  | (Returned total1, d1) => sync_items getPlaidClient now fuel rest total1 d1
  | (Thrown e, d1) => (Thrown e, d1)
  | (Unfinished, d1) => (Unfinished, d1)
  end.
Proof.
  revert total d. induction done as [|[tok item] done IH]; intros total d.
  - reflexivity.
  - cbn [app sync_items]. unfold bind.
    destruct (syncItem getPlaidClient now fuel tok item d) as [[r|e|] d1];
      [apply IH|reflexivity|reflexivity].
Qed.

(** C2, amended.  When the items [done] have been reconciled and the
    reconciliation of the next item throws, [syncAll] throws that error at
    once: the database is the one the failed pass left, with the
    transactions and cursors that the completed items committed, and
    whatever items remain are not reconciled by this call. *)
Theorem syncAll_stops_at_failure (getPlaidClient : Error + PlaidApi) (now : string)
    (fuel : nat) (done rest : list (string * string)) (accessToken itemId : string)
    (d d1 d2 : Db) (total1 : SyncResponse.t) (e : Error) :
  sync_items getPlaidClient now fuel done (SyncResponse.mk 0 0 0 "" false) d
    = (Returned total1, d1) ->
  syncItem getPlaidClient now fuel accessToken itemId d1 = (Thrown e, d2) ->
  syncAll getPlaidClient (inr (done ++ (accessToken, itemId) :: rest)) now fuel d
    = (Thrown e, d2)
  /\ transactions d2 = transactions d1
  /\ sync_state d2 = sync_state d1.
Proof.
  intros HD HF. split.
  - unfold syncAll, bind, lift, ret.
    destruct (done ++ (accessToken, itemId) :: rest) eqn:E.
    { now destruct done. }
    rewrite <- E, sync_items_app, HD. cbn [sync_items]. unfold bind.
    now rewrite HF.
  - exact (syncItem_outcome _ _ _ _ _ _ _ _ HF).
Qed.

(** A pass over the two pages of tok_b: three added, one modified, one
    removed; txn_1 is rewritten and keeps its tag, txn_0 comes and goes. *)
Example syncItem_two_pages :
  let run := syncItem (inr sample_feed) sample_now 5 "tok_b" "item_b" ledger_tagged in
  fst run = Returned (SyncResponse.mk 3 1 1 "cursor_2" false)
  /\ map (fun r => (Transaction.transaction_id r, Transaction.amount r, Transaction.tag r))
       (transactions (snd run))
     = [("txn_1", 30, Some "coffee"); ("txn_2", 10, None)]
  /\ start_cursor "item_b" (snd run) = "cursor_2".
Proof. repeat split; vm_compute; reflexivity. Qed.



(** C2, as stated, fails: with the items item_a and item_b, where the feed
    rejects item_a, [syncAll] throws the error of item_a and item_b is not
    reconciled, although its own reconciliation from that state returns. *)
Lemma syncAll_skips_remaining_items :
  let run := syncAll (inr sample_feed) (inr sample_items) sample_now 5 ledger_tagged in
  fst run = Thrown (sync_failed "item_a" request_failed)
  /\ snd run = ledger_tagged
  /\ getSyncState "item_b" (snd run) = None
  /\ exists r d',
       syncItem (inr sample_feed) sample_now 5 "tok_b" "item_b" (snd run)
         = (Returned r, d')
       /\ option_map SyncState.cursor (getSyncState "item_b" d') = Some "cursor_2".
Proof.
  repeat split; try (vm_compute; reflexivity).
  eexists _, _. split; vm_compute; reflexivity.
Qed.

Lemma syncAll_stops_at_failure_witness :
  syncAll (inr sample_feed) (inr ([("tok_b", "item_b")] ++ ("tok_c", "item_c") :: sample_items))
    sample_now 5 ledger_tagged
  = (Thrown (sync_failed "item_c" request_failed),
     snd (syncItem (inr sample_feed) sample_now 5 "tok_b" "item_b" ledger_tagged)).
Proof.
  refine (proj1 (syncAll_stops_at_failure (inr sample_feed) sample_now 5
                   [("tok_b", "item_b")] sample_items "tok_c" "item_c"
                   ledger_tagged _ _ _ _ _ _)).
  - vm_compute. reflexivity.
  - vm_compute. reflexivity.
Defined.

Lemma delete_transaction_rows_find (ids : list string) (rows : list Transaction.t)
    (id : string) (r : Transaction.t) :
  tbl_find Transaction.transaction_id id (delete_transaction_rows ids rows) = Some r ->
  tbl_find Transaction.transaction_id id rows = Some r.
Proof.
  revert rows. induction ids as [|i ids IH]; intros rows F; simpl in F; [exact F|].
  apply IH in F. rewrite tbl_find_delete in F.
  now destruct (String.eqb id i).
Qed.

(** C9.  An upsert of a stored transaction id rewrites every column it is
    given and keeps the tag; a batch of upserts keeps the tag of every
    stored row; and after a call of [syncItem], however it ends, every
    transaction that was stored before and still is has its tag. *)
Theorem upsertTransactions_keeps_tag (d : Db) :
  (forall (t : TransactionInput.t) (old : Transaction.t) (d' : Db),
      tbl_find Transaction.transaction_id (TransactionInput.transaction_id t)
        (transactions d) = Some old ->
      upsertTransactions [t] d = (Returned tt, d') ->
      exists r,
        tbl_find Transaction.transaction_id (TransactionInput.transaction_id t)
          (transactions d') = Some r
        /\ transaction_columns r = t
        /\ Transaction.tag r = Transaction.tag old)
  /\ (forall (txns : list TransactionInput.t) (d' : Db) (id : string) (old : Transaction.t),
        upsertTransactions txns d = (Returned tt, d') ->
        tbl_find Transaction.transaction_id id (transactions d) = Some old ->
        exists r,
          tbl_find Transaction.transaction_id id (transactions d') = Some r
          /\ Transaction.tag r = Transaction.tag old)
  /\ (forall (getPlaidClient : Error + PlaidApi) (now : string) (fuel : nat)
        (accessToken itemId : string) (out : outcome SyncResponse.t) (d' : Db)
        (id : string) (old new : Transaction.t),
        syncItem getPlaidClient now fuel accessToken itemId d = (out, d') ->
        tbl_find Transaction.transaction_id id (transactions d) = Some old ->
        tbl_find Transaction.transaction_id id (transactions d') = Some new ->
        Transaction.tag new = Transaction.tag old).
Proof.
  split; [|split].
  - intros t old d' F H. apply upsertTransactions_returned in H. subst d'. simpl.
    rewrite tbl_find_upsert_eq by auto with upsert. rewrite F.
    eexists. split; [reflexivity|]. split; [|reflexivity].
    pose proof (tbl_find_key _ _ _ _ F) as [Hk _].
    destruct t. simpl in *. unfold transaction_columns. simpl. now rewrite Hk.
  - intros txns d' id old H F. apply upsertTransactions_returned in H. subst d'.
    simpl. now apply upsert_transaction_rows_tag.
  - intros gpc now fuel tok item out d' id old new H F F'.
    pose proof (syncItem_outcome _ _ _ _ _ _ _ _ H) as O.
    assert (U : transactions d' = transactions d -> Transaction.tag new = Transaction.tag old).
    { intros E. rewrite E in F'. congruence. }
    destruct out as [r|e|]; [|now apply U|now apply U].
    destruct O as (plaid & pages & last & _ & _ & _ & HT & _).
    rewrite HT in F'. unfold commit_rows in F'.
    apply delete_transaction_rows_find in F'.
    apply upsert_transaction_rows_tag_inv in F'.
    destruct (tbl_find Transaction.transaction_id id
                (upsert_transaction_rows _ (transactions d))) as [mid|] eqn:M.
    + apply upsert_transaction_rows_tag_inv in M. rewrite F in M. congruence.
    + destruct (upsert_transaction_rows_tag
                  (map mapPlaidTransaction
                     (allAdded (accumulate (start_cursor item d) (pages ++ [last]))))
                  (transactions d) id old F) as (x & Fx & _).
      congruence.
Qed.

(** C9 at the sample ledger, where txn_1 carries the tag coffee: upserted
    again with another amount, the row has the new amount and the tag. *)
Lemma upsertTransactions_keeps_tag_witness :
  exists r,
    tbl_find Transaction.transaction_id "txn_1"
      (transactions (snd (upsertTransactions [txn_1 (9999 # 100)] ledger_tagged)))
      = Some r
    /\ transaction_columns r = txn_1 (9999 # 100)
    /\ Transaction.tag r = Some "coffee".
Proof.
  destruct (upsertTransactions_keeps_tag ledger_tagged) as (H & _ & _).
  exact (H (txn_1 (9999 # 100)) _ _ eq_refl eq_refl).
Defined.

(** C4 at the sample ledger: txn_1 upserted with the amount 42.5 and then
    with 99.99. *)
Lemma upsert_twice_one_row_witness :
  let d1 := snd (upsertTransactions [txn_1 (85 # 2)] ledger_1) in
  let d2 := snd (upsertTransactions [txn_1 (9999 # 100)] d1) in
  tbl_count Transaction.transaction_id "txn_1" (transactions d2) = 1%nat
  /\ (exists r, tbl_find Transaction.transaction_id "txn_1" (transactions d2) = Some r
                /\ transaction_columns r = txn_1 (9999 # 100))
  /\ length (transactions d2) = length (transactions d1).
Proof.
  assert (W : Db_wf ledger_1).
  { repeat split; unfold tbl_unique; apply (bool_decide_unpack _); vm_compute; exact I. }
  destruct (upsert_twice_one_row ledger_1 W) as [HT _].
  exact (HT [txn_1 (85 # 2)] (txn_1 (85 # 2)) (txn_1 (9999 # 100)) _ _
           (or_introl eq_refl) eq_refl eq_refl eq_refl).
Defined.

(** ** Classification *)

Lemma filter_length_Permutation {A} (f : A -> bool) (l l' : list A) :
  l ≡ₚ l' -> length (List.filter f l) = length (List.filter f l').
Proof.
  induction 1 as [|x l l' _ IH|x y l|l l' l'' _ IH1 _ IH2]; simpl.
  - reflexivity.
  - destruct (f x); simpl; congruence.
  - destruct (f x), (f y); reflexivity.
  - congruence.
Qed.

Lemma tbl_unique_In {R} (key : R -> string) (rows : list R) (r u : R) :
  tbl_unique key rows -> In r rows -> In u rows -> key r = key u -> r = u.
Proof.
  unfold tbl_unique. induction rows as [|x rows IH]; simpl; [tauto|].
  intros U Hr Hu K. apply NoDup_cons in U as [N U].
  destruct Hr as [->|Hr], Hu as [->|Hu]; auto.
  - exfalso. apply N. rewrite K. apply list_elem_of_In. now apply in_map.
  - exfalso. apply N. rewrite <- K. apply list_elem_of_In. now apply in_map.
Qed.

(** Looking a row of the table up, by its key, in a selection of the
    table. *)
Lemma tbl_find_selection {R} (key : R -> string) (P : R -> bool)
    (rows l : list R) (r : R) :
  tbl_unique key rows ->
  l ≡ₚ List.filter P rows ->
  In r rows ->
  tbl_find key (key r) l = if P r then Some r else None.
Proof.
  intros U Pm Hr.
  destruct (tbl_find key (key r) l) as [u|] eqn:F.
  - apply tbl_find_key in F as [K Hu].
    apply (Permutation_in _ Pm) in Hu. apply filter_In in Hu as [Hu Pu].
    assert (u = r) by (eapply tbl_unique_In; eauto). subst u. now rewrite Pu.
  - destruct (P r) eqn:Pr; [|reflexivity].
    apply tbl_find_None in F. exfalso. apply F. apply in_map.
    apply (Permutation_in _ (Permutation_sym Pm)). apply filter_In. auto.
Qed.

Section TagsFacts.
Variable RegExp_i : string -> Error + (string -> bool).

Lemma apply_first_match_eq (compiled : list CompiledRule) (txn : Transaction.t)
    (n : nat) (d : Db) :
  apply_first_match compiled txn n d =
  match first_match compiled (haystack txn) with
  | Some tag =>
      (Returned (S n),
       set_transactions
         (tbl_update Transaction.transaction_id (Transaction.transaction_id txn)
            (set_tag (Some tag)) (transactions d)) d)
  | None => (Returned n, d)
  end.
Proof.
  induction compiled as [|[regex tag] rest IH]; simpl; [reflexivity|].
  destruct (regex (haystack txn)); [reflexivity|exact IH].
Qed.

Lemma tag_untagged_eq (compiled : list CompiledRule) (untagged : list Transaction.t)
    (n : nat) (d : Db) :
  tag_untagged compiled untagged n d =
  (Returned (n + length (List.filter (matched compiled) untagged))%nat,
   set_transactions (fold_left (tag_step compiled) untagged (transactions d)) d).
Proof.
  revert n d. induction untagged as [|txn rest IH]; intros n d; simpl.
  - unfold ret. now rewrite Nat.add_0_r, set_transactions_id.
  - unfold bind. rewrite apply_first_match_eq. unfold matched, tag_step.
    destruct (first_match compiled (haystack txn)); rewrite IH; simpl.
    + now rewrite Nat.add_succ_r.
    + reflexivity.
Qed.

Lemma retag_key (compiled : list CompiledRule) (l : list Transaction.t) (r : Transaction.t) :
  Transaction.transaction_id (retag compiled l r) = Transaction.transaction_id r.
Proof.
  unfold retag. destruct (tbl_find _ _ l) as [u|]; [|reflexivity].
  now destruct (first_match compiled (haystack u)).
Qed.

Lemma fold_tag_step (compiled : list CompiledRule) (l rows : list Transaction.t) :
  tbl_unique Transaction.transaction_id l ->
  fold_left (tag_step compiled) l rows = map (retag compiled l) rows.
Proof.
  revert rows. induction l as [|u l IH]; intros rows U; simpl.
  - symmetry. apply map_id.
  - unfold tbl_unique in U. simpl in U. apply NoDup_cons in U as [N U].
    rewrite IH by exact U.
    assert (S : tag_step compiled rows u = map (retag compiled [u]) rows).
    { unfold tag_step, retag, tbl_update. simpl.
      destruct (first_match compiled (haystack u)) as [tag|] eqn:FM.
      - apply map_ext. intros r. rewrite String.eqb_sym.
        destruct (String.eqb (Transaction.transaction_id u) (Transaction.transaction_id r));
          [now rewrite FM|reflexivity].
      - symmetry. erewrite map_ext; [apply map_id|]. intros r. simpl.
        destruct (String.eqb _ _); [now rewrite FM|reflexivity]. }
    rewrite S, map_map. apply map_ext. intros r.
    unfold retag at 1 3. rewrite retag_key. simpl.
    destruct (String.eqb_spec (Transaction.transaction_id u) (Transaction.transaction_id r))
      as [E|E].
    + assert (F : tbl_find Transaction.transaction_id (Transaction.transaction_id r) l = None).
      { apply tbl_find_None. rewrite <- E. intros H. apply N. now apply list_elem_of_In. }
      rewrite F. unfold retag. simpl. apply String.eqb_eq in E. now rewrite E.
    + unfold retag. simpl. apply String.eqb_neq in E. now rewrite E.
Qed.

Lemma getUntaggedTransactions_Permutation (d : Db) :
  getUntaggedTransactions d ≡ₚ List.filter is_untagged (transactions d).
Proof. apply merge_sort_Permutation. Qed.

Lemma classify_key (compiled : list CompiledRule) (r : Transaction.t) :
  Transaction.transaction_id (classify compiled r) = Transaction.transaction_id r.
Proof.
  unfold classify. destruct (is_untagged r); [|reflexivity].
  now destruct (first_match compiled (haystack r)).
Qed.

Lemma classify_tagged (compiled : list CompiledRule) (r : Transaction.t) :
  Transaction.tag r <> None -> classify compiled r = r.
Proof.
  unfold classify, is_untagged. now destruct (Transaction.tag r).
Qed.

Lemma classify_still_untagged (compiled : list CompiledRule) (r : Transaction.t) :
  is_untagged (classify compiled r) = true ->
  classify compiled r = r /\ matched compiled r = false.
Proof.
  unfold classify, matched. destruct (is_untagged r) eqn:U.
  - destruct (first_match compiled (haystack r)); [discriminate|auto].
  - congruence.
Qed.

Lemma classify_twice (compiled : list CompiledRule) (r : Transaction.t) :
  classify compiled (classify compiled r) = classify compiled r.
Proof.
  destruct (is_untagged (classify compiled r)) eqn:U.
  - apply classify_still_untagged in U as [E _]. rewrite E. exact E.
  - unfold classify at 1. now rewrite U.
Qed.

Lemma newly_tagged_classify (compiled : list CompiledRule) (rows : list Transaction.t) :
  newly_tagged compiled (map (classify compiled) rows) = 0%nat.
Proof.
  unfold newly_tagged. induction rows as [|r rows IH]; simpl; [reflexivity|].
  destruct (is_untagged (classify compiled r)) eqn:U; [|exact IH].
  apply classify_still_untagged in U as [E M]. simpl. now rewrite E, M.
Qed.

(** One pass, as a function of the rows. *)
Lemma applyTagRules_eq (d : Db) :
  tbl_unique Transaction.transaction_id (transactions d) ->
  applyTagRules RegExp_i d =
  match getTagRules d with
  | [] => (Returned 0%nat, d)
  | _ =>
      match getUntaggedTransactions d with
      | [] => (Returned 0%nat, d)
      | _ =>
          match compile_rules RegExp_i (getTagRules d) with
          | inl e => (Thrown e, d)
          | inr compiled =>
              (Returned (newly_tagged compiled (transactions d)),
               set_transactions (map (classify compiled) (transactions d)) d)
          end
      end
  end.
Proof.
  intros UT. unfold applyTagRules, bind, gets.
  destruct (getTagRules d) as [|rule rules]; [reflexivity|].
  pose proof (getUntaggedTransactions_Permutation d) as Pm.
  destruct (getUntaggedTransactions d) as [|u l] eqn:EU; [reflexivity|].
  unfold lift. destruct (compile_rules RegExp_i (rule :: rules)) as [e|compiled];
    [reflexivity|].
  unfold ret, db_transaction. rewrite tag_untagged_eq, Nat.add_0_l.
  f_equal.
  - f_equal. unfold newly_tagged. now apply filter_length_Permutation.
  - f_equal. rewrite fold_tag_step.
    + apply map_ext_in. intros r Hr. unfold retag, classify.
      rewrite (tbl_find_selection Transaction.transaction_id is_untagged
                 (transactions d) (u :: l) r UT Pm Hr).
      now destruct (is_untagged r).
    + unfold tbl_unique. rewrite Pm. now apply tbl_unique_filter.
Qed.

Lemma filter_nil_Forall {A} (f : A -> bool) (l : list A) :
  List.filter f l = [] -> forall x, In x l -> f x = false.
Proof.
  induction l as [|y l IH]; simpl; [tauto|].
  destruct (f y) eqn:E; [discriminate|].
  intros H x [<-|Hx]; auto.
Qed.

(** One pass, when its rules compile. *)
Lemma applyTagRules_compiled (d : Db) (compiled : list CompiledRule) :
  tbl_unique Transaction.transaction_id (transactions d) ->
  getTagRules d <> [] ->
  compile_rules RegExp_i (getTagRules d) = inr compiled ->
  applyTagRules RegExp_i d =
  (Returned (newly_tagged compiled (transactions d)),
   set_transactions (map (classify compiled) (transactions d)) d).
Proof.
  intros W NE C. rewrite applyTagRules_eq by exact W. rewrite C.
  destruct (getTagRules d); [congruence|].
  pose proof (getUntaggedTransactions_Permutation d) as Pm.
  destruct (getUntaggedTransactions d); [|reflexivity].
  apply Permutation_nil in Pm.
  unfold newly_tagged. rewrite Pm. simpl. f_equal.
  rewrite <- (set_transactions_id d) at 1. f_equal.
  symmetry. erewrite map_ext_in; [apply map_id|].
  intros r Hr. simpl. unfold classify.
  now rewrite (filter_nil_Forall _ _ Pm r Hr).
Qed.

Lemma classify_rows_unique (compiled : list CompiledRule) (rows : list Transaction.t) :
  tbl_unique Transaction.transaction_id rows ->
  tbl_unique Transaction.transaction_id (map (classify compiled) rows).
Proof.
  unfold tbl_unique. rewrite map_map. intros U.
  erewrite map_ext; [exact U|]. intros r. apply classify_key.
Qed.

(** A pass that returns leaves the keys unique and, run again with the
    same rules, finds nothing to tag. *)
Lemma applyTagRules_again (d d1 : Db) (n : nat) :
  tbl_unique Transaction.transaction_id (transactions d) ->
  applyTagRules RegExp_i d = (Returned n, d1) ->
  tbl_unique Transaction.transaction_id (transactions d1)
  /\ applyTagRules RegExp_i d1 = (Returned 0%nat, d1).
Proof.
  intros U H. rewrite applyTagRules_eq in H by exact U.
  destruct (getTagRules d) as [|rule rules] eqn:ER.
  { injection H as <- <-. split; [exact U|].
    rewrite applyTagRules_eq by exact U. now rewrite ER. }
  destruct (getUntaggedTransactions d) as [|u l] eqn:EU.
  { injection H as <- <-. split; [exact U|].
    rewrite applyTagRules_eq by exact U. now rewrite ER, EU. }
  destruct (compile_rules RegExp_i (rule :: rules)) as [e|compiled] eqn:C;
    [discriminate|].
  injection H as <- <-.
  assert (U1 : tbl_unique Transaction.transaction_id
                 (map (classify compiled) (transactions d)))
    by now apply classify_rows_unique.
  split; [exact U1|].
  rewrite (applyTagRules_compiled _ compiled).
  - simpl. rewrite newly_tagged_classify, map_map.
    rewrite (map_ext _ (classify compiled) (classify_twice compiled)).
    reflexivity.
  - exact U1.
  - change (getTagRules d <> []). rewrite ER. discriminate.
  - change (compile_rules RegExp_i (getTagRules d) = inr compiled). now rewrite ER.
Qed.

End TagsFacts.

(** C3, as stated, fails: in a ledger with an untagged Starbucks and an
    untagged Uber transaction and the rule starbucks -> coffee, the first
    run tags one transaction; after the rule uber -> rides is added with a
    strictly higher priority, the second run tags the Uber transaction and
    returns 1, not 0. *)
Lemma applyTagRules_second_run_tags_more :
  let run1 := applyTagRules literal_RegExp_i ledger_rules in
  let d2 := snd (addTagRule literal_RegExp_i sample_now "uber" "rides" 10 (snd run1)) in
  let run2 := applyTagRules literal_RegExp_i d2 in
  fst run1 = Returned 1%nat
  /\ map Transaction.tag (transactions (snd run1)) = [Some "coffee"; None]
  /\ fst run2 = Returned 1%nat
  /\ map Transaction.tag (transactions (snd run2)) = [Some "coffee"; Some "rides"].
Proof. repeat split; vm_compute; reflexivity. Qed.

(** C3, amended.  After a run of [applyTagRules] that returns, a second
    run with the same rules returns 0 and changes nothing.  Whatever the
    rules are at the second run (rules added or deleted in between), it
    leaves every transaction whose tag is non-null as it is, and it returns
    the number of still untagged transactions that a rule matches: 0 when
    there is none, and 0 without any change when there is no rule. *)
Theorem applyTagRules_tag_once (RegExp_i : string -> Error + (string -> bool))
    (d d1 : Db) (n : nat) :
  Db_wf d ->
  applyTagRules RegExp_i d = (Returned n, d1) ->
  applyTagRules RegExp_i d1 = (Returned 0%nat, d1)
  /\ (forall (d2 d3 : Db) (out : outcome nat),
        transactions d2 = transactions d1 ->
        applyTagRules RegExp_i d2 = (out, d3) ->
        (forall id r,
            tbl_find Transaction.transaction_id id (transactions d2) = Some r ->
            Transaction.tag r <> None ->
            tbl_find Transaction.transaction_id id (transactions d3) = Some r)
        /\ (forall compiled,
              getTagRules d2 <> [] ->
              compile_rules RegExp_i (getTagRules d2) = inr compiled ->
              out = Returned (newly_tagged compiled (transactions d1)))
        /\ (getTagRules d2 = [] -> out = Returned 0%nat /\ d3 = d2)).
Proof.
  intros (_ & U & _) H.
  destruct (applyTagRules_again RegExp_i d d1 n U H) as [U1 H1].
  split; [exact H1|].
  intros d2 d3 out ET H2.
  assert (U2 : tbl_unique Transaction.transaction_id (transactions d2))
    by now rewrite ET.
  split; [|split].
  - intros id r F T. rewrite applyTagRules_eq in H2 by exact U2.
    destruct (getTagRules d2); [injection H2 as _ <-; exact F|].
    destruct (getUntaggedTransactions d2); [injection H2 as _ <-; exact F|].
    destruct (compile_rules RegExp_i _) as [e|compiled];
      injection H2 as _ <-; [exact F|].
    simpl. rewrite tbl_find_map by apply classify_key. rewrite F. simpl.
    now rewrite classify_tagged.
  - intros compiled NE C.
    rewrite (applyTagRules_compiled RegExp_i d2 compiled U2 NE C) in H2.
    injection H2 as <- _. now rewrite ET.
  - intros E. rewrite applyTagRules_eq, E in H2 by exact U2.
    injection H2 as <- <-. auto.
Qed.

(** C3 at the sample ledger: the run that tags the Starbucks transaction,
    run again, returns 0 and changes nothing. *)
Lemma applyTagRules_tag_once_witness :
  let d1 := snd (applyTagRules literal_RegExp_i ledger_rules) in
  applyTagRules literal_RegExp_i d1 = (Returned 0%nat, d1).
Proof.
  assert (W : Db_wf ledger_rules).
  { repeat split; unfold tbl_unique; apply (bool_decide_unpack _); vm_compute; exact I. }
  exact (proj1 (applyTagRules_tag_once literal_RegExp_i ledger_rules _ 1%nat W eq_refl)).
Defined.

(** ** Aggregation and budgets *)

Lemma Qplus_0_l_eq (v : Q) : 0 + v = v.
Proof. destruct v as [n d]. unfold Qplus. simpl. f_equal. lia. Qed.

Section GroupFacts.
Context {R K : Type} `{EqDecision K} (key : R -> K) (val : R -> Q).

Lemma assoc_bucket_add (k k' : K) (v : Q) (acc : list (K * Q)) :
  assoc k' (bucket_add k v acc) =
  if decide (k' = k)
  then Some (match assoc k acc with Some s => s + v | None => v end)
  else assoc k' acc.
Proof.
  induction acc as [|[k0 s] acc IH]; simpl.
  - destruct (decide (k = k')), (decide (k' = k)); congruence.
  - destruct (decide (k0 = k)) as [E|E]; simpl.
    + subst k0. destruct (decide (k = k')), (decide (k' = k)); congruence.
    + destruct (decide (k0 = k')) as [E'|E'].
      * subst k0. destruct (decide (k' = k)); congruence.
      * exact IH.
Qed.

(** The bucket of a key holds the sum over the rows of the key. *)
Lemma assoc_group_sum_from (k : K) (rows : list R) (acc : list (K * Q)) :
  assoc k (fold_left (fun acc r => bucket_add (key r) (val r) acc) rows acc) =
  sum_from (assoc k acc)
    (map val (List.filter (fun r => bool_decide (key r = k)) rows)).
Proof.
  revert acc. induction rows as [|r rows IH]; intros acc; simpl; [reflexivity|].
  rewrite IH, assoc_bucket_add.
  destruct (decide (k = key r)) as [E|E].
  - subst k. rewrite bool_decide_true by reflexivity. reflexivity.
  - rewrite bool_decide_false by congruence. reflexivity.
Qed.

Lemma bucket_add_keys (k : K) (v : Q) (acc : list (K * Q)) :
  map fst (bucket_add k v acc) =
  if decide (k ∈ map fst acc) then map fst acc else map fst acc ++ [k].
Proof.
  induction acc as [|[k0 s] acc IH]; cbn [bucket_add map fst].
  - destruct (decide (k ∈ [])) as [I|I]; [|reflexivity].
    now apply not_elem_of_nil in I.
  - destruct (decide (k0 = k)) as [E|E]; cbn [map fst].
    + subst k0. destruct (decide (k ∈ k :: map fst acc)) as [I|I]; [reflexivity|].
      exfalso. apply I. apply list_elem_of_here.
    + rewrite IH. destruct (decide (k ∈ map fst acc)) as [I|I].
      * destruct (decide (k ∈ k0 :: map fst acc)) as [J|J]; [reflexivity|].
        exfalso. apply J. now apply list_elem_of_further.
      * destruct (decide (k ∈ k0 :: map fst acc)) as [J|J]; [|reflexivity].
        apply elem_of_cons in J as [J|J]; congruence.
Qed.

Lemma group_sum_NoDup (rows : list R) : NoDup (map fst (group_sum key val rows)).
Proof.
  unfold group_sum.
  assert (G : forall acc, NoDup (map fst acc) ->
                NoDup (map fst (fold_left (fun acc r => bucket_add (key r) (val r) acc)
                                  rows acc))).
  { induction rows as [|r rows IH]; intros acc N; simpl; [exact N|].
    apply IH. rewrite bucket_add_keys.
    destruct (decide (key r ∈ map fst acc)) as [I|I]; [exact N|].
    apply NoDup_app. repeat split; auto.
    - intros x Hx Hk. apply list_elem_of_singleton in Hk. congruence.
    - apply NoDup_singleton. }
  apply G. constructor.
Qed.


End GroupFacts.

Lemma sum_from_None (vals : list Q) :
  sum_from None vals =
  match vals with
  | [] => None
  | _ => Some (fold_left Qplus vals 0)
  end.
Proof.
  destruct vals as [|v vals]; [reflexivity|].
  unfold sum_from. simpl. rewrite Qplus_0_l_eq.
  revert v. induction vals as [|w vals IH]; intros v; simpl; [reflexivity|].
  apply IH.
Qed.

Lemma fold_left_amounts (rows : list Transaction.t) (a : Q) :
  fold_left Qplus (map Transaction.amount rows) a
  = fold_left (fun a r => a + Transaction.amount r) rows a.
Proof.
  revert a. induction rows as [|r rows IH]; intros a; simpl; [reflexivity|apply IH].
Qed.



Section BudgetFacts.
Variable strftime_Y_m : string -> option string.



End BudgetFacts.


Lemma round_cents_comp (x y : Q) : x == y -> round_cents x = round_cents y.
Proof.
  intros E. unfold round_cents, Math_round.
  assert (F : Qfloor (x * 100 + (1 # 2)) = Qfloor (y * 100 + (1 # 2)))
    by (apply Qfloor_comp; now rewrite E).
  now rewrite F.
Qed.

Lemma Qltb_lt (a b : Q) : Qltb a b = true <-> a < b.
Proof.
  unfold Qltb. rewrite negb_true_iff. split.
  - intros H. apply Qnot_le_lt. intros L. apply Qle_bool_iff in L. congruence.
  - intros H. destruct (Qle_bool b a) eqn:L; [|reflexivity].
    apply Qle_bool_iff in L. lra.
Qed.







(** ** Burn trend *)




Section ReportFacts.
Variable strftime_Y_m : string -> option string.
Variable date_now_minus_months : Z -> option string.



End ReportFacts.



(** ** Strings *)






(** ** CSV export *)

Section ExportFacts.
Variable Number_toString : Q -> string.




End ExportFacts.


(** C8 on the sample: a name that holds double quotes and three null
    fields. *)
Example exportCsv_salary :
  exportCsv sample_Number_toString [response_salary]
  = (join "," CSV_HEADERS ++ newline
     ++ "txn_2,acc_1,2024-06-01,"
     ++ in_quotes ("Salary " ++ in_quotes (in_quotes "Direct Deposit"))
     ++ ",,-5000,INCOME,,,false,online" ++ newline)%string.
Proof. reflexivity. Qed.

(** ** Full-text search *)









(** C10 on a sample: operators and a stray double quote. *)
Example fts_query_operators :
  fts_terms sample_query = sample_terms
  /\ fts5_strings (fts_query_of (fts_terms sample_query)) = Some sample_terms.
Proof. split; reflexivity. Qed.

(** * Further properties of the ledger core *)

(** ** The order of strings *)

Lemma ascii_compare_lt_trans (a b c : ascii) :
  Ascii.compare a b = Lt -> Ascii.compare b c = Lt -> Ascii.compare a c = Lt.
Proof. unfold Ascii.compare. rewrite !N.compare_lt_iff. lia. Qed.

Lemma ascii_compare_refl (a : ascii) : Ascii.compare a a = Eq.
Proof. unfold Ascii.compare. apply N.compare_refl. Qed.

Lemma string_compare_lt_trans (s1 : string) : forall s2 s3,
  String.compare s1 s2 = Lt -> String.compare s2 s3 = Lt -> String.compare s1 s3 = Lt.
Proof.
  induction s1 as [|a s1 IH]; intros [|b s2] [|c s3]; simpl; try congruence.
  destruct (Ascii.compare a b) eqn:AB; try discriminate;
    destruct (Ascii.compare b c) eqn:BC; try discriminate; intros H1 H2.
  - apply Ascii.compare_eq_iff in AB, BC. subst. rewrite ascii_compare_refl. eauto.
  - apply Ascii.compare_eq_iff in AB. subst. now rewrite BC.
  - apply Ascii.compare_eq_iff in BC. subst. now rewrite AB.
  - now rewrite (ascii_compare_lt_trans _ _ _ AB BC).
Qed.

Lemma string_le_compare (a b : string) :
  string_le a b <-> String.compare a b <> Gt.
Proof.
  unfold string_le, String.leb. destruct (String.compare a b); split; congruence.
Qed.

Lemma string_le_refl (a : string) : string_le a a.
Proof.
  apply string_le_compare.
  assert (String.compare a a = Eq) as ->; [|discriminate].
  induction a as [|c a IH]; simpl; [reflexivity|]. now rewrite ascii_compare_refl.
Qed.

Lemma string_le_trans (a b c : string) :
  string_le a b -> string_le b c -> string_le a c.
Proof.
  rewrite !string_le_compare. intros H1 H2.
  destruct (String.compare a b) eqn:AB; [| |congruence].
  - apply String.compare_eq_iff in AB. now subst.
  - destruct (String.compare b c) eqn:BC; [| |congruence].
    + apply String.compare_eq_iff in BC. subst. now rewrite AB.
    + now rewrite (string_compare_lt_trans _ _ _ AB BC).
Qed.

Lemma string_le_total (a b : string) : string_le a b \/ string_le b a.
Proof.
  unfold string_le. destruct (String.leb_total a b); auto.
Qed.

Lemma string_le_antisym (a b : string) : string_le a b -> string_le b a -> a = b.
Proof. unfold string_le. apply String.leb_antisym. Qed.

(** ** The constraints of the schema are kept *)

Lemma tbl_upsert_Forall {R} (key : R -> string) (k : string) (ins : R) (upd : R -> R)
    (P : R -> Prop) (rows : list R) :
  P ins -> (forall r, P r -> P (upd r)) -> Forall P rows ->
  Forall P (tbl_upsert key k ins upd rows).
Proof.
  intros Hi Hu. induction 1 as [|r rows Hr Hrows IH]; simpl.
  - constructor; auto.
  - destruct (String.eqb (key r) k); constructor; auto.
Qed.

Lemma Forall_List_filter {A} (P : A -> Prop) (f : A -> bool) (l : list A) :
  Forall P l -> Forall P (List.filter f l).
Proof.
  rewrite !List.Forall_forall. intros H x I. apply filter_In in I. apply H, I.
Qed.

Lemma NoDup_map_List_filter {A B} (g : A -> B) (f : A -> bool) (l : list A) :
  NoDup (map g l) -> NoDup (map g (List.filter f l)).
Proof.
  induction l as [|x l IH]; simpl; intros N; [exact N|].
  apply NoDup_cons in N as [N1 N2]. destruct (f x); simpl; auto.
  apply NoDup_cons. split; auto.
  intros I. apply N1. apply list_elem_of_In in I. apply list_elem_of_In.
  apply in_map_iff in I as (y & E & I). apply filter_In in I as [I _].
  rewrite <- E. now apply in_map.
Qed.

Lemma tbl_update_keys {R} (key : R -> string) (k : string) (upd : R -> R)
    (rows : list R) :
  (forall r, key (upd r) = key r) ->
  map key (tbl_update key k upd rows) = map key rows.
Proof.
  intros K. unfold tbl_update. rewrite map_map. apply map_ext.
  intros r. destruct (String.eqb (key r) k); auto.
Qed.

Lemma account_exists_In (k : string) (d : Db) :
  account_exists k d = true <-> In k (map Account.account_id (accounts d)).
Proof.
  unfold account_exists.
  destruct (tbl_find Account.account_id k (accounts d)) as [a|] eqn:F.
  - apply tbl_find_key in F as [<- I]. split; auto. intros _. now apply in_map.
  - apply tbl_find_None in F. split; [discriminate|tauto].
Qed.

Lemma upsert_account_rows_exists (now : string) (accs : list AccountInput.t) (d : Db)
    (k : string) :
  account_exists k d = true ->
  account_exists k (set_accounts (upsert_account_rows now accs (accounts d)) d) = true.
Proof.
  unfold account_exists. simpl.
  destruct (tbl_find Account.account_id k (accounts d)) as [a|] eqn:F; [|discriminate].
  intros _. destruct (upsert_account_rows_kept now accs _ _ _ F) as (r & -> & _).
  reflexivity.
Qed.

Lemma upsert_transaction_rows_refs (txns : list TransactionInput.t)
    (rows : list Transaction.t) (d : Db) :
  accounts_exist txns d = true ->
  Forall (fun r => account_exists (Transaction.account_id r) d = true) rows ->
  Forall (fun r => account_exists (Transaction.account_id r) d = true)
    (upsert_transaction_rows txns rows).
Proof.
  unfold accounts_exist. revert rows.
  induction txns as [|t txns IH]; intros rows E F; simpl in *; [exact F|].
  apply andb_true_iff in E as [Et E]. apply IH; [exact E|].
  apply tbl_upsert_Forall; auto.
Qed.

Lemma delete_transaction_rows_Forall (P : Transaction.t -> Prop) (ids : list string)
    (rows : list Transaction.t) :
  Forall P rows -> Forall P (delete_transaction_rows ids rows).
Proof.
  revert rows. induction ids as [|i ids IH]; intros rows F; simpl; [exact F|].
  apply IH. now apply Forall_List_filter.
Qed.

Lemma delete_transaction_rows_unique (ids : list string) (rows : list Transaction.t) :
  tbl_unique Transaction.transaction_id rows ->
  tbl_unique Transaction.transaction_id (delete_transaction_rows ids rows).
Proof.
  revert rows. induction ids as [|i ids IH]; intros rows U; simpl; [exact U|].
  apply IH. now apply tbl_unique_delete.
Qed.

(** Writing the accounts, the transactions or the stored cursors of a
    database that meets the constraints. *)
Lemma Db_schema_accounts (now : string) (accs : list AccountInput.t) (d : Db) :
  Db_schema d ->
  Db_schema (set_accounts (upsert_account_rows now accs (accounts d)) d).
Proof.
  intros ((UA & UT & US) & R & B1 & B2 & B3).
  unfold Db_schema, Db_wf, Db_refs in *. simpl. repeat split; auto.
  - now apply upsert_account_rows_unique.
  - eapply Forall_impl; [exact R|].
    intros r. apply upsert_account_rows_exists.
Qed.

Lemma Db_schema_transactions (rows : list Transaction.t) (d : Db) :
  Db_schema d ->
  tbl_unique Transaction.transaction_id rows ->
  Forall (fun r => account_exists (Transaction.account_id r) d = true) rows ->
  Db_schema (set_transactions rows d).
Proof.
  intros ((UA & UT & US) & R & B1 & B2 & B3) U F.
  unfold Db_schema, Db_wf, Db_refs in *. simpl. repeat split; auto.
Qed.

Lemma Db_schema_sync_state (rows : list SyncState.t) (d : Db) :
  Db_schema d ->
  tbl_unique SyncState.item_id rows ->
  Db_schema (set_sync_state rows d).
Proof.
  intros ((UA & UT & US) & R & B1 & B2 & B3) U.
  unfold Db_schema, Db_wf, Db_refs in *. simpl. repeat split; auto.
Qed.

Lemma Db_schema_upsertTransactions (txns : list TransactionInput.t) (d : Db) :
  Db_schema d -> Db_schema (snd (upsertTransactions txns d)).
Proof.
  intros S. rewrite upsertTransactions_eq.
  destruct (accounts_exist txns d) eqn:E; simpl; [|exact S].
  apply Db_schema_transactions; [exact S| |].
  - apply upsert_transaction_rows_unique, S.
  - apply upsert_transaction_rows_refs; [exact E|apply S].
Qed.

Lemma Db_schema_removeTransactions (ids : list string) (d : Db) :
  Db_schema d -> Db_schema (snd (removeTransactions ids d)).
Proof.
  intros S. rewrite removeTransactions_eq. simpl.
  apply Db_schema_transactions; [exact S| |].
  - apply delete_transaction_rows_unique, S.
  - apply delete_transaction_rows_Forall, S.
Qed.

Lemma Db_schema_removeTransactionsByAccount (accountIds : list string) (d : Db) :
  Db_schema d -> Db_schema (snd (removeTransactionsByAccount accountIds d)).
Proof.
  intros S. unfold removeTransactionsByAccount.
  destruct accountIds as [|a l]; [exact S|].
  destruct (0 <? _)%nat; simpl; [|exact S].
  apply Db_schema_transactions; [exact S| |].
  - apply tbl_unique_filter, S.
  - apply Forall_List_filter, S.
Qed.

(** The DELETE of [removeAccountsByItem] runs only when no transaction is
    left that refers to an account of the item. *)
Lemma Db_schema_removeAccountsByItem (itemId : string) (d : Db) :
  Db_schema d -> Db_schema (snd (removeAccountsByItem itemId d)).
Proof.
  intros S. unfold removeAccountsByItem.
  destruct (map Account.account_id (List.filter _ (accounts d))) as [|a l] eqn:Ids;
    [exact S|].
  rewrite <- Ids.
  destruct (existsb _ (transactions d)) eqn:X; simpl; [exact S|].
  destruct S as ((UA & UT & US) & R & B1 & B2 & B3).
  unfold Db_schema, Db_wf, Db_refs in *. simpl. repeat split; auto.
  - now apply tbl_unique_filter.
  - apply List.Forall_forall. intros r I.
    pose proof (proj1 (List.Forall_forall _ _) R r I) as E.
    apply account_exists_In in E. apply account_exists_In. simpl.
    apply in_map_iff in E as (acc & K & Ia).
    apply in_map_iff. exists acc. split; [exact K|].
    apply filter_In. split; [exact Ia|].
    destruct (String.eqb (Account.item_id acc) itemId) eqn:It; [|reflexivity].
    exfalso.
    assert (existsb
              (fun t => string_in (Transaction.account_id t)
                 (map Account.account_id
                    (List.filter (fun a => String.eqb (Account.item_id a) itemId)
                       (accounts d))))
              (transactions d) = true) as C; [|congruence].
    apply existsb_exists. exists r. split; [exact I|].
    unfold string_in. apply existsb_exists. exists (Account.account_id acc).
    split; [|rewrite K; apply String.eqb_refl].
    apply in_map. apply filter_In. auto.
Qed.

Lemma Db_schema_updateTransactionTag (transactionId : string) (tag : option string)
    (d : Db) :
  Db_schema d -> Db_schema (snd (updateTransactionTag transactionId tag d)).
Proof.
  intros S. unfold updateTransactionTag. simpl.
  apply Db_schema_transactions; [exact S| |].
  - unfold tbl_unique. rewrite tbl_update_keys by reflexivity. apply S.
  - destruct S as (_ & R & _). unfold Db_refs in R.
    apply List.Forall_forall. intros r I. unfold tbl_update in I.
    apply in_map_iff in I as (r0 & <- & I).
    pose proof (proj1 (List.Forall_forall _ _) R r0 I) as E.
    now destruct (String.eqb (Transaction.transaction_id r0) transactionId).
Qed.

Lemma Db_schema_setSyncState (now itemId cursor : string) (d : Db) :
  Db_schema d -> Db_schema (snd (setSyncState now itemId cursor d)).
Proof.
  intros S. unfold setSyncState, modify. simpl.
  apply Db_schema_sync_state; [exact S|].
  apply tbl_unique_upsert; [reflexivity|reflexivity|apply S].
Qed.

Lemma Db_schema_removeSyncState (itemId : string) (d : Db) :
  Db_schema d -> Db_schema (snd (removeSyncState itemId d)).
Proof.
  intros S. unfold removeSyncState, modify. simpl.
  apply Db_schema_sync_state; [exact S|]. apply tbl_unique_delete, S.
Qed.

Lemma Db_schema_insertTagRule (now pattern tag : string) (priority : Z) (d : Db) :
  Db_schema d -> Db_schema (snd (insertTagRule now pattern tag priority d)).
Proof.
  intros ((UA & UT & US) & R & B1 & B2 & B3).
  unfold Db_schema, Db_wf, Db_refs in *. simpl. repeat split; auto.
  - rewrite map_app. simpl. apply NoDup_app. split; [exact B2|]. split.
    + intros x I J. apply list_elem_of_In in I, J. simpl in J.
      destruct J as [<-|[]]. apply in_map_iff in I as (r & E & I).
      pose proof (proj1 (List.Forall_forall _ _) B3 r I). simpl in *. lia.
    + apply NoDup_cons. split; [apply not_elem_of_nil|apply NoDup_nil_2].
  - apply Forall_app. split.
    + eapply Forall_impl; [exact B3|]. simpl. intros. lia.
    + constructor; [simpl; lia|constructor].
Qed.

Lemma Db_schema_deleteTagRule (id : Z) (d : Db) :
  Db_schema d -> Db_schema (snd (deleteTagRule id d)).
Proof.
  intros ((UA & UT & US) & R & B1 & B2 & B3).
  unfold Db_schema, Db_wf, Db_refs in *. simpl. repeat split; auto.
  - now apply NoDup_map_List_filter.
  - now apply Forall_List_filter.
Qed.

Lemma Db_schema_upsertBudget (now tag : string) (monthlyLimit alertThreshold : Q)
    (d : Db) :
  Db_schema d -> Db_schema (snd (upsertBudget now tag monthlyLimit alertThreshold d)).
Proof.
  intros ((UA & UT & US) & R & B1 & B2 & B3). unfold upsertBudget.
  destruct (tbl_find Budget.tag tag (budgets d)) as [b|] eqn:F;
    unfold Db_schema, Db_wf, Db_refs in *; simpl; repeat split; auto.
  - unfold tbl_unique. rewrite tbl_update_keys by reflexivity. exact B1.
  - unfold tbl_unique. rewrite map_app. simpl. apply NoDup_app.
    split; [exact B1|]. split.
    + intros x I J. apply list_elem_of_In in I, J. simpl in J.
      destruct J as [<-|[]]. apply tbl_find_None in F. tauto.
    + apply NoDup_cons. split; [apply not_elem_of_nil|apply NoDup_nil_2].
Qed.

Lemma Db_schema_deleteBudget (tag : string) (d : Db) :
  Db_schema d -> Db_schema (snd (deleteBudget tag d)).
Proof.
  intros ((UA & UT & US) & R & B1 & B2 & B3).
  unfold Db_schema, Db_wf, Db_refs in *. simpl. repeat split; auto.
  now apply tbl_unique_delete.
Qed.

Lemma Db_schema_upsertAccounts (now : string) (accs : list AccountInput.t) (d : Db) :
  Db_schema d -> Db_schema (snd (upsertAccounts now accs d)).
Proof. intros S. rewrite upsertAccounts_eq. simpl. now apply Db_schema_accounts. Qed.

Lemma Db_schema_empty_db : Db_schema empty_db.
Proof.
  unfold Db_schema, Db_wf, Db_refs, tbl_unique. simpl.
  repeat split; try apply NoDup_nil_2; constructor.
Qed.

Lemma Db_schema_run_call (c : StoreCall) (d : Db) :
  Db_schema d -> Db_schema (run_call c d).
Proof.
  destruct c; simpl.
  - apply Db_schema_upsertAccounts.
  - apply Db_schema_upsertTransactions.
  - apply Db_schema_removeTransactions.
  - apply Db_schema_removeTransactionsByAccount.
  - apply Db_schema_removeAccountsByItem.
  - apply Db_schema_updateTransactionTag.
  - apply Db_schema_setSyncState.
  - apply Db_schema_removeSyncState.
  - apply Db_schema_insertTagRule.
  - apply Db_schema_deleteTagRule.
  - apply Db_schema_upsertBudget.
  - apply Db_schema_deleteBudget.
Qed.

(** X1.  Every writing function that db.ts exports keeps the constraints
    of the schema, whether it returns or throws: after any sequence of
    calls on a database that meets them, account ids, transaction ids,
    the item ids of the stored cursors and budget tags are unique, every
    transaction refers to a stored account, and the ids of the tag rules
    differ and do not exceed the sequence.  In particular this holds for
    every database built from the empty one. *)
Theorem store_calls_keep_schema (cs : list StoreCall) (d : Db) :
  Db_schema d -> Db_schema (run_calls cs d).
Proof.
  unfold run_calls. revert d.
  induction cs as [|c cs IH]; intros d S; simpl; [exact S|].
  apply IH. now apply Db_schema_run_call.
Qed.

Lemma store_calls_keep_schema_witness :
  Db_schema
    (run_calls
       [call_upsertTransactions [txn_uber];
        call_removeAccountsByItem "item_1";
        call_insertTagRule sample_now "uber" "transport" 5;
        call_upsertBudget sample_now "coffee" 100 (9 # 10);
        call_removeTransactions ["txn_1"]]
       ledger_tagged).
Proof.
  apply store_calls_keep_schema.
  unfold Db_schema, Db_wf, Db_refs, tbl_unique.
  repeat split; apply (bool_decide_unpack _); vm_compute; exact I.
Defined.

(** ** The engines keep the constraints *)

Lemma commit_rows_unique (p : Pass) (rows : list Transaction.t) :
  tbl_unique Transaction.transaction_id rows ->
  tbl_unique Transaction.transaction_id (commit_rows p rows).
Proof.
  intros U. unfold commit_rows.
  now apply delete_transaction_rows_unique; do 2 apply upsert_transaction_rows_unique.
Qed.

Lemma commit_rows_refs (p : Pass) (rows : list Transaction.t) (d : Db) :
  accounts_exist (map mapPlaidTransaction (allAdded p)) d = true ->
  accounts_exist (map mapPlaidTransaction (allModified p)) d = true ->
  Forall (fun r => account_exists (Transaction.account_id r) d = true) rows ->
  Forall (fun r => account_exists (Transaction.account_id r) d = true)
    (commit_rows p rows).
Proof.
  intros A M F. unfold commit_rows.
  apply delete_transaction_rows_Forall.
  apply upsert_transaction_rows_refs; [exact M|].
  apply upsert_transaction_rows_refs; [exact A|exact F].
Qed.

Lemma Db_schema_sync_pages (now : string) (fuel : nat) (plaid : PlaidApi)
    (accessToken itemId : string) (acc : Pass) (d : Db) :
  Db_schema d ->
  Db_schema (snd (sync_pages now fuel plaid accessToken itemId acc d)).
Proof.
  revert acc d. induction fuel as [|fuel IH]; intros acc d S; [exact S|].
  rewrite sync_pages_step.
  destruct (plaid accessToken (request_cursor (cursor acc))) as [e|data]; [exact S|].
  cbv zeta.
  destruct (TransactionsSyncResponse.has_more data).
  - apply IH. now apply Db_schema_accounts.
  - simpl. now apply Db_schema_accounts.
Qed.

Lemma Db_schema_syncItem (getPlaidClient : Error + PlaidApi) (now : string)
    (fuel : nat) (accessToken itemId : string) (d : Db) :
  Db_schema d ->
  Db_schema (snd (syncItem getPlaidClient now fuel accessToken itemId d)).
Proof.
  intros S. destruct getPlaidClient as [e|plaid]; [exact S|].
  rewrite syncItem_eq.
  pose proof (Db_schema_sync_pages now fuel plaid accessToken itemId
                (mkPass [] [] [] (start_cursor itemId d)) d S) as S1.
  destruct (sync_pages now fuel plaid accessToken itemId _ d) as [[p|e|] d1];
    simpl in S1; [|exact S1|exact S1].
  destruct (accounts_exist (map mapPlaidTransaction (allAdded p)) d1) eqn:A;
    [|exact S1].
  destruct (accounts_exist (map mapPlaidTransaction (allModified p)) d1) eqn:M;
    [|exact S1].
  simpl. apply Db_schema_sync_state.
  - apply Db_schema_transactions; [exact S1| |].
    + apply commit_rows_unique, S1.
    + apply commit_rows_refs; [exact A|exact M|apply S1].
  - apply tbl_unique_upsert; [reflexivity|reflexivity|apply S1].
Qed.

Lemma Db_schema_sync_items (getPlaidClient : Error + PlaidApi) (now : string)
    (fuel : nat) (items : list (string * string)) (total : SyncResponse.t) (d : Db) :
  Db_schema d ->
  Db_schema (snd (sync_items getPlaidClient now fuel items total d)).
Proof.
  revert total d. induction items as [|[accessToken itemId] items IH];
    intros total d S; [exact S|].
  cbn [sync_items]. unfold bind.
  pose proof (Db_schema_syncItem getPlaidClient now fuel accessToken itemId d S) as S1.
  destruct (syncItem getPlaidClient now fuel accessToken itemId d) as [[r|e|] d1];
    simpl in S1; [|exact S1|exact S1].
  now apply IH.
Qed.

Lemma classify_account_id (compiled : list CompiledRule) (r : Transaction.t) :
  Transaction.account_id (classify compiled r) = Transaction.account_id r.
Proof.
  unfold classify. destruct (is_untagged r); [|reflexivity].
  now destruct (first_match compiled (haystack r)).
Qed.

Lemma Db_schema_applyTagRules (RegExp_i : string -> Error + (string -> bool)) (d : Db) :
  Db_schema d -> Db_schema (snd (applyTagRules RegExp_i d)).
Proof.
  intros S. rewrite applyTagRules_eq by apply S.
  destruct (getTagRules d); [exact S|].
  destruct (getUntaggedTransactions d); [exact S|].
  destruct (compile_rules RegExp_i _) as [e|compiled]; [exact S|].
  simpl. apply Db_schema_transactions; [exact S| |].
  - apply classify_rows_unique, S.
  - destruct S as (_ & R & _). unfold Db_refs in R.
    apply List.Forall_forall. intros r I. apply in_map_iff in I as (r0 & <- & I).
    rewrite classify_account_id. exact (proj1 (List.Forall_forall _ _) R r0 I).
Qed.

Lemma Db_schema_unlink (identifier : string) (d : Db) :
  Db_schema d -> Db_schema (snd (unlink identifier d)).
Proof.
  intros S. unfold unlink, bind, gets.
  destruct (getAccountByIdOrMask identifier d) as [a|]; [|exact S].
  match goal with
  | |- context [removeTransactionsByAccount ?ids d] =>
      pose proof (Db_schema_removeTransactionsByAccount ids d S) as S1;
      destruct (removeTransactionsByAccount ids d) as [[n|e|] d1]
  end; simpl in S1; [|exact S1|exact S1].
  pose proof (Db_schema_removeAccountsByItem (Account.item_id a) d1 S1) as S2.
  destruct (removeAccountsByItem (Account.item_id a) d1) as [[l|e|] d2];
    simpl in S2; [|exact S2|exact S2].
  exact (Db_schema_removeSyncState (Account.item_id a) d2 S2).
Qed.

(** X2.  The engines built on the store keep the constraints of the schema
    however they end: a reconciliation of one item or of all items
    (returned, failed on a page, failed in the final write or out of
    fuel), a classification pass, the addition of a tag rule, the setting
    of a budget and the unlinking of an account leave a database in which
    the keys are unique and every transaction refers to a stored
    account. *)
Theorem engines_keep_schema (getPlaidClient : Error + PlaidApi)
    (getDecryptedAccessTokens : Error + list (string * string))
    (RegExp_i : string -> Error + (string -> bool))
    (now : string) (fuel : nat) (d : Db) :
  Db_schema d ->
  (forall accessToken itemId,
     Db_schema (snd (syncItem getPlaidClient now fuel accessToken itemId d)))
  /\ Db_schema (snd (syncAll getPlaidClient getDecryptedAccessTokens now fuel d))
  /\ Db_schema (snd (applyTagRules RegExp_i d))
  /\ (forall pattern tag priority,
        Db_schema (snd (addTagRule RegExp_i now pattern tag priority d)))
  /\ (forall tag limit alertThreshold,
        Db_schema (snd (setBudget now tag limit alertThreshold d)))
  /\ (forall identifier, Db_schema (snd (unlink identifier d))).
Proof.
  intros S. split; [|split; [|split; [|split; [|split]]]].
  - intros. now apply Db_schema_syncItem.
  - unfold syncAll, bind, lift.
    destruct getDecryptedAccessTokens as [e|[|item items]]; [exact S|exact S|].
    now apply Db_schema_sync_items.
  - now apply Db_schema_applyTagRules.
  - intros. unfold addTagRule. destruct (RegExp_i pattern); [exact S|].
    now apply Db_schema_insertTagRule.
  - intros. now apply Db_schema_upsertBudget.
  - intros. now apply Db_schema_unlink.
Qed.

Lemma engines_keep_schema_witness :
  Db_schema (snd (syncItem (inr sample_feed) sample_now 5 "tok_b" "item_1" ledger_rules))
  /\ Db_schema (snd (applyTagRules literal_RegExp_i ledger_rules))
  /\ Db_schema (snd (unlink "1234" ledger_rules)).
Proof.
  assert (W : Db_schema ledger_rules).
  { unfold Db_schema, Db_wf, Db_refs, tbl_unique.
    repeat split; apply (bool_decide_unpack _); vm_compute; exact I. }
  destruct (engines_keep_schema (inr sample_feed) (inr sample_items) literal_RegExp_i
              sample_now 5 ledger_rules W) as (H1 & _ & H3 & _ & _ & H6).
  exact (conj (H1 "tok_b" "item_1") (conj H3 (H6 "1234"))).
Defined.

(** ** Batches of transaction writes *)

Lemma upsert_transaction_rows_app (l1 l2 : list TransactionInput.t)
    (rows : list Transaction.t) :
  upsert_transaction_rows (l1 ++ l2) rows =
  upsert_transaction_rows l2 (upsert_transaction_rows l1 rows).
Proof. apply fold_left_app. Qed.

Lemma upsert_transaction_rows_other (txns : list TransactionInput.t)
    (rows : list Transaction.t) (id : string) :
  ~ In id (map TransactionInput.transaction_id txns) ->
  tbl_find Transaction.transaction_id id (upsert_transaction_rows txns rows) =
  tbl_find Transaction.transaction_id id rows.
Proof.
  revert rows. induction txns as [|t txns IH]; intros rows N; simpl in *; [reflexivity|].
  rewrite IH by tauto. apply tbl_find_upsert_ne; auto with upsert.
Qed.

Lemma transaction_columns_inserted (t : TransactionInput.t) :
  transaction_columns (transaction_inserted t) = t.
Proof. now destruct t. Qed.

Lemma transaction_columns_updated (t : TransactionInput.t) (old : Transaction.t) :
  Transaction.transaction_id old = TransactionInput.transaction_id t ->
  transaction_columns (transaction_updated t old) = t.
Proof. destruct t. unfold transaction_columns. simpl. now intros ->. Qed.

(** The row of the last statement of a batch for an id. *)
Lemma upsert_transaction_rows_last (l1 l2 : list TransactionInput.t)
    (t : TransactionInput.t) (rows : list Transaction.t) :
  ~ In (TransactionInput.transaction_id t) (map TransactionInput.transaction_id l2) ->
  exists r,
    tbl_find Transaction.transaction_id (TransactionInput.transaction_id t)
      (upsert_transaction_rows (l1 ++ t :: l2) rows) = Some r
    /\ transaction_columns r = t.
Proof.
  intros N. rewrite upsert_transaction_rows_app. cbn [upsert_transaction_rows fold_left].
  fold (upsert_transaction_rows l2).
  rewrite upsert_transaction_rows_other by exact N.
  rewrite tbl_find_upsert_eq by auto with upsert.
  destruct (tbl_find _ _ (upsert_transaction_rows l1 rows)) as [old|] eqn:F.
  - eexists. split; [reflexivity|]. apply transaction_columns_updated.
    now apply tbl_find_key in F.
  - eexists. split; [reflexivity|]. apply transaction_columns_inserted.
Qed.

Lemma accounts_exist_false (txns : list TransactionInput.t) (d : Db) :
  accounts_exist txns d = false <->
  exists t, In t txns /\ account_exists (TransactionInput.account_id t) d = false.
Proof.
  unfold accounts_exist. induction txns as [|t txns IH]; simpl.
  - split; [discriminate|]. now intros (t & [] & _).
  - rewrite andb_false_iff, IH. split.
    + intros [E|(u & I & E)]; eauto.
    + intros (u & [<-|I] & E); eauto.
Qed.

Lemma accounts_exist_true (txns : list TransactionInput.t) (d : Db) :
  accounts_exist txns d = true <->
  forall t, In t txns -> account_exists (TransactionInput.account_id t) d = true.
Proof. unfold accounts_exist. apply forallb_forall. Qed.

(** X3.  A batch of transaction upserts is all or nothing.  When some
    row of the batch names an account that is not stored, the call throws
    the foreign-key error and leaves the database as it was, whichever
    rows came before the offending one.  When every row names a stored
    account, the call returns, writes nothing but transactions, leaves for
    each id of the batch a row holding the columns of the last batch row
    with that id, and leaves the row of every other id as it was. *)
Theorem upsertTransactions_all_or_nothing (txns : list TransactionInput.t) (d : Db) :
  ((exists t, In t txns /\ account_exists (TransactionInput.account_id t) d = false) ->
   upsertTransactions txns d = (Thrown foreign_key_failed, d))
  /\ ((forall t, In t txns -> account_exists (TransactionInput.account_id t) d = true) ->
      exists d',
        upsertTransactions txns d = (Returned tt, d')
        /\ accounts d' = accounts d
        /\ sync_state d' = sync_state d
        /\ (forall l1 t l2,
              txns = l1 ++ t :: l2 ->
              ~ In (TransactionInput.transaction_id t)
                  (map TransactionInput.transaction_id l2) ->
              exists r,
                tbl_find Transaction.transaction_id (TransactionInput.transaction_id t)
                  (transactions d') = Some r
                /\ transaction_columns r = t)
        /\ (forall id,
              ~ In id (map TransactionInput.transaction_id txns) ->
              tbl_find Transaction.transaction_id id (transactions d') =
              tbl_find Transaction.transaction_id id (transactions d))).
Proof.
  rewrite upsertTransactions_eq. split.
  - intros H. apply accounts_exist_false in H. now rewrite H.
  - intros H. apply accounts_exist_true in H. rewrite H.
    eexists. split; [reflexivity|]. simpl. repeat split.
    + intros l1 t l2 -> N. now apply upsert_transaction_rows_last.
    + intros id N. now apply upsert_transaction_rows_other.
Qed.

Lemma upsertTransactions_all_or_nothing_witness :
  upsertTransactions [txn_1 (85 # 2); txn_orphan] ledger_1
  = (Thrown foreign_key_failed, ledger_1)
  /\ exists d' r,
       upsertTransactions [txn_1 (85 # 2); txn_1 (9999 # 100)] ledger_1 = (Returned tt, d')
       /\ tbl_find Transaction.transaction_id "txn_1" (transactions d') = Some r
       /\ transaction_columns r = txn_1 (9999 # 100).
Proof.
  split.
  - apply (upsertTransactions_all_or_nothing [txn_1 (85 # 2); txn_orphan] ledger_1).
    exists txn_orphan. split; [simpl; auto|reflexivity].
  - destruct (upsertTransactions_all_or_nothing
                [txn_1 (85 # 2); txn_1 (9999 # 100)] ledger_1) as [_ H].
    destruct H as (d' & E & _ & _ & L & _).
    { intros t [<-|[<-|[]]]; reflexivity. }
    destruct (L [txn_1 (85 # 2)] (txn_1 (9999 # 100)) [] eq_refl (fun x => x))
      as (r & F & C).
    exists d', r. auto.
Defined.

(** The deletes of [removeTransactions], one after the other, are one
    selection. *)
Lemma delete_transaction_rows_filter (ids : list string) (rows : list Transaction.t) :
  delete_transaction_rows ids rows =
  List.filter (fun r => negb (string_in (Transaction.transaction_id r) ids)) rows.
Proof.
  revert rows. induction ids as [|i ids IH]; intros rows; simpl.
  - induction rows as [|r rows IHr]; simpl; congruence.
  - rewrite IH. unfold tbl_delete.
    induction rows as [|r rows IHr]; simpl; [reflexivity|].
    unfold string_in in *. simpl.
    destruct (String.eqb (Transaction.transaction_id r) i) eqn:E; simpl.
    + exact IHr.
    + destruct (existsb _ ids); simpl; congruence.
Qed.

Lemma List_filter_idem {A} (f : A -> bool) (l : list A) :
  List.filter f (List.filter f l) = List.filter f l.
Proof.
  induction l as [|x l IH]; simpl; [reflexivity|].
  destruct (f x) eqn:E; simpl; [rewrite E|]; congruence.
Qed.

(** X4.  [removeTransactions] never throws and deletes exactly the rows
    whose id is listed: the rows left are the other rows, in their order,
    whether or not the listed ids were stored; nothing else is written,
    and a second call with the same ids changes nothing. *)
Theorem removeTransactions_exact (transactionIds : list string) (d : Db) :
  let d' :=
    set_transactions
      (List.filter
         (fun r => negb (string_in (Transaction.transaction_id r) transactionIds))
         (transactions d)) d in
  removeTransactions transactionIds d = (Returned tt, d')
  /\ removeTransactions transactionIds d' = (Returned tt, d').
Proof.
  cbv zeta. rewrite !removeTransactions_eq, !delete_transaction_rows_filter.
  split; [reflexivity|]. simpl. now rewrite List_filter_idem.
Qed.

(** ** Stored cursors *)

(** X5.  [setSyncState] and [getSyncState] round-trip: after a cursor is
    stored for an item, reading the item gives that cursor with the time
    of the write, whatever was stored before, and the state of every other
    item reads as before; after [removeSyncState] the item reads as never
    synced, again without touching the others; and [syncItem] run next
    would start from the stored cursor. *)
Theorem setSyncState_getSyncState (now itemId cursor : string) (d : Db) :
  let d1 := snd (setSyncState now itemId cursor d) in
  let d2 := snd (removeSyncState itemId d1) in
  getSyncState itemId d1 = Some (SyncState.mk itemId cursor now)
  /\ start_cursor itemId d1 = cursor
  /\ getSyncState itemId d2 = None
  /\ start_cursor itemId d2 = ""
  /\ (forall other, other <> itemId ->
        getSyncState other d1 = getSyncState other d
        /\ getSyncState other d2 = getSyncState other d).
Proof.
  cbv zeta. unfold setSyncState, removeSyncState, modify, getSyncState, start_cursor,
    getSyncState. simpl.
  rewrite tbl_find_delete, String.eqb_refl.
  rewrite tbl_find_upsert_eq by reflexivity.
  assert (E : match tbl_find SyncState.item_id itemId (sync_state d) with
              | Some old => SyncState.mk (SyncState.item_id old) cursor now
              | None => SyncState.mk itemId cursor now
              end = SyncState.mk itemId cursor now).
  { destruct (tbl_find SyncState.item_id itemId (sync_state d)) as [old|] eqn:F;
      [|reflexivity].
    apply tbl_find_key in F as [-> _]. reflexivity. }
  rewrite E. repeat split.
  - now apply tbl_find_upsert_ne.
  - rewrite tbl_find_delete. apply String.eqb_neq in H. rewrite H.
    apply tbl_find_upsert_ne; auto. now apply String.eqb_neq.
Qed.

Lemma setSyncState_getSyncState_witness :
  getSyncState "item_b" (snd (setSyncState sample_now "item_a" "cursor_9" ledger_1))
  = getSyncState "item_b" ledger_1.
Proof.
  destruct (setSyncState_getSyncState sample_now "item_a" "cursor_9" ledger_1)
    as (_ & _ & _ & _ & H).
  apply (H "item_b"). discriminate.
Defined.

(** ** Queries *)










(** ** The order of the tag rules *)

Lemma rule_order_trans : Transitive rule_order.
Proof. intros a b c. unfold rule_order. lia. Qed.

Lemma rule_order_total : Total rule_order.
Proof. intros a b. unfold rule_order. lia. Qed.

Lemma getTagRules_sorted (d : Db) :
  StronglySorted rule_order (getTagRules d) /\ getTagRules d ≡ₚ tag_rules d.
Proof.
  split; [|apply merge_sort_Permutation].
  apply StronglySorted_merge_sort; [apply rule_order_trans|apply rule_order_total].
Qed.

Lemma tbl_find_In {R} (key : R -> string) (rows : list R) (r : R) :
  tbl_unique key rows -> In r rows -> tbl_find key (key r) rows = Some r.
Proof.
  intros U I. destruct (tbl_find key (key r) rows) as [u|] eqn:F.
  - apply tbl_find_key in F as [K J]. f_equal. eapply tbl_unique_In; eauto.
  - apply tbl_find_None in F. exfalso. apply F. now apply in_map.
Qed.

Lemma first_match_Some (compiled : list CompiledRule) (text tag : string) :
  first_match compiled text = Some tag ->
  exists l1 regex l2,
    compiled = l1 ++ (regex, tag) :: l2
    /\ regex text = true
    /\ Forall (fun c => fst c text = false) l1.
Proof.
  induction compiled as [|[regex t] compiled IH]; simpl; [discriminate|].
  destruct (regex text) eqn:E.
  - intros [= ->]. exists [], regex, compiled. auto.
  - intros H. destruct (IH H) as (l1 & rx & l2 & -> & M & F).
    exists ((regex, t) :: l1), rx, l2. repeat split; auto.
Qed.

Lemma first_match_None (compiled : list CompiledRule) (text : string) :
  first_match compiled text = None -> Forall (fun c => fst c text = false) compiled.
Proof.
  induction compiled as [|[regex t] compiled IH]; simpl; [constructor|].
  destruct (regex text) eqn:E; [discriminate|]. intros H. constructor; auto.
Qed.

Lemma Forall2_In_l {A B} (P : A -> B -> Prop) (l : list A) (k : list B) (x : A) :
  Forall2 P l k -> In x l -> exists y, In y k /\ P x y.
Proof.
  induction 1 as [|a b l k Pab _ IH]; simpl; [tauto|].
  intros [<-|I]; [eauto|]. destruct (IH I) as (y & J & Py). eauto.
Qed.

Section RuleFacts.
Variable RegExp_i : string -> Error + (string -> bool).

(** The compiled rules are the rules, one for one. *)
Lemma compile_rules_Forall2 (rules : list TagRule.t) (compiled : list CompiledRule) :
  compile_rules RegExp_i rules = inr compiled ->
  Forall2 (fun rule c => RegExp_i (TagRule.pattern rule) = inr (fst c)
                         /\ snd c = TagRule.tag rule) rules compiled.
Proof.
  revert compiled. induction rules as [|rule rules IH]; simpl; intros compiled H.
  - injection H as <-. constructor.
  - destruct (RegExp_i (TagRule.pattern rule)) as [e|regex] eqn:E; [discriminate|].
    destruct (compile_rules RegExp_i rules) as [e|rest]; [discriminate|].
    injection H as <-. constructor; auto.
Qed.

(** The tag that a pass gives a text comes from the first rule, in the
    order of [getTagRules], whose expression matches. *)
Lemma first_match_rule (d : Db) (compiled : list CompiledRule) (text : string) :
  compile_rules RegExp_i (getTagRules d) = inr compiled ->
  match first_match compiled text with
  | Some t =>
      exists rule regex,
        In rule (tag_rules d)
        /\ RegExp_i (TagRule.pattern rule) = inr regex
        /\ regex text = true
        /\ TagRule.tag rule = t
        /\ forall other regex',
             In other (tag_rules d) ->
             RegExp_i (TagRule.pattern other) = inr regex' ->
             regex' text = true ->
             rule_order rule other
  | None =>
      forall rule regex,
        In rule (tag_rules d) ->
        RegExp_i (TagRule.pattern rule) = inr regex ->
        regex text = false
  end.
Proof.
  intros C. apply compile_rules_Forall2 in C.
  destruct (getTagRules_sorted d) as [Sd Pm].
  destruct (first_match compiled text) as [t|] eqn:F.
  - apply first_match_Some in F as (l1 & regex & l2 & -> & M & N).
    apply Forall2_app_inv_r in C as (r1 & r2' & C1 & C2 & E).
    inversion C2 as [|rule c r2 l2' [P T] C3]; subst. simpl in P, T.
    exists rule, regex. repeat split; auto.
    + apply (Permutation_in _ Pm). rewrite E. apply in_or_app. simpl. auto.
    + intros other regex' I P' M'.
      apply (Permutation_in _ (Permutation_sym Pm)) in I. rewrite E in I.
      rewrite E in Sd. apply in_app_or in I as [I|[<-|I]].
      * exfalso. destruct (Forall2_In_l _ _ _ _ C1 I) as (c & J & Pc & _).
        pose proof (proj1 (List.Forall_forall _ _) N c J) as Nc. simpl in Nc.
        congruence.
      * unfold rule_order. lia.
      * apply StronglySorted_app_1_r in Sd. inversion Sd as [|? ? _ Hd]; subst.
        apply (proj1 (List.Forall_forall _ _) Hd other I).
  - apply first_match_None in F. intros rule regex I P.
    apply (Permutation_in _ (Permutation_sym Pm)) in I.
    destruct (Forall2_In_l _ _ _ _ C I) as (c & J & Pc & _).
    pose proof (proj1 (List.Forall_forall _ _) F c J) as Nc. simpl in Nc.
    congruence.
Qed.

Lemma transaction_columns_set_tag (tag : option string) (r : Transaction.t) :
  transaction_columns (set_tag tag r) = transaction_columns r.
Proof. reflexivity. Qed.

End RuleFacts.

(** X7.  Priority of the tag rules.  [getTagRules] lists the stored rules
    by priority, highest first, and by id within a priority.  After a pass
    of [applyTagRules] that returns, every row that was untagged keeps its
    columns and either carries the tag of a stored rule whose expression
    matches its text and which comes, in that order, before every other
    stored rule that matches, or is still untagged, and then no stored
    rule matches it. *)
Theorem applyTagRules_priority (RegExp_i : string -> Error + (string -> bool))
    (d d' : Db) (n : nat) :
  tbl_unique Transaction.transaction_id (transactions d) ->
  applyTagRules RegExp_i d = (Returned n, d') ->
  StronglySorted rule_order (getTagRules d)
  /\ getTagRules d ≡ₚ tag_rules d
  /\ forall r,
       In r (transactions d) ->
       Transaction.tag r = None ->
       exists r',
         tbl_find Transaction.transaction_id (Transaction.transaction_id r)
           (transactions d') = Some r'
         /\ transaction_columns r' = transaction_columns r
         /\ match Transaction.tag r' with
            | Some t =>
                exists rule regex,
                  In rule (tag_rules d)
                  /\ RegExp_i (TagRule.pattern rule) = inr regex
                  /\ regex (haystack r) = true
                  /\ TagRule.tag rule = t
                  /\ forall other regex',
                       In other (tag_rules d) ->
                       RegExp_i (TagRule.pattern other) = inr regex' ->
                       regex' (haystack r) = true ->
                       rule_order rule other
            | None =>
                forall rule regex,
                  In rule (tag_rules d) ->
                  RegExp_i (TagRule.pattern rule) = inr regex ->
                  regex (haystack r) = false
            end.
Proof.
  intros U H. destruct (getTagRules_sorted d) as [Sd Pm].
  split; [exact Sd|]. split; [exact Pm|].
  intros r I T. rewrite applyTagRules_eq in H by exact U.
  destruct (getTagRules d) as [|rule0 rules] eqn:ER.
  { injection H as _ <-. exists r. split; [now apply tbl_find_In|].
    split; [reflexivity|]. rewrite T. intros rule regex J.
    apply (Permutation_in _ (Permutation_sym Pm)) in J. destruct J. }
  destruct (getUntaggedTransactions d) as [|u l] eqn:EU.
  { exfalso.
    assert (J : In r (getUntaggedTransactions d)).
    { apply (Permutation_in _ (Permutation_sym (getUntaggedTransactions_Permutation d))).
      apply filter_In. split; [exact I|]. unfold is_untagged. now rewrite T. }
    rewrite EU in J. destruct J. }
  destruct (compile_rules RegExp_i (rule0 :: rules)) as [e|compiled] eqn:C;
    [discriminate|].
  injection H as _ <-. simpl.
  rewrite tbl_find_map by apply classify_key.
  rewrite (tbl_find_In _ _ _ U I). simpl.
  exists (classify compiled r). split; [reflexivity|].
  rewrite <- ER in C. pose proof (first_match_rule RegExp_i d compiled (haystack r) C) as F.
  unfold classify, is_untagged. rewrite T.
  destruct (first_match compiled (haystack r)) as [t|].
  - split; [reflexivity|]. exact F.
  - split; [reflexivity|]. rewrite T. exact F.
Qed.

Lemma applyTagRules_priority_witness :
  exists r',
    tbl_find Transaction.transaction_id "txn_1"
      (transactions (snd (applyTagRules literal_RegExp_i ledger_three_rules))) = Some r'
    /\ transaction_columns r' = txn_1 (85 # 2).
Proof.
  assert (U : tbl_unique Transaction.transaction_id (transactions ledger_three_rules)).
  { unfold tbl_unique. apply (bool_decide_unpack _). vm_compute. exact I. }
  destruct (applyTagRules_priority literal_RegExp_i ledger_three_rules
              (snd (applyTagRules literal_RegExp_i ledger_three_rules)) 1 U)
    as (_ & _ & F).
  { vm_compute. reflexivity. }
  destruct (F (transaction_inserted (txn_1 (85 # 2)))) as (r' & Fr & Cr & _).
  { vm_compute. auto. }
  { reflexivity. }
  exists r'. split; [exact Fr|exact Cr].
Defined.

(** ** Tag rules *)

Lemma List_filter_all {A} (f : A -> bool) (l : list A) :
  (forall x, In x l -> f x = true) -> List.filter f l = l.
Proof.
  induction l as [|x l IH]; simpl; intros H; [reflexivity|].
  rewrite (H x) by auto. f_equal. apply IH. auto.
Qed.

Lemma List_filter_none {A} (f : A -> bool) (l : list A) :
  (forall x, In x l -> f x = false) -> List.filter f l = [].
Proof.
  induction l as [|x l IH]; simpl; intros H; [reflexivity|].
  rewrite (H x) by auto. apply IH. auto.
Qed.

Lemma set_tag_rules_id (d : Db) : set_tag_rules (tag_rules d) (tag_rules_seq d) d = d.
Proof. now destruct d. Qed.

(** X8.  Tag rules and their ids.  [addTagRule] stores nothing and throws
    the ConfigError naming the pattern when the pattern does not compile.
    When it returns, the pattern compiles, the id returned is greater than
    the id of every stored rule, and the listed rules are the old ones and
    the new one.  Deleting that id reports a deletion and restores the
    former rules, but not the sequence: the next rule added takes a
    greater id still, so an id is never used twice.  Deleting an id that
    no rule holds reports no deletion and changes nothing. *)
Theorem addTagRule_deleteTagRule (RegExp_i : string -> Error + (string -> bool))
    (now pattern tag : string) (priority : Z) (d : Db) :
  Forall (fun r => (TagRule.id r <= tag_rules_seq d)%Z) (tag_rules d) ->
  (forall e, RegExp_i pattern = inl e ->
     addTagRule RegExp_i now pattern tag priority d = (Thrown (invalid_pattern pattern), d))
  /\ (forall id d1,
        addTagRule RegExp_i now pattern tag priority d = (Returned id, d1) ->
        (exists regex, RegExp_i pattern = inr regex)
        /\ (forall r, In r (tag_rules d) -> (TagRule.id r < id)%Z)
        /\ (forall r, In r (getTagRules d1) <->
                      In r (tag_rules d) \/ r = TagRule.mk id pattern tag priority now)
        /\ fst (deleteTagRule id d1) = Returned true
        /\ tag_rules (snd (deleteTagRule id d1)) = tag_rules d
        /\ (forall now' pattern' tag' priority' id' d3,
              addTagRule RegExp_i now' pattern' tag' priority'
                (snd (deleteTagRule id d1)) = (Returned id', d3) ->
              (id < id')%Z))
  /\ (forall id,
        (forall r, In r (tag_rules d) -> TagRule.id r <> id) ->
        deleteTagRule id d = (Returned false, d)).
Proof.
  intros B. split; [|split].
  - intros e E. unfold addTagRule. now rewrite E.
  - intros id d1 H. unfold addTagRule in H.
    destruct (RegExp_i pattern) as [e|regex] eqn:E; [discriminate|].
    unfold insertTagRule in H. injection H as <- <-.
    assert (L : forall r, In r (tag_rules d) -> (TagRule.id r < tag_rules_seq d + 1)%Z).
    { intros r I. pose proof (proj1 (List.Forall_forall _ _) B r I). simpl in *. lia. }
    split; [eauto|]. split; [exact L|]. split; [|split; [|split]].
    + intros r. destruct (getTagRules_sorted
                            (set_tag_rules
                               (tag_rules d ++
                                [TagRule.mk (tag_rules_seq d + 1) pattern tag priority now])
                               (tag_rules_seq d + 1) d)) as [_ Pm].
      simpl in Pm. split.
      * intros I. apply (Permutation_in _ Pm) in I.
        apply in_app_or in I as [I|[<-|[]]]; auto.
      * intros I. apply (Permutation_in _ (Permutation_sym Pm)).
        apply in_or_app. destruct I as [I| ->]; simpl; auto.
    + unfold deleteTagRule. simpl. f_equal. apply existsb_exists.
      eexists. split; [apply in_or_app; right; left; reflexivity|].
      simpl. apply Z.eqb_refl.
    + unfold deleteTagRule. simpl. rewrite List.filter_app. simpl.
      rewrite Z.eqb_refl. simpl. rewrite app_nil_r.
      apply List_filter_all. intros r I. apply negb_true_iff, Z.eqb_neq.
      specialize (L r I). lia.
    + intros now' pattern' tag' priority' id' d3 H. unfold addTagRule in H.
      destruct (RegExp_i pattern'); [discriminate|].
      unfold insertTagRule, deleteTagRule in H. simpl in H. injection H as <- _. lia.
  - intros id N. unfold deleteTagRule. f_equal.
    + f_equal. apply not_true_iff_false. intros X.
      apply existsb_exists in X as (r & I & E). apply Z.eqb_eq in E.
      exact (N r I E).
    + rewrite List_filter_all; [apply set_tag_rules_id|].
      intros r I. apply negb_true_iff, Z.eqb_neq. auto.
Qed.

Lemma addTagRule_deleteTagRule_witness :
  addTagRule sample_RegExp_i sample_now "(" "misc" 0 ledger_rules
  = (Thrown (invalid_pattern "("), ledger_rules)
  /\ (forall r, In r (tag_rules ledger_rules) -> (TagRule.id r < 2)%Z)
  /\ deleteTagRule 7 ledger_rules = (Returned false, ledger_rules).
Proof.
  assert (B : Forall (fun r => (TagRule.id r <= tag_rules_seq ledger_rules)%Z)
                (tag_rules ledger_rules)).
  { apply (bool_decide_unpack _). vm_compute. exact I. }
  destruct (addTagRule_deleteTagRule sample_RegExp_i sample_now "(" "misc" 0
              ledger_rules B) as (H1 & _ & H3).
  destruct (addTagRule_deleteTagRule sample_RegExp_i sample_now "coffee" "drinks" 0
              ledger_rules B) as (_ & H2 & _).
  split; [|split].
  - apply (H1 unterminated_group). reflexivity.
  - apply (H2 2%Z (snd (addTagRule sample_RegExp_i sample_now "coffee" "drinks" 0
                          ledger_rules))).
    reflexivity.
  - apply H3. intros r [<-|[]]. discriminate.
Defined.

(** ** Budgets *)

(** Under the key constraint the UPDATE of the rows holding a key and the
    upsert of the key write the same rows. *)
Lemma tbl_upsert_update {R} (key : R -> string) (k : string) (ins : R) (upd : R -> R)
    (rows : list R) :
  tbl_unique key rows ->
  tbl_upsert key k ins upd rows =
  match tbl_find key k rows with
  | Some _ => tbl_update key k upd rows
  | None => rows ++ [ins]
  end.
Proof.
  unfold tbl_unique, tbl_update. induction rows as [|r rows IH]; simpl; intros U;
    [reflexivity|].
  apply NoDup_cons in U as [N U].
  destruct (String.eqb_spec (key r) k) as [E|E].
  - f_equal. symmetry. erewrite map_ext_in; [apply map_id|].
    intros x I. simpl. destruct (String.eqb_spec (key x) k) as [E'|]; [|reflexivity].
    exfalso. apply N. apply list_elem_of_In. rewrite E, <- E'. now apply in_map.
  - rewrite IH by exact U. now destruct (tbl_find key k rows).
Qed.

Lemma tbl_upsert_In_other {R} (key : R -> string) (k : string) (ins : R) (upd : R -> R)
    (rows : list R) (b : R) :
  key ins = k -> (forall r, key (upd r) = key r) -> key b <> k ->
  In b (tbl_upsert key k ins upd rows) <-> In b rows.
Proof.
  intros Ki Ku N. induction rows as [|r rows IH]; simpl.
  - split; [|tauto]. intros [<-|[]]. contradiction.
  - destruct (String.eqb_spec (key r) k) as [E|E]; simpl.
    + split; intros [<-|I]; auto.
      * rewrite Ku in N. contradiction.
      * contradiction.
    + rewrite IH. tauto.
Qed.

Lemma getBudgets_In (d : Db) (b : Budget.t) : In b (getBudgets d) <-> In b (budgets d).
Proof.
  unfold getBudgets. split; apply Permutation_in;
    [|symmetry]; apply merge_sort_Permutation.
Qed.

Lemma upsertBudget_eq (now tag : string) (monthlyLimit alertThreshold : Q) (d : Db) :
  tbl_unique Budget.tag (budgets d) ->
  exists seq,
    upsertBudget now tag monthlyLimit alertThreshold d =
    (Returned tt,
     set_budgets
       (tbl_upsert Budget.tag tag
          (Budget.mk (budgets_seq d + 1) tag monthlyLimit alertThreshold now)
          (fun old => Budget.mk (Budget.id old) (Budget.tag old) monthlyLimit
                        alertThreshold (Budget.created_at old))
          (budgets d))
       seq d).
Proof.
  intros U. unfold upsertBudget. rewrite tbl_upsert_update by exact U.
  destruct (tbl_find Budget.tag tag (budgets d)); eauto.
Qed.

(** X9.  One budget per tag.  In a table where the tags differ,
    [setBudget] returns and leaves exactly one budget for its tag, with
    the limit given and the threshold given or else 0.9, whether or not
    the tag had a budget; the budgets of the other tags are as before.
    [deleteBudget] then reports a deletion and removes that budget alone,
    and a second deletion reports none and changes nothing. *)
Theorem setBudget_one_per_tag (now tag : string) (limit : Q) (alertThreshold : option Q)
    (d : Db) :
  tbl_unique Budget.tag (budgets d) ->
  exists d1 d2 b,
    setBudget now tag limit alertThreshold d = (Returned tt, d1)
    /\ tbl_unique Budget.tag (budgets d1)
    /\ In b (getBudgets d1)
    /\ Budget.tag b = tag
    /\ Budget.monthly_limit b = limit
    /\ Budget.alert_threshold b = default (9 # 10) alertThreshold
    /\ (forall b', In b' (getBudgets d1) -> Budget.tag b' = tag -> b' = b)
    /\ (forall b', Budget.tag b' <> tag ->
          (In b' (getBudgets d1) <-> In b' (getBudgets d)))
    /\ deleteBudget tag d1 = (Returned true, d2)
    /\ (forall b', In b' (getBudgets d2) <-> In b' (getBudgets d) /\ Budget.tag b' <> tag)
    /\ deleteBudget tag d2 = (Returned false, d2).
Proof.
  intros U. unfold setBudget.
  destruct (upsertBudget_eq now tag limit (default (9 # 10) alertThreshold) d U)
    as (seq & E).
  set (ins := Budget.mk (budgets_seq d + 1) tag limit (default (9 # 10) alertThreshold) now)
    in *.
  set (upd := fun old : Budget.t =>
                Budget.mk (Budget.id old) (Budget.tag old) limit
                  (default (9 # 10) alertThreshold) (Budget.created_at old)) in *.
  set (rows1 := tbl_upsert Budget.tag tag ins upd (budgets d)) in *.
  assert (U1 : tbl_unique Budget.tag rows1)
    by (apply tbl_unique_upsert; auto).
  assert (F1 : tbl_find Budget.tag tag rows1 =
               Some (match tbl_find Budget.tag tag (budgets d) with
                     | Some old => upd old
                     | None => ins
                     end))
    by (apply tbl_find_upsert_eq; auto).
  set (b := match tbl_find Budget.tag tag (budgets d) with
            | Some old => upd old
            | None => ins
            end) in *.
  exists (set_budgets rows1 seq d),
         (set_budgets (tbl_delete Budget.tag tag rows1) seq d), b.
  split; [exact E|]. split; [exact U1|].
  pose proof (tbl_find_key _ _ _ _ F1) as [Kb Ib].
  split; [apply getBudgets_In; exact Ib|]. split; [exact Kb|].
  split; [subst b; now destruct (tbl_find Budget.tag tag (budgets d))|].
  split; [subst b; now destruct (tbl_find Budget.tag tag (budgets d))|].
  split.
  { intros b' I K. apply getBudgets_In in I. simpl in I.
    eapply tbl_unique_In; eauto. congruence. }
  split.
  { intros b' N. rewrite !getBudgets_In. simpl.
    apply tbl_upsert_In_other; auto. }
  split.
  { unfold deleteBudget. simpl. rewrite tbl_count_unique by exact U1.
    now rewrite F1. }
  split.
  { intros b'. rewrite !getBudgets_In. simpl. unfold tbl_delete.
    rewrite filter_In, negb_true_iff, String.eqb_neq.
    split; intros [I N]; (split; [|exact N]).
    - exact (proj1 (tbl_upsert_In_other Budget.tag tag ins upd (budgets d) b'
                      eq_refl (fun _ => eq_refl) N) I).
    - exact (proj2 (tbl_upsert_In_other Budget.tag tag ins upd (budgets d) b'
                      eq_refl (fun _ => eq_refl) N) I). }
  assert (D : tbl_delete Budget.tag tag (tbl_delete Budget.tag tag rows1)
              = tbl_delete Budget.tag tag rows1)
    by (unfold tbl_delete; apply List_filter_idem).
  unfold deleteBudget, set_budgets. cbn [budgets budgets_seq]. rewrite D.
  rewrite tbl_count_unique by now apply tbl_unique_delete.
  now rewrite tbl_find_delete, String.eqb_refl.
Qed.

Lemma setBudget_one_per_tag_witness :
  exists d1 b,
    setBudget sample_now "coffee" 50 None ledger_budget = (Returned tt, d1)
    /\ In b (getBudgets d1)
    /\ Budget.tag b = "coffee"
    /\ Budget.monthly_limit b = 50
    /\ Budget.alert_threshold b = 9 # 10.
Proof.
  destruct (setBudget_one_per_tag sample_now "coffee" 50 None ledger_budget)
    as (d1 & d2 & b & E & _ & I & T & L & A & _).
  { unfold tbl_unique. apply (bool_decide_unpack _). vm_compute. exact I. }
  exists d1, b. auto.
Defined.

Section AlertFacts.
Variable strftime_Y_m : string -> option string.
Variable getCurrentMonth : string.

Lemma getBudgetStatuses_map (month : option string) (d : Db) :
  getBudgetStatuses strftime_Y_m getCurrentMonth month d =
  map (budget_status
         (new_Map (getSpendingByTagForMonth strftime_Y_m
                     (or_else month getCurrentMonth) d)))
    (getBudgets d).
Proof. unfold getBudgetStatuses. now destruct (getBudgets d). Qed.

Lemma round_thousandths_ge_1 (x : Q) : 1 <= x -> 1 <= round_thousandths x.
Proof.
  intros H. unfold round_thousandths, Math_round.
  assert (F : (Qfloor 1000 <= Qfloor (x * 1000 + (1 # 2)))%Z)
    by (apply Qfloor_resp_le; lra).
  change (Qfloor 1000) with 1000%Z in F.
  apply Qle_shift_div_l; [reflexivity|].
  change (1 * 1000) with (inject_Z 1000). now rewrite <- Zle_Qle.
Qed.

Lemma budget_status_over (M : gmap string Q) (b : Budget.t) :
  BudgetStatus.over_budget (budget_status M b) = true ->
  0 < Budget.monthly_limit b ->
  1 <= BudgetStatus.percent_used (budget_status M b).
Proof.
  unfold budget_status. simpl. intros O L.
  apply Qltb_lt in O. rewrite (proj2 (Qltb_lt _ _) L).
  apply round_thousandths_ge_1. apply Qle_shift_div_l; [exact L|]. lra.
Qed.

Lemma budget_status_no_limit (M : gmap string Q) (b : Budget.t) :
  Budget.monthly_limit b <= 0 ->
  BudgetStatus.percent_used (budget_status M b) == 0.
Proof.
  unfold budget_status. simpl. intros L.
  destruct (Qltb 0 (Budget.monthly_limit b)) eqn:B.
  - apply Qltb_lt in B. lra.
  - vm_compute. reflexivity.
Qed.

End AlertFacts.

(** X10.  [checkAlerts] returns the budget statuses whose rounded share
    of the limit has reached the threshold, and only those.  A budget
    with a positive limit that is over budget alerts whenever its
    threshold is at most 1.  A budget whose limit is zero or negative
    never alerts under a positive threshold, however much was spent. *)
Theorem checkAlerts_spec (strftime_Y_m : string -> option string)
    (getCurrentMonth : string) (month : option string) (d : Db) :
  let statuses := getBudgetStatuses strftime_Y_m getCurrentMonth month d in
  let alerts := checkAlerts strftime_Y_m getCurrentMonth month d in
  (forall s, In s alerts <->
             In s statuses
             /\ BudgetStatus.alert_threshold s <= BudgetStatus.percent_used s)
  /\ (forall s, In s statuses ->
        BudgetStatus.over_budget s = true ->
        0 < BudgetStatus.monthly_limit s ->
        BudgetStatus.alert_threshold s <= 1 ->
        In s alerts)
  /\ (forall s, In s statuses ->
        BudgetStatus.monthly_limit s <= 0 ->
        0 < BudgetStatus.alert_threshold s ->
        ~ In s alerts).
Proof.
  cbv zeta.
  assert (A : forall s,
            In s (checkAlerts strftime_Y_m getCurrentMonth month d) <->
            In s (getBudgetStatuses strftime_Y_m getCurrentMonth month d)
            /\ BudgetStatus.alert_threshold s <= BudgetStatus.percent_used s).
  { intros s. unfold checkAlerts. rewrite filter_In, Qle_bool_iff. reflexivity. }
  split; [exact A|]. split.
  - intros s I O L T. apply A. split; [exact I|].
    rewrite getBudgetStatuses_map in I. apply in_map_iff in I as (b & <- & _).
    pose proof (budget_status_over _ b O L). lra.
  - intros s I L T J. apply A in J as [_ J].
    rewrite getBudgetStatuses_map in I. apply in_map_iff in I as (b & <- & _).
    pose proof (budget_status_no_limit
                  (new_Map (getSpendingByTagForMonth strftime_Y_m
                              (or_else month getCurrentMonth) d)) b L) as Z.
    lra.
Qed.

Lemma checkAlerts_spec_witness :
  In status_over_budget
    (checkAlerts sample_strftime_Y_m "2024-07" (Some "2024-06") ledger_over_budget).
Proof.
  destruct (checkAlerts_spec sample_strftime_Y_m "2024-07" (Some "2024-06")
              ledger_over_budget) as (_ & H & _).
  apply H.
  - vm_compute. left. reflexivity.
  - reflexivity.
  - reflexivity.
  - discriminate.
Defined.

(** ** Search *)

Lemma trimStart_all_white_space (s : string) :
  all_white_space s = true -> trimStart s = "".
Proof.
  induction s as [|c s IH]; simpl; [reflexivity|].
  intros H. apply andb_true_iff in H as [-> H]. auto.
Qed.

Lemma trimStart_first (s : string) :
  all_white_space s = false ->
  exists c rest, trimStart s = String c rest /\ is_white_space c = false.
Proof.
  induction s as [|c s IH]; simpl; [discriminate|].
  destruct (is_white_space c) eqn:W; simpl; eauto.
Qed.

Lemma trimEnd_first (c : ascii) (rest : string) :
  is_white_space c = false -> exists rest', trimEnd (String c rest) = String c rest'.
Proof.
  intros W. cbn [trimEnd]. rewrite W. destruct (trimEnd rest); eauto.
Qed.

Lemma split_spaces_from_first (s cur : string) (in_space : bool) :
  cur <> "" ->
  exists piece pieces, split_spaces_from s cur in_space = piece :: pieces /\ piece <> "".
Proof.
  revert cur in_space. induction s as [|c s IH]; intros cur in_space N; simpl.
  - eauto.
  - destruct (is_white_space c).
    + destruct in_space; eauto.
    + apply IH. destruct cur; simpl; discriminate.
Qed.

Lemma fts_terms_not_nil (query : string) :
  all_white_space query = false -> exists term terms, fts_terms query = term :: terms.
Proof.
  intros H. unfold fts_terms, trim, split_spaces.
  destruct (trimStart_first query H) as (c & rest & -> & W).
  destruct (trimEnd_first c rest W) as (rest' & ->).
  cbn [split_spaces_from]. rewrite W.
  destruct (split_spaces_from_first rest' ("" ++ String c "") false) as (p & ps & -> & N);
    [discriminate|].
  cbn [map filter_Boolean]. unfold filter_Boolean. simpl.
  destruct (String.eqb_spec p ""); [contradiction|]. eauto.
Qed.

(** X11.  [searchTransactions] answers every query as [searchFts] does:
    its guard against an empty query changes no result.  A query made of
    white space only (or empty) gives the empty list without a question
    to the engine; any other query has at least one term and the answer
    is the engine's answer, or error, for the quoted terms joined by OR. *)
Theorem searchTransactions_spec
    (fts5_select : string -> Z -> Db -> Error + list Transaction.t)
    (query : string) (limit : Z) (d : Db) :
  searchTransactions fts5_select query limit d = searchFts fts5_select query limit d
  /\ (all_white_space query = true ->
      searchTransactions fts5_select query limit d = inr [])
  /\ (all_white_space query = false ->
      exists term terms,
        fts_terms query = term :: terms
        /\ searchTransactions fts5_select query limit d
           = fts5_select (fts_query_of (term :: terms)) limit d).
Proof.
  assert (E : searchTransactions fts5_select query limit d
              = searchFts fts5_select query limit d).
  { unfold searchTransactions, searchFts, fts_terms.
    destruct (String.eqb_spec (trim query) "") as [T|T]; [|reflexivity].
    rewrite T. reflexivity. }
  split; [exact E|]. split.
  - intros W. unfold searchTransactions, trim.
    rewrite trimStart_all_white_space by exact W. reflexivity.
  - intros W. destruct (fts_terms_not_nil query W) as (term & terms & T).
    exists term, terms. split; [exact T|].
    rewrite E. unfold searchFts. now rewrite T.
Qed.

Lemma searchTransactions_spec_witness :
  searchTransactions fts5_nothing "   " 50 ledger_rules = inr []
  /\ exists term terms,
       fts_terms sample_query = term :: terms
       /\ searchTransactions fts5_nothing sample_query 50 ledger_rules
          = fts5_nothing (fts_query_of (term :: terms)) 50 ledger_rules.
Proof.
  destruct (searchTransactions_spec fts5_nothing "   " 50 ledger_rules) as (_ & H1 & _).
  destruct (searchTransactions_spec fts5_nothing sample_query 50 ledger_rules)
    as (_ & _ & H2).
  split; [apply H1; reflexivity|apply H2; reflexivity].
Defined.

(** ** Deleting an item *)

Lemma List_filter_Permutation {A} (f : A -> bool) (l l' : list A) :
  l ≡ₚ l' -> List.filter f l ≡ₚ List.filter f l'.
Proof.
  induction 1 as [|x l l' _ IH|x y l|l l' l'' _ IH1 _ IH2]; simpl.
  - reflexivity.
  - destruct (f x); [now constructor|exact IH].
  - destruct (f x), (f y); try reflexivity. apply perm_swap.
  - now rewrite IH1.
Qed.

Lemma List_filter_length_negb {A} (f : A -> bool) (l : list A) :
  (length (List.filter f l) + length (List.filter (fun x => negb (f x)) l)
   = length l)%nat.
Proof.
  induction l as [|x l IH]; simpl; [reflexivity|].
  destruct (f x); simpl; lia.
Qed.

Lemma string_in_In (x : string) (xs : list string) :
  string_in x xs = true <-> In x xs.
Proof.
  unfold string_in. rewrite existsb_exists. split.
  - intros (y & I & E). apply String.eqb_eq in E. now subst.
  - intros I. exists x. split; [exact I|apply String.eqb_refl].
Qed.

Lemma string_in_Permutation (x : string) (l l' : list string) :
  l ≡ₚ l' -> string_in x l = string_in x l'.
Proof.
  intros Pm. destruct (string_in x l') eqn:E.
  - apply string_in_In. apply string_in_In in E.
    apply (Permutation_in _ (Permutation_sym Pm) E).
  - apply not_true_iff_false. intros H. apply string_in_In in H.
    apply (Permutation_in _ Pm) in H. apply string_in_In in H. congruence.
Qed.

Lemma set_transactions_filter_id (f : Transaction.t -> bool) (d : Db) :
  (forall t, In t (transactions d) -> f t = true) ->
  set_transactions (List.filter f (transactions d)) d = d.
Proof. intros H. rewrite List_filter_all by exact H. apply set_transactions_id. Qed.

(** [removeTransactionsByAccount], in one equation. *)
Lemma removeTransactionsByAccount_eq (accountIds : list string) (d : Db) :
  removeTransactionsByAccount accountIds d =
  (Returned
     (length (List.filter (fun t => string_in (Transaction.account_id t) accountIds)
                (transactions d))),
   set_transactions
     (List.filter (fun t => negb (string_in (Transaction.account_id t) accountIds))
        (transactions d)) d).
Proof.
  unfold removeTransactionsByAccount. destruct accountIds as [|a l].
  - rewrite List_filter_none by reflexivity.
    rewrite set_transactions_filter_id by reflexivity. reflexivity.
  - destruct (List.filter (fun t => string_in (Transaction.account_id t) (a :: l))
                (transactions d)) as [|t ts] eqn:F; [|reflexivity].
    cbn [length Nat.ltb Nat.leb]. rewrite set_transactions_filter_id; [reflexivity|].
    intros t I. now rewrite (filter_nil_Forall _ _ F t I).
Qed.

(** [removeAccountsByItem], when no transaction refers to an account of
    the item. *)
Lemma removeAccountsByItem_eq (itemId : string) (d : Db) :
  let ids :=
    map Account.account_id
      (List.filter (fun a => String.eqb (Account.item_id a) itemId) (accounts d)) in
  removeAccountsByItem itemId d =
  if existsb (fun t => string_in (Transaction.account_id t) ids) (transactions d)
  then (match ids with [] => Returned ids | _ => Thrown foreign_key_failed end, d)
  else (Returned ids,
        set_accounts
          (List.filter (fun a => negb (String.eqb (Account.item_id a) itemId))
             (accounts d)) d).
Proof.
  cbv zeta. unfold removeAccountsByItem.
  destruct (List.filter (fun a => String.eqb (Account.item_id a) itemId) (accounts d))
    as [|a l] eqn:F; cbn [map].
  - rewrite List_filter_all.
    + rewrite set_accounts_id. now destruct (existsb _ (transactions d)).
    + intros x I. now rewrite (filter_nil_Forall _ _ F x I).
  - reflexivity.
Qed.

Lemma item_refs_existsb (itemId : string) (d : Db) :
  existsb
    (fun t =>
       string_in (Transaction.account_id t)
         (map Account.account_id
            (List.filter (fun a => String.eqb (Account.item_id a) itemId) (accounts d))))
    (transactions d) = true <->
  exists t acc,
    In t (transactions d) /\ In acc (accounts d)
    /\ Account.item_id acc = itemId
    /\ Transaction.account_id t = Account.account_id acc.
Proof.
  rewrite existsb_exists. split.
  - intros (t & I & S). apply string_in_In in S. apply in_map_iff in S as (acc & E & J).
    apply filter_In in J as [J K]. apply String.eqb_eq in K. exists t, acc. auto.
  - intros (t & acc & I & J & K & E). exists t. split; [exact I|].
    apply string_in_In. rewrite E. apply in_map. apply filter_In.
    split; [exact J|]. now apply String.eqb_eq.
Qed.

(** X12.  The two deletions by item of db.ts.
    [removeTransactionsByAccount] never throws, deletes exactly the
    transactions of the listed accounts and returns how many rows it
    deleted.  [removeAccountsByItem] is stopped by the REFERENCES
    constraint: when a stored transaction refers to an account of the
    item it throws the foreign-key error and deletes nothing; when none
    does, it returns the ids of the item's accounts, in table order, and
    deletes exactly those accounts. *)
Theorem remove_by_item_spec (itemId : string) (accountIds : list string) (d : Db) :
  (exists n d',
     removeTransactionsByAccount accountIds d = (Returned n, d')
     /\ (n + length (transactions d') = length (transactions d))%nat
     /\ (forall t, In t (transactions d') <->
                   In t (transactions d) /\ ~ In (Transaction.account_id t) accountIds)
     /\ accounts d' = accounts d)
  /\ ((exists t acc,
         In t (transactions d) /\ In acc (accounts d)
         /\ Account.item_id acc = itemId
         /\ Transaction.account_id t = Account.account_id acc) ->
      removeAccountsByItem itemId d = (Thrown foreign_key_failed, d))
  /\ ((forall t acc,
         In t (transactions d) -> In acc (accounts d) ->
         Account.item_id acc = itemId ->
         Transaction.account_id t <> Account.account_id acc) ->
      exists d',
        removeAccountsByItem itemId d =
        (Returned
           (map Account.account_id
              (List.filter (fun a => String.eqb (Account.item_id a) itemId) (accounts d))),
         d')
        /\ (forall acc, In acc (accounts d') <->
                        In acc (accounts d) /\ Account.item_id acc <> itemId)
        /\ transactions d' = transactions d).
Proof.
  split; [|split].
  - rewrite removeTransactionsByAccount_eq. eexists. eexists.
    split; [reflexivity|]. simpl. split; [apply List_filter_length_negb|].
    split; [|reflexivity].
    intros t. rewrite filter_In, negb_true_iff, <- not_true_iff_false, string_in_In.
    reflexivity.
  - intros H. pose proof (removeAccountsByItem_eq itemId d) as E. cbv zeta in E.
    rewrite E. rewrite (proj2 (item_refs_existsb itemId d) H).
    destruct H as (t & acc & _ & J & K & _).
    destruct (List.filter (fun a => String.eqb (Account.item_id a) itemId) (accounts d))
      as [|a l] eqn:F; [|reflexivity].
    exfalso. pose proof (filter_nil_Forall _ _ F acc J) as N. simpl in N.
    apply String.eqb_neq in N. contradiction.
  - intros H. pose proof (removeAccountsByItem_eq itemId d) as E. cbv zeta in E.
    rewrite E.
    destruct (existsb _ (transactions d)) eqn:X.
    + exfalso. apply item_refs_existsb in X as (t & acc & I & J & K & L).
      exact (H t acc I J K L).
    + eexists. split; [reflexivity|]. simpl. split; [|reflexivity].
      intros acc. rewrite filter_In, negb_true_iff, String.eqb_neq. reflexivity.
Qed.

Lemma remove_by_item_spec_witness :
  removeAccountsByItem "item_1" ledger_rules = (Thrown foreign_key_failed, ledger_rules)
  /\ exists d',
       removeAccountsByItem "item_1" ledger_1 = (Returned ["acc_1"], d')
       /\ transactions d' = transactions ledger_1.
Proof.
  split.
  - destruct (remove_by_item_spec "item_1" [] ledger_rules) as (_ & H & _).
    apply H.
    exists (transaction_inserted txn_uber),
           (account_inserted sample_now (acc_1 "item_1" 1000)).
    vm_compute. auto.
  - destruct (remove_by_item_spec "item_1" [] ledger_1) as (_ & _ & H).
    destruct H as (d' & E & _ & T).
    { intros t acc []. }
    exists d'. split; [exact E|exact T].
Defined.

(** ** The unlink command *)

Lemma getAccounts_Permutation (d : Db) : getAccounts d ≡ₚ accounts d.
Proof. apply merge_sort_Permutation. Qed.

(** The ids that [unlink] collects from [getAccounts] and the ids that
    [removeAccountsByItem] reads from the table are the same ids. *)
Lemma unlink_ids_Permutation (itemId : string) (d : Db) :
  map Account.account_id
    (List.filter (fun a => String.eqb (Account.item_id a) itemId) (getAccounts d))
  ≡ₚ map Account.account_id
       (List.filter (fun a => String.eqb (Account.item_id a) itemId) (accounts d)).
Proof.
  apply Permutation_map, List_filter_Permutation, getAccounts_Permutation.
Qed.

(** X13.  The cascade of [unlink].  An identifier that is neither the id
    nor the mask of a stored account gives the ConfigError naming it and
    changes nothing.  Otherwise the command returns; the order of its
    deletions (transactions, then accounts) never runs into the
    REFERENCES constraint; afterwards no account of the item, no
    transaction of those accounts and no stored cursor of the item is
    left, everything else is as before, and the counts reported are the
    numbers of accounts and transactions deleted. *)
Theorem unlink_cascade (identifier : string) (d : Db) :
  (getAccountByIdOrMask identifier d = None ->
   (forall acc, In acc (accounts d) ->
      Account.account_id acc <> identifier /\ Account.mask acc <> Some identifier)
   /\ unlink identifier d = (Thrown (account_not_found identifier), d))
  /\ (forall a,
        getAccountByIdOrMask identifier d = Some a ->
        In a (accounts d)
        /\ (Account.account_id a = identifier \/ Account.mask a = Some identifier)
        /\ exists r d',
             unlink identifier d = (Returned r, d')
             /\ UnlinkResponse.item_id r = Account.item_id a
             /\ (forall acc, In acc (accounts d') <->
                   In acc (accounts d) /\ Account.item_id acc <> Account.item_id a)
             /\ (forall t, In t (transactions d') <->
                   In t (transactions d)
                   /\ ~ exists acc, In acc (accounts d)
                                    /\ Account.item_id acc = Account.item_id a
                                    /\ Account.account_id acc = Transaction.account_id t)
             /\ getSyncState (Account.item_id a) d' = None
             /\ (forall other, other <> Account.item_id a ->
                   getSyncState other d' = getSyncState other d)
             /\ (UnlinkResponse.accounts r + length (accounts d')
                 = length (accounts d))%nat
             /\ (UnlinkResponse.transactions r + length (transactions d')
                 = length (transactions d))%nat
             /\ tag_rules d' = tag_rules d
             /\ budgets d' = budgets d).
Proof.
  unfold getAccountByIdOrMask. split.
  - intros N. split.
    + intros acc I. pose proof (find_none _ _ N acc I) as F. unfold id_or_mask in F.
      apply orb_false_iff in F as [F1 F2]. apply String.eqb_neq in F1.
      split; [exact F1|]. intros M. rewrite M in F2.
      now rewrite String.eqb_refl in F2.
    + unfold unlink, bind, gets, getAccountByIdOrMask. now rewrite N.
  - intros a F. pose proof (find_some _ _ F) as [I M]. split; [exact I|]. split.
    { unfold id_or_mask in M. apply orb_true_iff in M as [M|M].
      - left. now apply String.eqb_eq.
      - right. destruct (Account.mask a) as [m|]; [|discriminate].
        apply String.eqb_eq in M. now subst. }
    set (itemId := Account.item_id a).
    set (ids := map Account.account_id
                  (List.filter (fun x => String.eqb (Account.item_id x) itemId)
                     (accounts d))).
    set (accountIds := map Account.account_id
                         (List.filter (fun x => String.eqb (Account.item_id x) itemId)
                            (getAccounts d))).
    assert (Pm : accountIds ≡ₚ ids) by apply unlink_ids_Permutation.
    set (rows1 := List.filter
                    (fun t => negb (string_in (Transaction.account_id t) accountIds))
                    (transactions d)).
    assert (X : existsb (fun t => string_in (Transaction.account_id t) ids) rows1 = false).
    { apply not_true_iff_false. intros X. apply existsb_exists in X as (t & J & S).
      apply filter_In in J as [_ J]. apply negb_true_iff in J.
      rewrite (string_in_Permutation _ _ _ Pm) in J. congruence. }
    assert (E : unlink identifier d =
                (Returned
                   (UnlinkResponse.mk itemId (length accountIds)
                      (length (List.filter
                                 (fun t => string_in (Transaction.account_id t) accountIds)
                                 (transactions d)))),
                 set_sync_state (tbl_delete SyncState.item_id itemId (sync_state d))
                   (set_accounts
                      (List.filter
                         (fun x => negb (String.eqb (Account.item_id x) itemId))
                         (accounts d))
                      (set_transactions rows1 d)))).
    { unfold unlink, bind, gets, getAccountByIdOrMask. rewrite F.
      fold itemId. fold accountIds.
      rewrite removeTransactionsByAccount_eq. fold rows1.
      pose proof (removeAccountsByItem_eq itemId (set_transactions rows1 d)) as R.
      cbv zeta in R. cbn [accounts transactions set_transactions] in R.
      fold ids in R. rewrite X in R. rewrite R. reflexivity. }
    eexists. eexists. split; [exact E|]. cbn.
    split; [reflexivity|]. split.
    { intros acc. rewrite filter_In, negb_true_iff, String.eqb_neq. reflexivity. }
    split.
    { intros t. unfold rows1. rewrite filter_In, negb_true_iff, <- not_true_iff_false.
      rewrite (string_in_Permutation _ _ _ Pm), string_in_In. unfold ids.
      split; intros [J N]; (split; [exact J|]); intros C; apply N.
      - destruct C as (acc & Ia & Ka & Ea). rewrite <- Ea. apply in_map.
        apply filter_In. split; [exact Ia|]. now apply String.eqb_eq.
      - apply in_map_iff in C as (acc & Ea & Ia). apply filter_In in Ia as [Ia Ka].
        apply String.eqb_eq in Ka. eauto. }
    split.
    { unfold getSyncState. cbn. now rewrite tbl_find_delete, String.eqb_refl. }
    split.
    { intros other N. unfold getSyncState. cbn. rewrite tbl_find_delete.
      apply String.eqb_neq in N. now rewrite N. }
    split.
    { rewrite (Permutation_length Pm). unfold ids. rewrite length_map.
      apply List_filter_length_negb. }
    split; [apply List_filter_length_negb|]. split; reflexivity.
Qed.

Lemma unlink_cascade_witness :
  unlink "9999" ledger_rules = (Thrown (account_not_found "9999"), ledger_rules)
  /\ exists r d',
       unlink "1234" ledger_rules = (Returned r, d')
       /\ UnlinkResponse.item_id r = "item_1"
       /\ getSyncState "item_1" d' = None.
Proof.
  split.
  - destruct (unlink_cascade "9999" ledger_rules) as [H _].
    apply H. reflexivity.
  - destruct (unlink_cascade "1234" ledger_rules) as [_ H].
    destruct (H (account_inserted sample_now (acc_1 "item_1" 1000)) eq_refl)
      as (_ & _ & r & d' & E & It & _ & _ & G & _).
    exists r, d'. auto.
Defined.

(** ** Rows made from the feed *)

(** X14.  The row that [mapPlaidTransaction] and the INSERT of
    [upsertTransactions] make of an upstream transaction.  It carries no
    tag; it is pending exactly when the upstream transaction is, and
    income exactly when the upstream amount is negative.  Its name column
    already holds the merchant name when that is neither null nor empty,
    so its display name is its name column, and the upstream description
    is stored only for a transaction without a merchant name: the text
    that the tag rules and [grepTransactions] test is then that
    description, and otherwise the merchant name twice. *)
Theorem mapPlaidTransaction_row (t : PlaidTransaction.t) :
  let r := transaction_inserted (mapPlaidTransaction t) in
  transaction_columns r = mapPlaidTransaction t
  /\ Transaction.tag r = None
  /\ Transaction.isPending r = PlaidTransaction.pending t
  /\ (Transaction.isIncome r = true <-> PlaidTransaction.amount t < 0)
  /\ Transaction.displayName r = Transaction.name r
  /\ Transaction.name r
     = or_else (PlaidTransaction.merchant_name t) (PlaidTransaction.name t)
  /\ haystack r
     = match truthy_string (PlaidTransaction.merchant_name t) with
       | Some m => (m ++ " " ++ m)%string
       | None => PlaidTransaction.name t
       end.
Proof.
  cbv zeta. split; [apply transaction_columns_inserted|].
  split; [reflexivity|]. split.
  { unfold Transaction.isPending. simpl. now destruct (PlaidTransaction.pending t). }
  split; [apply Qltb_lt|].
  unfold Transaction.displayName, haystack, truthy_string, or_else. simpl.
  destruct (PlaidTransaction.merchant_name t) as [m|]; simpl.
  - destruct (String.eqb_spec m "") as [->|N]; simpl.
    + repeat split. destruct (String.eqb_spec (PlaidTransaction.name t) "") as [->|N];
        reflexivity.
    + apply String.eqb_neq in N. rewrite N. simpl. repeat split.
  - repeat split. destruct (String.eqb_spec (PlaidTransaction.name t) "") as [->|N];
      reflexivity.
Qed.

Lemma mapPlaidTransaction_row_witness :
  Transaction.isIncome (transaction_inserted (mapPlaidTransaction (plaid_txn "txn_3" (-20))))
  = true.
Proof.
  apply (proj1 (proj2 (proj2 (proj2 (mapPlaidTransaction_row (plaid_txn "txn_3" (-20))))))).
  reflexivity.
Defined.

(** ** The net report *)

Lemma net_add_negative (k : option string) (a : Q)
    (acc : list (option string * (Q * Q))) :
  map (fun g => (fst g, fst (snd g))) (net_add k a acc)
  = bucket_add k (negative_part a) (map (fun g => (fst g, fst (snd g))) acc).
Proof.
  induction acc as [|[k' [n p]] acc IH]; simpl; [reflexivity|].
  destruct (decide (k' = k)); simpl; [reflexivity|]. now rewrite IH.
Qed.

Lemma net_add_positive (k : option string) (a : Q)
    (acc : list (option string * (Q * Q))) :
  map (fun g => (fst g, snd (snd g))) (net_add k a acc)
  = bucket_add k (positive_part a) (map (fun g => (fst g, snd (snd g))) acc).
Proof.
  induction acc as [|[k' [n p]] acc IH]; simpl; [reflexivity|].
  destruct (decide (k' = k)); simpl; [reflexivity|]. now rewrite IH.
Qed.

Section NetFacts.
Variable strftime_Y_m : string -> option string.

Lemma net_groups_negative (rows : list Transaction.t) :
  map (fun g => (fst g, fst (snd g))) (net_groups strftime_Y_m rows)
  = group_sum (fun r => strftime_Y_m (Transaction.date r))
      (fun r => negative_part (Transaction.amount r)) rows.
Proof.
  unfold net_groups, group_sum.
  change (@nil (option string * Q))
    with (map (fun g : option string * (Q * Q) => (fst g, fst (snd g))) []).
  generalize (@nil (option string * (Q * Q))).
  induction rows as [|r rows IH]; intros acc; simpl; [reflexivity|].
  rewrite IH. now rewrite net_add_negative.
Qed.

Lemma net_groups_positive (rows : list Transaction.t) :
  map (fun g => (fst g, snd (snd g))) (net_groups strftime_Y_m rows)
  = group_sum (fun r => strftime_Y_m (Transaction.date r))
      (fun r => positive_part (Transaction.amount r)) rows.
Proof.
  unfold net_groups, group_sum.
  change (@nil (option string * Q))
    with (map (fun g : option string * (Q * Q) => (fst g, snd (snd g))) []).
  generalize (@nil (option string * (Q * Q))).
  induction rows as [|r rows IH]; intros acc; simpl; [reflexivity|].
  rewrite IH. now rewrite net_add_positive.
Qed.

End NetFacts.

Lemma assoc_In_NoDup {K V : Type} `{EqDecision K} (l : list (K * V)) (k : K) (v : V) :
  NoDup (map fst l) -> In (k, v) l -> assoc k l = Some v.
Proof.
  induction l as [|[k' v'] l IH]; simpl; [tauto|].
  intros N I. apply NoDup_cons in N as [N1 N2].
  destruct I as [E|I].
  - injection E as -> ->. now rewrite decide_True.
  - destruct (decide (k' = k)) as [->|_]; [|auto].
    exfalso. apply N1. apply list_elem_of_In.
    change k with (fst (k, v)). now apply in_map.
Qed.

Lemma fold_left_Qplus_from (vals : list Q) (a : Q) :
  fold_left Qplus vals a == a + fold_left Qplus vals 0.
Proof.
  revert a. induction vals as [|v vals IH]; intros a; simpl; [lra|].
  rewrite (IH (a + v)), (IH (0 + v)). lra.
Qed.

Lemma sum_amounts_cons (r : Transaction.t) (rows : list Transaction.t) :
  sum_amounts (r :: rows) == Transaction.amount r + sum_amounts rows.
Proof.
  unfold sum_amounts. rewrite <- !fold_left_amounts. simpl.
  rewrite fold_left_Qplus_from. lra.
Qed.

Lemma sum_negative_part (rows : list Transaction.t) :
  fold_left Qplus (map (fun r => negative_part (Transaction.amount r)) rows) 0
  == sum_amounts (List.filter (fun r => Qltb (Transaction.amount r) 0) rows)
  /\ sum_amounts (List.filter (fun r => Qltb (Transaction.amount r) 0) rows) <= 0.
Proof.
  induction rows as [|r rows [IH1 IH2]]; simpl.
  - split; [reflexivity|]. unfold sum_amounts. simpl. lra.
  - rewrite fold_left_Qplus_from, IH1. unfold negative_part.
    destruct (Qltb (Transaction.amount r) 0) eqn:N.
    + rewrite sum_amounts_cons. apply Qltb_lt in N. split; lra.
    + split; [lra|exact IH2].
Qed.

Lemma sum_positive_part (rows : list Transaction.t) :
  fold_left Qplus (map (fun r => positive_part (Transaction.amount r)) rows) 0
  == sum_amounts (List.filter (fun r => Qltb 0 (Transaction.amount r)) rows)
  /\ 0 <= sum_amounts (List.filter (fun r => Qltb 0 (Transaction.amount r)) rows).
Proof.
  induction rows as [|r rows [IH1 IH2]]; simpl.
  - split; [reflexivity|]. unfold sum_amounts. simpl. lra.
  - rewrite fold_left_Qplus_from, IH1. unfold positive_part.
    destruct (Qltb 0 (Transaction.amount r)) eqn:N.
    + rewrite sum_amounts_cons. apply Qltb_lt in N. split; lra.
    + split; [lra|exact IH2].
Qed.


Lemma assoc_Some_In {K V : Type} `{EqDecision K} (l : list (K * V)) (k : K) (v : V) :
  assoc k l = Some v -> In (k, v) l.
Proof.
  induction l as [|[k' v'] l IH]; simpl; [discriminate|].
  destruct (decide (k' = k)) as [->|_]; [intros [= ->]; auto|auto].
Qed.



Section NetReportFacts.
Variable strftime_Y_m : string -> option string.

(** A group of [getMonthlyNet]: the month has rows, and the two sums are
    those of its negative and of its positive amounts. *)
Lemma net_groups_entry (rows : list Transaction.t) (k : option string) (n p : Q) :
  In (k, (n, p)) (net_groups strftime_Y_m rows) ->
  let grp :=
    List.filter (fun r => bool_decide (strftime_Y_m (Transaction.date r) = k)) rows in
  grp <> []
  /\ n == sum_amounts (List.filter (fun r => Qltb (Transaction.amount r) 0) grp)
  /\ n <= 0
  /\ p == sum_amounts (List.filter (fun r => Qltb 0 (Transaction.amount r)) grp)
  /\ 0 <= p.
Proof.
  intros I grp.
  assert (In (k, n) (group_sum (fun r => strftime_Y_m (Transaction.date r))
                       (fun r => negative_part (Transaction.amount r)) rows)) as In_n.
  { rewrite <- net_groups_negative.
    apply (in_map (fun g : option string * (Q * Q) => (fst g, fst (snd g))) _ _ I). }
  assert (In (k, p) (group_sum (fun r => strftime_Y_m (Transaction.date r))
                       (fun r => positive_part (Transaction.amount r)) rows)) as In_p.
  { rewrite <- net_groups_positive.
    apply (in_map (fun g : option string * (Q * Q) => (fst g, snd (snd g))) _ _ I). }
  apply assoc_In_NoDup in In_n; [|apply group_sum_NoDup].
  apply assoc_In_NoDup in In_p; [|apply group_sum_NoDup].
  unfold group_sum in In_n, In_p.
  rewrite assoc_group_sum_from, sum_from_None in In_n.
  rewrite assoc_group_sum_from, sum_from_None in In_p.
  fold grp in In_n, In_p. simpl assoc in *.
  destruct (sum_negative_part grp) as [N1 N2].
  destruct (sum_positive_part grp) as [P1 P2].
  assert (G : grp <> []
              /\ n = fold_left Qplus
                       (map (fun r => negative_part (Transaction.amount r)) grp) 0
              /\ p = fold_left Qplus
                       (map (fun r => positive_part (Transaction.amount r)) grp) 0).
  { destruct grp as [|r grp']; [discriminate|].
    injection In_n as <-. injection In_p as <-. split; [discriminate|]. split; reflexivity. }
  destruct G as (G & -> & ->).
  split; [exact G|]. split; [exact N1|]. split; [lra|]. split; [exact P1|lra].
Qed.

Lemma net_groups_complete (rows : list Transaction.t) (r : Transaction.t) :
  In r rows ->
  exists n p, In (strftime_Y_m (Transaction.date r), (n, p)) (net_groups strftime_Y_m rows).
Proof.
  intros I.
  set (k := strftime_Y_m (Transaction.date r)).
  destruct (assoc k (group_sum (fun r => strftime_Y_m (Transaction.date r))
                       (fun r => negative_part (Transaction.amount r)) rows))
    as [n|] eqn:A.
  - apply assoc_Some_In in A. rewrite <- net_groups_negative in A.
    apply in_map_iff in A as ([k' [n' p']] & E & J). simpl in E.
    injection E as -> ->. eauto.
  - exfalso. unfold group_sum in A.
    rewrite assoc_group_sum_from, sum_from_None in A. simpl assoc in A.
    assert (J : In r (List.filter
                        (fun x => bool_decide (strftime_Y_m (Transaction.date x) = k))
                        rows)).
    { apply filter_In. split; [exact I|]. now apply bool_decide_eq_true. }
    destruct (List.filter _ rows); [destruct J|discriminate].
Qed.

End NetReportFacts.



(** ** The time of the last sync *)

Lemma getLastSyncTime_fold (rows : list SyncState.t) (best : option string) :
  match
    fold_left
      (fun best s =>
         match best with
         | None => Some (SyncState.last_synced_at s)
         | Some b =>
             if String.leb b (SyncState.last_synced_at s)
             then Some (SyncState.last_synced_at s) else Some b
         end)
      rows best
  with
  | None => best = None /\ rows = []
  | Some t =>
      (best = Some t \/ exists s, In s rows /\ SyncState.last_synced_at s = t)
      /\ (forall b, best = Some b -> string_le b t)
      /\ (forall s, In s rows -> string_le (SyncState.last_synced_at s) t)
  end.
Proof.
  revert best. induction rows as [|s rows IH]; intros best; simpl.
  - destruct best as [b|]; [|auto].
    split; [auto|]. split; [|tauto]. intros ? [= <-]. apply string_le_refl.
  - match goal with |- context [fold_left ?f rows ?b0] => specialize (IH b0) end.
    destruct (fold_left _ rows _) as [t|].
    + destruct IH as (O & B & A). split; [|split].
      * destruct O as [O|(s' & I & E)]; [|eauto].
        destruct best as [b|]; [|injection O as <-; eauto].
        destruct (String.leb b (SyncState.last_synced_at s)); injection O as <-; eauto.
      * intros b ->. destruct (String.leb b (SyncState.last_synced_at s)) eqn:L.
        -- eapply string_le_trans; [exact L|]. now apply B.
        -- now apply B.
      * intros s' [<-|I]; [|now apply A].
        destruct best as [b|]; [|now apply B].
        destruct (String.leb b (SyncState.last_synced_at s)) eqn:L; [now apply B|].
        eapply string_le_trans; [|apply (B b eq_refl)].
        destruct (string_le_total (SyncState.last_synced_at s) b) as [T|T]; [exact T|].
        unfold string_le in T. congruence.
    + destruct IH as [IH _]. destruct best as [b|]; [|discriminate].
      destruct (String.leb b (SyncState.last_synced_at s)); discriminate.
Qed.

Lemma tbl_upsert_In {R} (key : R -> string) (k : string) (ins : R) (upd : R -> R)
    (rows : list R) (x : R) :
  In x (tbl_upsert key k ins upd rows) ->
  x = ins \/ (exists r, In r rows /\ x = upd r) \/ In x rows.
Proof.
  induction rows as [|r rows IH]; simpl.
  - intros [<-|[]]. auto.
  - destruct (String.eqb (key r) k); simpl.
    + intros [<-|I]; eauto 6.
    + intros [<-|I]; [auto|]. destruct (IH I) as [E|[(r' & J & E)|J]]; eauto 6.
Qed.

(** X16.  [getLastSyncTime] is the latest [last_synced_at] of the stored
    cursors: null exactly when no item was ever synced, otherwise the time
    of some item that no other item's time exceeds.  After a cursor is
    stored at a time that is not before the stored times, it is that
    time. *)
Theorem getLastSyncTime_latest (d : Db) :
  match getLastSyncTime d with
  | None => sync_state d = []
  | Some t =>
      (exists s, In s (sync_state d) /\ SyncState.last_synced_at s = t)
      /\ (forall s, In s (sync_state d) -> string_le (SyncState.last_synced_at s) t)
  end
  /\ (forall now itemId cursor,
        (forall s, In s (sync_state d) -> string_le (SyncState.last_synced_at s) now) ->
        getLastSyncTime (snd (setSyncState now itemId cursor d)) = Some now).
Proof.
  assert (G : forall d',
            match getLastSyncTime d' with
            | None => sync_state d' = []
            | Some t =>
                (exists s, In s (sync_state d') /\ SyncState.last_synced_at s = t)
                /\ (forall s, In s (sync_state d') ->
                      string_le (SyncState.last_synced_at s) t)
            end).
  { intros d'. unfold getLastSyncTime.
    pose proof (getLastSyncTime_fold (sync_state d') None) as F.
    destruct (fold_left _ (sync_state d') None) as [t|].
    - destruct F as ([O|O] & _ & A); [discriminate|]. auto.
    - apply F. }
  split; [apply G|].
  intros now itemId cursor L.
  specialize (G (snd (setSyncState now itemId cursor d))).
  set (d1 := snd (setSyncState now itemId cursor d)) in *.
  assert (F : exists s, In s (sync_state d1) /\ SyncState.last_synced_at s = now).
  { unfold d1, setSyncState, modify. simpl.
    pose proof (tbl_find_upsert_eq SyncState.item_id itemId
                  (SyncState.mk itemId cursor now)
                  (fun old => SyncState.mk (SyncState.item_id old) cursor now)
                  eq_refl (fun _ => eq_refl) (sync_state d)) as E.
    apply tbl_find_key in E as [_ I]. eexists. split; [exact I|].
    now destruct (tbl_find SyncState.item_id itemId (sync_state d)). }
  destruct F as (s0 & I0 & E0).
  destruct (getLastSyncTime d1) as [t|]; [|rewrite G in I0; destruct I0].
  destruct G as ((s & I & E) & A). f_equal.
  apply string_le_antisym.
  - rewrite <- E. unfold d1, setSyncState, modify in I. simpl in I.
    apply tbl_upsert_In in I as [->|[(r & J & ->)|J]]; simpl;
      [apply string_le_refl|apply string_le_refl|now apply L].
  - rewrite <- E0. now apply A.
Qed.

Lemma getLastSyncTime_latest_witness :
  getLastSyncTime (snd (setSyncState sample_now "item_1" "cursor_1" ledger_1))
  = Some sample_now.
Proof.
  destruct (getLastSyncTime_latest ledger_1) as [_ H].
  apply H. intros s [].
Defined.

(** ** The snapshot *)







(** ** Replaying a batch *)

Lemma tbl_rows_eq {R} (key : R -> string) (l l' : list R) :
  tbl_unique key l ->
  map key l = map key l' ->
  (forall k, tbl_find key k l = tbl_find key k l') ->
  l = l'.
Proof.
  unfold tbl_unique. revert l'. induction l as [|r l IH]; intros [|r' l'] U K F;
    try discriminate; [reflexivity|].
  simpl in K. injection K as K1 K2. apply NoDup_cons in U as [N U].
  pose proof (F (key r)) as F1. simpl in F1.
  rewrite String.eqb_refl, <- K1, String.eqb_refl in F1. injection F1 as <-.
  f_equal. apply IH; [exact U|exact K2|].
  intros k. specialize (F k). simpl in F.
  destruct (String.eqb_spec (key r) k) as [E|_]; [|exact F]. subst k.
  assert (A : ~ In (key r) (map key l)).
  { intros I. apply N. now apply list_elem_of_In. }
  pose proof A as A'. rewrite K2 in A'.
  apply tbl_find_None in A, A'. congruence.
Qed.

Lemma last_occurrence (txns : list TransactionInput.t) (k : string) :
  In k (map TransactionInput.transaction_id txns) ->
  exists l1 t l2,
    txns = l1 ++ t :: l2
    /\ TransactionInput.transaction_id t = k
    /\ ~ In k (map TransactionInput.transaction_id l2).
Proof.
  induction txns as [|x txns IH]; simpl; [tauto|].
  intros I.
  destruct (in_dec String.string_dec k (map TransactionInput.transaction_id txns)) as [J|J].
  - destruct (IH J) as (l1 & t & l2 & -> & E & N).
    exists (x :: l1), t, l2. auto.
  - destruct I as [E|I]; [|contradiction].
    exists [], x, txns. auto.
Qed.

Lemma upsert_transaction_rows_same_keys (txns : list TransactionInput.t)
    (rows : list Transaction.t) :
  (forall t, In t txns ->
     tbl_find Transaction.transaction_id (TransactionInput.transaction_id t) rows <> None) ->
  map Transaction.transaction_id (upsert_transaction_rows txns rows)
  = map Transaction.transaction_id rows.
Proof.
  revert rows. induction txns as [|t txns IH]; intros rows P; simpl; [reflexivity|].
  assert (K : map Transaction.transaction_id
                (tbl_upsert Transaction.transaction_id (TransactionInput.transaction_id t)
                   (transaction_inserted t) (transaction_updated t) rows)
              = map Transaction.transaction_id rows).
  { rewrite tbl_upsert_keys by auto with upsert.
    pose proof (P t (or_introl eq_refl)) as Pt.
    now destruct (tbl_find _ _ rows). }
  fold (upsert_transaction_rows txns). rewrite IH; [exact K|].
  intros u I.
  destruct (String.eqb_spec (TransactionInput.transaction_id u)
              (TransactionInput.transaction_id t)) as [E|E].
  - rewrite E, tbl_find_upsert_eq by auto with upsert. discriminate.
  - rewrite tbl_find_upsert_ne by auto with upsert. apply P. simpl. auto.
Qed.

Lemma transaction_row_eq (r r' : Transaction.t) :
  transaction_columns r = transaction_columns r' ->
  Transaction.tag r = Transaction.tag r' ->
  r = r'.
Proof.
  destruct r, r'. unfold transaction_columns. simpl. intros [=] ->. now subst.
Qed.

(** A batch of upserts written twice leaves the rows of the first
    writing. *)
Lemma upsert_transaction_rows_twice (txns : list TransactionInput.t)
    (rows : list Transaction.t) :
  tbl_unique Transaction.transaction_id rows ->
  upsert_transaction_rows txns (upsert_transaction_rows txns rows)
  = upsert_transaction_rows txns rows.
Proof.
  intros U. set (rows1 := upsert_transaction_rows txns rows).
  assert (U1 : tbl_unique Transaction.transaction_id rows1)
    by now apply upsert_transaction_rows_unique.
  assert (P : forall t, In t txns ->
                tbl_find Transaction.transaction_id
                  (TransactionInput.transaction_id t) rows1 <> None).
  { intros t I. destruct (upsert_transaction_rows_present txns rows t I) as (r & F).
    unfold rows1. congruence. }
  symmetry. apply (tbl_rows_eq Transaction.transaction_id); [exact U1| |].
  - symmetry. now apply upsert_transaction_rows_same_keys.
  - intros k.
    destruct (in_dec String.string_dec k (map TransactionInput.transaction_id txns)) as [I|N].
    + destruct (last_occurrence txns k I) as (l1 & t & l2 & E & <- & N).
      destruct (upsert_transaction_rows_last l1 l2 t rows N) as (r1 & F1 & C1).
      destruct (upsert_transaction_rows_last l1 l2 t rows1 N) as (r2 & F2 & C2).
      rewrite <- E in F1, F2. fold rows1 in F1.
      destruct (upsert_transaction_rows_tag txns rows1 _ r1 F1) as (r2' & F2' & T).
      rewrite F1, F2. f_equal. apply transaction_row_eq; congruence.
    + now rewrite upsert_transaction_rows_other.
Qed.

(** X18.  Writing a batch of transactions again changes nothing: when
    [upsertTransactions] returns on a table with unique ids, a second call
    with the same batch returns and leaves the database exactly as the
    first call left it, even when the batch names an id more than once or
    the stored rows carry tags. *)
Theorem upsertTransactions_replay (txns : list TransactionInput.t) (d d1 : Db) :
  tbl_unique Transaction.transaction_id (transactions d) ->
  upsertTransactions txns d = (Returned tt, d1) ->
  upsertTransactions txns d1 = (Returned tt, d1).
Proof.
  intros U H. rewrite upsertTransactions_eq in H.
  destruct (accounts_exist txns d) eqn:A; [|discriminate].
  injection H as <-. rewrite upsertTransactions_eq.
  change (accounts_exist txns (set_transactions _ d)) with (accounts_exist txns d).
  rewrite A. simpl. now rewrite upsert_transaction_rows_twice.
Qed.

Lemma upsertTransactions_replay_witness :
  let d1 := snd (upsertTransactions [txn_1 (85 # 2); txn_uber; txn_1 (9999 # 100)]
                   ledger_tagged) in
  upsertTransactions [txn_1 (85 # 2); txn_uber; txn_1 (9999 # 100)] d1 = (Returned tt, d1).
Proof.
  cbv zeta.
  apply (upsertTransactions_replay _ ledger_tagged).
  - unfold tbl_unique. apply (bool_decide_unpack _). vm_compute. exact I.
  - reflexivity.
Defined.

(** ** Reconciling every item *)

Lemma sync_items_returned (getPlaidClient : Error + PlaidApi) (now : string)
    (fuel : nat) (items : list (string * string)) (total r : SyncResponse.t)
    (d d' : Db) :
  sync_items getPlaidClient now fuel items total d = (Returned r, d') <->
  exists rs,
    items_run getPlaidClient now fuel items d rs d'
    /\ r = fold_left add_result rs total.
Proof.
  revert total d. induction items as [|[tok item] items IH]; intros total d.
  - simpl. unfold ret. split.
    + intros [= <- <-]. exists []. split; [constructor|reflexivity].
    + intros (rs & R & ->). inversion R; subst. reflexivity.
  - cbn [sync_items]. unfold bind.
    destruct (syncItem getPlaidClient now fuel tok item d) as [[r0|e|] d1] eqn:S.
    + rewrite IH. split.
      * intros (rs & R & ->). exists (r0 :: rs). split; [|reflexivity].
        econstructor; eauto.
      * intros (rs & R & ->). inversion R; subst.
        match goal with
        | H : syncItem _ _ _ _ _ _ = (Returned _, _) |- _ =>
            rewrite S in H; injection H as <- <-
        end.
        eexists. split; [eassumption|reflexivity].
    + split; [discriminate|]. intros (rs & R & _). inversion R; subst. congruence.
    + split; [discriminate|]. intros (rs & R & _). inversion R; subst. congruence.
Qed.

Lemma last_cons_first {A} (a : A) (l : list A) (d : A) :
  List.last (a :: l) d = List.last l a.
Proof.
  revert a d. induction l as [|b l IH]; intros a d; [reflexivity|].
  change (List.last (a :: b :: l) d) with (List.last (b :: l) d).
  now rewrite (IH b d), (IH b a).
Qed.

Lemma fold_add_result (rs : list SyncResponse.t) (total : SyncResponse.t) :
  let r := fold_left add_result rs total in
  SyncResponse.added r = (SyncResponse.added total + list_sum (map SyncResponse.added rs))%nat
  /\ SyncResponse.modified r
     = (SyncResponse.modified total + list_sum (map SyncResponse.modified rs))%nat
  /\ SyncResponse.removed r
     = (SyncResponse.removed total + list_sum (map SyncResponse.removed rs))%nat
  /\ SyncResponse.cursor r = List.last (map SyncResponse.cursor rs) (SyncResponse.cursor total)
  /\ (rs <> [] -> SyncResponse.has_more r = false).
Proof.
  cbv zeta. revert total. induction rs as [|x rs IH]; intros total.
  - cbn [fold_left map list_sum fold_right List.last].
    split; [lia|]. split; [lia|]. split; [lia|]. split; [reflexivity|]. congruence.
  - destruct (IH (add_result total x)) as (A & M & R & C & H).
    cbn [fold_left map]. rewrite A, M, R, C, last_cons_first.
    unfold add_result at 1 2 3 4.
    cbn [SyncResponse.added SyncResponse.modified SyncResponse.removed
         SyncResponse.cursor].
    repeat match goal with
           | |- context [list_sum (?a :: ?l)] =>
               change (list_sum (a :: l)) with (a + list_sum l)%nat
           end.
    split; [lia|]. split; [lia|]. split; [lia|]. split; [reflexivity|].
    intros _. destruct rs as [|y rs]; [reflexivity|]. apply H. discriminate.
Qed.

(** X19.  [syncAll] from end to end.  An error of the token store is
    thrown as it is, and an empty list of items gives the SyncError that
    asks to link an account; neither touches the database.  The call
    returns exactly when there is an item and the pass of every item
    returns, each on the database that the pass before it left; the result
    then adds up the added, modified and removed counts of the passes,
    carries the cursor of the last item and says that nothing more is to
    be read. *)
Theorem syncAll_returns (getPlaidClient : Error + PlaidApi)
    (getDecryptedAccessTokens : Error + list (string * string)) (now : string)
    (fuel : nat) (d : Db) :
  (forall e, getDecryptedAccessTokens = inl e ->
     syncAll getPlaidClient getDecryptedAccessTokens now fuel d = (Thrown e, d))
  /\ (getDecryptedAccessTokens = inr [] ->
      syncAll getPlaidClient getDecryptedAccessTokens now fuel d
      = (Thrown no_linked_accounts, d))
  /\ (forall r d',
        syncAll getPlaidClient getDecryptedAccessTokens now fuel d = (Returned r, d') <->
        exists items rs,
          getDecryptedAccessTokens = inr items
          /\ items <> []
          /\ items_run getPlaidClient now fuel items d rs d'
          /\ r = SyncResponse.mk
                   (list_sum (map SyncResponse.added rs))
                   (list_sum (map SyncResponse.modified rs))
                   (list_sum (map SyncResponse.removed rs))
                   (List.last (map SyncResponse.cursor rs) "")
                   false).
Proof.
  split; [|split].
  - intros e ->. reflexivity.
  - intros ->. reflexivity.
  - intros r d'. unfold syncAll, bind, lift.
    destruct getDecryptedAccessTokens as [e|items].
    { split; [discriminate|]. intros (items & rs & E & _). discriminate. }
    unfold ret.
    assert (T : forall rs, rs <> [] ->
              fold_left add_result rs (SyncResponse.mk 0 0 0 "" false)
              = SyncResponse.mk
                  (list_sum (map SyncResponse.added rs))
                  (list_sum (map SyncResponse.modified rs))
                  (list_sum (map SyncResponse.removed rs))
                  (List.last (map SyncResponse.cursor rs) "")
                  false).
    { intros rs N.
      destruct (fold_add_result rs (SyncResponse.mk 0 0 0 "" false)) as (A & M & R & C & H).
      simpl in *. specialize (H N).
      destruct (fold_left add_result rs _). simpl in *. congruence. }
    destruct items as [|item items].
    { split; [discriminate|]. intros (items & rs & E & N & _). congruence. }
    rewrite sync_items_returned. split.
    + intros (rs & R & ->). exists (item :: items), rs.
      split; [reflexivity|]. split; [discriminate|]. split; [exact R|].
      apply T. inversion R; subst. discriminate.
    + intros (items' & rs & E & N & R & ->). injection E as <-.
      exists rs. split; [exact R|]. symmetry. apply T.
      inversion R; subst. discriminate.
Qed.

Lemma syncAll_returns_witness :
  syncAll (inr sample_feed) (inl request_failed) sample_now 5 ledger_1
  = (Thrown request_failed, ledger_1)
  /\ syncAll (inr sample_feed) (inr []) sample_now 5 ledger_1
     = (Thrown no_linked_accounts, ledger_1)
  /\ exists items rs,
       items_run (inr sample_feed) sample_now 5 items ledger_tagged rs
         (snd (syncAll (inr sample_feed) (inr [("tok_b", "item_b")]) sample_now 5
                 ledger_tagged))
       /\ items = [("tok_b", "item_b")]
       /\ list_sum (map SyncResponse.added rs) = 3%nat.
Proof.
  destruct (syncAll_returns (inr sample_feed) (inl request_failed) sample_now 5 ledger_1)
    as (H1 & _).
  destruct (syncAll_returns (inr sample_feed) (inr []) sample_now 5 ledger_1)
    as (_ & H2 & _).
  destruct (syncAll_returns (inr sample_feed) (inr [("tok_b", "item_b")]) sample_now 5
              ledger_tagged) as (_ & _ & H3).
  split; [apply H1; reflexivity|]. split; [apply H2; reflexivity|].
  destruct (syncAll (inr sample_feed) (inr [("tok_b", "item_b")]) sample_now 5
              ledger_tagged) as [[r|e|] d'] eqn:E;
    [|vm_compute in E; discriminate E|vm_compute in E; discriminate E].
  destruct (proj1 (H3 r d') eq_refl) as (items & rs & I & _ & R & T).
  exists items, rs. split; [exact R|]. split; [congruence|].
  assert (A : SyncResponse.added r = 3%nat).
  { vm_compute in E. injection E as <- _. reflexivity. }
  rewrite T in A. exact A.
Defined.

(** ** Pattern search *)





(** ** Tagging by hand *)

Lemma tbl_find_update {R} (key : R -> string) (k k' : string) (upd : R -> R)
    (rows : list R) :
  (forall r, key (upd r) = key r) ->
  tbl_find key k' (tbl_update key k upd rows) =
  if String.eqb k' k then option_map upd (tbl_find key k' rows)
  else tbl_find key k' rows.
Proof.
  intros Ku. unfold tbl_update. induction rows as [|r rows IH]; simpl.
  - now destruct (String.eqb k' k).
  - destruct (String.eqb_spec (key r) k) as [E|E].
    + rewrite Ku. destruct (String.eqb_spec (key r) k') as [E'|E'].
      * subst. now rewrite String.eqb_refl.
      * exact IH.
    + destruct (String.eqb_spec (key r) k') as [E'|E'].
      * subst k'. apply String.eqb_neq in E. now rewrite E.
      * exact IH.
Qed.

Lemma tbl_update_absent {R} (key : R -> string) (k : string) (upd : R -> R)
    (rows : list R) :
  tbl_find key k rows = None -> tbl_update key k upd rows = rows.
Proof.
  intros F. apply tbl_find_None in F. unfold tbl_update.
  erewrite map_ext_in; [apply map_id|].
  intros r I. simpl. destruct (String.eqb_spec (key r) k) as [E|_]; [|reflexivity].
  exfalso. apply F. rewrite <- E. now apply in_map.
Qed.

(** X21.  [updateTransactionTag] never throws.  For an id that is not
    stored it reports no change and leaves the database as it was.  For a
    stored id it reports a change, and afterwards the row of the id has
    the tag given (or none, when null is given) and its other columns as
    before, and the row of every other id is as before. *)
Theorem updateTransactionTag_spec (transactionId : string) (tag : option string)
    (d : Db) :
  tbl_unique Transaction.transaction_id (transactions d) ->
  (tbl_find Transaction.transaction_id transactionId (transactions d) = None ->
   updateTransactionTag transactionId tag d = (Returned false, d))
  /\ (forall r,
        tbl_find Transaction.transaction_id transactionId (transactions d) = Some r ->
        exists d',
          updateTransactionTag transactionId tag d = (Returned true, d')
          /\ tbl_find Transaction.transaction_id transactionId (transactions d')
             = Some (set_tag tag r)
          /\ Transaction.tag (set_tag tag r) = tag
          /\ transaction_columns (set_tag tag r) = transaction_columns r
          /\ (forall k, k <> transactionId ->
                tbl_find Transaction.transaction_id k (transactions d')
                = tbl_find Transaction.transaction_id k (transactions d))
          /\ length (transactions d') = length (transactions d)
          /\ accounts d' = accounts d).
Proof.
  intros U. unfold updateTransactionTag. rewrite tbl_count_unique by exact U. split.
  - intros F. rewrite F, tbl_update_absent by exact F.
    now rewrite set_transactions_id.
  - intros r F. rewrite F. eexists. split; [reflexivity|]. simpl.
    split; [|split; [reflexivity|split; [reflexivity|split; [|split]]]].
    + rewrite tbl_find_update by reflexivity. now rewrite String.eqb_refl, F.
    + intros k N. rewrite tbl_find_update by reflexivity.
      apply String.eqb_neq in N. now rewrite N.
    + unfold tbl_update. apply length_map.
    + reflexivity.
Qed.

Lemma updateTransactionTag_spec_witness :
  updateTransactionTag "txn_404" (Some "coffee") ledger_tagged
  = (Returned false, ledger_tagged).
Proof.
  destruct (updateTransactionTag_spec "txn_404" (Some "coffee") ledger_tagged) as [H _].
  - unfold tbl_unique. apply (bool_decide_unpack _). vm_compute. exact I.
  - apply H. reflexivity.
Defined.

(** ** Spending by tag *)















(** ** The burn report and the net report *)

Section BurnNetFacts.
Variable strftime_Y_m : string -> option string.
Variable date_now_minus_months : Z -> option string.

Lemma getNetReport_In (months : Z) (cutoff : string) (d : Db) (m : MonthlyNet.t) :
  date_now_minus_months months = Some cutoff ->
  (In m (getNetReport strftime_Y_m date_now_minus_months months d) <->
   exists k n p,
     In (k, (n, p))
       (net_groups strftime_Y_m
          (List.filter (fun r => String.leb cutoff (Transaction.date r)) (transactions d)))
     /\ m = MonthlyNet.mk k (round_cents (Qabs n)) (round_cents p)
              (round_cents (Qabs n - p))).
Proof.
  intros C. unfold getNetReport, getMonthlyNet. rewrite C.
  set (rows := List.filter (fun r => String.leb cutoff (Transaction.date r))
                 (transactions d)).
  fold (net_groups strftime_Y_m rows).
  set (absf := fun g : option string * (Q * Q) =>
                 (fst g, (Qabs (fst (snd g)), snd (snd g)))).
  pose proof (merge_sort_Permutation net_month_asc
                (map absf (net_groups strftime_Y_m rows))) as Pm.
  rewrite in_map_iff. split.
  - intros (g' & <- & I). apply (Permutation_in _ Pm) in I.
    apply in_map_iff in I as ([k [n p]] & <- & I). eauto.
  - intros (k & n & p & I & ->). exists (absf (k, (n, p))). split; [reflexivity|].
    apply (Permutation_in _ (Permutation_sym Pm)). now apply in_map.
Qed.

(** A month of the burn report: it has spending rows since the cutoff,
    and its total is the rounded sum of their amounts. *)
Lemma getBurnReport_In (months : Z) (cutoff : string) (d : Db) (m : MonthlyBurn.t) :
  date_now_minus_months months = Some cutoff ->
  In m (BurnReport.months (getBurnReport strftime_Y_m date_now_minus_months months d)) ->
  let grp :=
    List.filter (fun r => bool_decide (strftime_Y_m (Transaction.date r) = MonthlyBurn.month m))
      (List.filter (spent_since cutoff) (transactions d)) in
  grp <> [] /\ MonthlyBurn.total m = round_cents (sum_amounts grp).
Proof.
  intros C I. unfold getBurnReport, getMonthlySpending in I. rewrite C in I.
  cbn [BurnReport.months] in I. apply in_map_iff in I as ([k s] & <- & I).
  apply (Permutation_in _ (merge_sort_Permutation _ _)) in I.
  apply assoc_In_NoDup in I; [|apply group_sum_NoDup].
  unfold group_sum in I. rewrite assoc_group_sum_from, sum_from_None in I.
  simpl assoc in I. cbn.
  set (grp := List.filter
                (fun r => bool_decide (strftime_Y_m (Transaction.date r) = k))
                (List.filter (spent_since cutoff) (transactions d))) in *.
  split; [destruct grp; [discriminate|discriminate]|].
  assert (E : s = fold_left Qplus (map Transaction.amount grp) 0).
  { destruct (map Transaction.amount grp); [discriminate|congruence]. }
  rewrite E. f_equal. apply fold_left_amounts.
Qed.

Lemma spent_since_month_rows (cutoff : string) (k : option string)
    (rows : list Transaction.t) :
  List.filter (fun r => Qltb 0 (Transaction.amount r))
    (List.filter (fun r => bool_decide (strftime_Y_m (Transaction.date r) = k))
       (List.filter (fun r => String.leb cutoff (Transaction.date r)) rows))
  = List.filter (fun r => bool_decide (strftime_Y_m (Transaction.date r) = k))
      (List.filter (spent_since cutoff) rows).
Proof.
  unfold spent_since. induction rows as [|r rows IH]; simpl; [reflexivity|].
  destruct (String.leb cutoff (Transaction.date r)); simpl;
    destruct (Qltb 0 (Transaction.amount r)) eqn:P; simpl;
    destruct (bool_decide (strftime_Y_m (Transaction.date r) = k)); simpl;
    rewrite ?P; simpl; congruence.
Qed.

End BurnNetFacts.

(** X23.  The burn report and the net report agree.  For the same number
    of months and the same cutoff, every month of the burn report is a
    month of the net report, and the total burnt in it is the expenses of
    the net report for it; a month of the net report that is missing from
    the burn report has expenses 0. *)
Theorem burn_and_net_agree (strftime_Y_m : string -> option string)
    (date_now_minus_months : Z -> option string) (months : Z) (cutoff : string)
    (d : Db) :
  date_now_minus_months months = Some cutoff ->
  let burn := BurnReport.months (getBurnReport strftime_Y_m date_now_minus_months months d) in
  let net := getNetReport strftime_Y_m date_now_minus_months months d in
  (forall b, In b burn ->
     exists n, In n net
               /\ MonthlyNet.month n = MonthlyBurn.month b
               /\ MonthlyNet.expenses n = MonthlyBurn.total b)
  /\ (forall n, In n net ->
        (forall b, In b burn -> MonthlyBurn.month b <> MonthlyNet.month n) ->
        MonthlyNet.expenses n == 0).
Proof.
  intros C. cbv zeta. split.
  - intros b I.
    destruct (getBurnReport_In strftime_Y_m date_now_minus_months months cutoff d b C I)
      as (G & T).
    rewrite <- spent_since_month_rows in G, T.
    set (rows := List.filter (fun r => String.leb cutoff (Transaction.date r))
                   (transactions d)) in *.
    set (grp := List.filter
                  (fun r => bool_decide (strftime_Y_m (Transaction.date r)
                                         = MonthlyBurn.month b)) rows) in *.
    destruct (List.filter (fun r => Qltb 0 (Transaction.amount r)) grp) as [|r pos] eqn:P;
      [congruence|].
    assert (J : In r grp).
    { assert (In r (List.filter (fun r => Qltb 0 (Transaction.amount r)) grp))
        by (rewrite P; simpl; auto).
      apply filter_In in H. apply H. }
    apply filter_In in J as [J K]. apply bool_decide_eq_true in K.
    destruct (net_groups_complete strftime_Y_m rows r J) as (n & p & E).
    rewrite K in E.
    destruct (net_groups_entry strftime_Y_m rows _ n p E) as (_ & _ & _ & P1 & _).
    fold grp in P1. rewrite P in P1.
    eexists. split.
    { apply (getNetReport_In strftime_Y_m date_now_minus_months months cutoff d _ C).
      exists (MonthlyBurn.month b), n, p. split; [exact E|reflexivity]. }
    split; [reflexivity|]. simpl. rewrite T. now apply round_cents_comp.
  - intros n I N.
    apply (getNetReport_In strftime_Y_m date_now_minus_months months cutoff d _ C) in I
      as (k & a & p & E & ->).
    cbn [MonthlyNet.expenses MonthlyNet.month] in *.
    destruct (net_groups_entry strftime_Y_m _ k a p E) as (_ & _ & _ & P1 & _).
    rewrite spent_since_month_rows in P1.
    destruct (List.filter
                (fun r => bool_decide (strftime_Y_m (Transaction.date r) = k))
                (List.filter (spent_since cutoff) (transactions d)))
      as [|r grp'] eqn:G.
    { assert (Z : p == 0) by (rewrite P1; reflexivity).
      rewrite (round_cents_comp _ _ Z). reflexivity. }
    exfalso.
    assert (S : In (k, sum_amounts (r :: grp'))
                  (getMonthlySpending strftime_Y_m date_now_minus_months months d)).
    { unfold getMonthlySpending. rewrite C.
      apply (Permutation_in _ (Permutation_sym (merge_sort_Permutation _ _))).
      apply assoc_Some_In. unfold group_sum.
      rewrite assoc_group_sum_from, sum_from_None. simpl assoc. rewrite G.
      change (Some (fold_left Qplus (map Transaction.amount (r :: grp')) 0)
              = Some (sum_amounts (r :: grp'))).
      f_equal. apply fold_left_amounts. }
    apply (N (MonthlyBurn.mk k (round_cents (sum_amounts (r :: grp'))))); [|reflexivity].
    unfold getBurnReport. cbn [BurnReport.months].
    apply in_map_iff. exists (k, sum_amounts (r :: grp')). split; [reflexivity|exact S].
Qed.

Lemma burn_and_net_agree_witness :
  exists n,
    In n (getNetReport sample_strftime_Y_m sample_date_now_minus_months 6 ledger_burn)
    /\ MonthlyNet.month n = Some "2024-03"
    /\ MonthlyNet.expenses n = round_cents 100.
Proof.
  destruct (burn_and_net_agree sample_strftime_Y_m sample_date_now_minus_months 6
              "2024-01-01" ledger_burn eq_refl) as [H _].
  destruct (H (MonthlyBurn.mk (Some "2024-03") (round_cents 100))) as (n & I & M & E).
  { vm_compute. auto. }
  exists n. auto.
Defined.
